(** * maplibre-gl-streetview: a shallow embedding of the street-view control

    The development follows the TypeScript sources:
    - [helpers.ts]  ([normalizeHeading], [clamp], [debounce], [throttle]),
    - [geo.ts]      ([toLngLat], [calculateDistance], [findClosestPoint]),
    - [api.ts]      ([fetchJson], [buildUrl]),
    - [GoogleStreetViewProvider.ts], [MapillaryProvider.ts], [BaseProvider.ts]
                    ([queryImagery], [findNearestImagery], the rendering and
                    the heading callbacks),
    - [Viewer.ts], [ProviderTabs.ts], [Panel.ts] (the components),
    - [StreetViewControl.ts] (the orchestrator and its notifications).

    Part I holds the embedding and the vocabulary of the statements,
    Part II the theorems about the orchestrator, the providers and the
    helpers they rest on, Part III those about the rest of the code. *)

From Stdlib Require Import ZArith List Bool String Ascii Lia Sorted.
From Stdlib Require Import Floats.SpecFloat.
Import ListNotations.

Set Implicit Arguments.

Local Open Scope Z_scope.
Local Open Scope string_scope.
Local Open Scope list_scope.

(* ===================================================================== *)
(** * Part I. The embedding                                              *)
(* ===================================================================== *)

(** ** JavaScript numbers

    A JS [number] is an IEEE 754 binary64 value.  The Standard Library's
    [spec_float] is the specification of that format; arithmetic is
    [SFadd] and the comparisons are [SFltb], [SFleb] and [SFeqb], all of
    which answer [false] on NaN, as [<], [<=] and [===] do. *)

Definition prec : Z := 53.
Definition emax : Z := 1024.

Definition number : Type := spec_float.

(** An integer literal of the source, rounded to binary64. *)
Definition num (z : Z) : number := binary_normalize prec emax z 0 false.

Definition NaN : number := S754_nan.

Definition num_add (x y : number) : number := SFadd prec emax x y.
Definition num_sub (x y : number) : number := SFsub prec emax x y.
Definition num_mul (x y : number) : number := SFmul prec emax x y.
Definition num_div (x y : number) : number := SFdiv prec emax x y.
Definition num_lt (x y : number) : bool := SFltb x y.
Definition num_le (x y : number) : bool := SFleb x y.
Definition num_gt (x y : number) : bool := SFltb y x.
Definition num_eq (x y : number) : bool := SFeqb x y.

(** [Number.isNaN] (and the global [isNaN] on a number). *)
Definition is_nan (x : number) : bool :=
  match x with
  | S754_nan => true
  | _ => false
  end.

(** [n % d] (ECMAScript Number::remainder, C's [fmod]): the result is
    exact, has the sign of the dividend and a magnitude below that of
    the divisor. *)
Definition num_rem (n d : number) : number :=
  match n, d with
  | S754_nan, _ | _, S754_nan => S754_nan
  | S754_infinity _, _ => S754_nan
  | _, S754_zero _ => S754_nan
  | S754_zero _, _ => n
  | S754_finite _ _ _, S754_infinity _ => n
  | S754_finite sn mn en, S754_finite _ md ed =>
      let e := Z.min en ed in
      let zn := Zpos (fst (shl_align mn en e)) in
      let zd := Zpos (fst (shl_align md ed e)) in
      match Z.rem zn zd with
      | Z0 => S754_zero sn
      | r => binary_normalize prec emax (cond_Zopp sn r) e false
      end
  end.

(** ToBoolean on a number: [0], [-0] and [NaN] are falsy. *)
Definition num_truthy (x : number) : bool :=
  match x with
  | S754_zero _ | S754_nan => false
  | _ => true
  end.

(** A value caught by [catch (error)]: an [Error] instance with its
    message, or any other thrown value with its [String(error)] image. *)
Inductive JSError : Type :=
| ErrorObject (message : string)
| ThrownValue (text : string).

Definition error_message_or (fallback : string) (e : JSError) : string :=
  match e with
  | ErrorObject m => m
  | ThrownValue _ => fallback
  end.

(** [error instanceof Error ? error : new Error(String(error))] *)
Definition as_Error (e : JSError) : JSError :=
  match e with
  | ErrorObject m => ErrorObject m
  | ThrownValue t => ErrorObject t
  end.

(** ** helpers.ts *)

Definition normalizeHeading (heading : number) : number :=
  let normalized := num_rem heading (num 360) in
  let normalized :=
    if num_lt normalized (num 0) then num_add normalized (num 360)
    else normalized in
  (* Convert -0 to 0 *)
  if num_truthy normalized then normalized else num 0.

(** ** The map library: [LngLat]

    [LngLat] and [LngLatLike] are maplibre-gl's.  The constructor
    [new LngLat(lng, lat)] refuses a coordinate that is NaN and a
    latitude outside [-90, 90]: it throws an [Error].  The message of
    the first error quotes the two numbers as the platform prints them;
    the embedding keeps the numbers. *)

Record LngLat : Type := { lng : number; lat : number }.

Inductive LngLatLike : Type :=
| LngLatInstance (p : LngLat)
| LngLatArray (a0 a1 : number)
| LngLatObject (lng0 lat0 : number)
| LonLatObject (lon0 lat0 : number).

Inductive LngLatError : Type :=
| InvalidLngLat (lng0 lat0 : number)
| InvalidLatitude.

(** How a call of a function of [geo.ts] ends: it returns a value, or it
    throws; what these functions throw is what [new LngLat] throws. *)
Inductive Completion (A : Type) : Type :=
| Normal (a : A)
| Throws (e : LngLatError).
Arguments Throws {A} e.

Definition new_LngLat (lng0 lat0 : number) : Completion LngLat :=
  if is_nan lng0 || is_nan lat0 then Throws (InvalidLngLat lng0 lat0)
  else if num_gt lat0 (num 90) || num_lt lat0 (num (-90)) then Throws InvalidLatitude
  else Normal {| lng := lng0; lat := lat0 |}.

(** The [Error] object that is thrown. *)
Definition LngLatError_message (Number_toString : number -> string) (e : LngLatError)
  : string :=
  match e with
  | InvalidLngLat lng0 lat0 =>
      "Invalid LngLat object: (" ++ Number_toString lng0 ++ ", "
                                 ++ Number_toString lat0 ++ ")"
  | InvalidLatitude => "Invalid LngLat latitude value: must be between -90 and 90"
  end.

Definition Error_of (Number_toString : number -> string) (e : LngLatError) : JSError :=
  ErrorObject (LngLatError_message Number_toString e).

(** ** The platform's [Math]

    ECMAScript fixes [Math.sin], [Math.cos], [Math.sqrt] and [Math.atan2]
    at NaN, the infinities and the zeros; at the other arguments the
    result is an approximation that the platform chooses.  A platform is
    given by its approximations. *)

Record Math : Type := {
  approx_sin : number -> number;
  approx_cos : number -> number;
  approx_sqrt : number -> number;
  approx_atan2 : number -> number -> number
}.

(** [Math.PI], the binary64 number next to pi: 3.141592653589793. *)
Definition Math_PI : number := S754_finite false 7074237752028440 (-51).

Section PlatformMath.
Variable M : Math.

Definition Math_sin (x : number) : number :=
  match x with
  | S754_nan | S754_infinity _ => NaN
  | S754_zero _ => x
  | S754_finite _ _ _ => approx_sin M x
  end.

Definition Math_cos (x : number) : number :=
  match x with
  | S754_nan | S754_infinity _ => NaN
  | S754_zero _ => num 1
  | S754_finite _ _ _ => approx_cos M x
  end.

Definition Math_sqrt (x : number) : number :=
  match x with
  | S754_nan => NaN
  | S754_zero _ => x
  | S754_infinity false => x
  | S754_infinity true => NaN
  | S754_finite true _ _ => NaN
  | S754_finite false _ _ => approx_sqrt M x
  end.

(** Of the cases of [Math.atan2] only the one of a NaN argument is
    written out; the others are the platform's. *)
Definition Math_atan2 (y x : number) : number :=
  match y, x with
  | S754_nan, _ | _, S754_nan => NaN
  | _, _ => approx_atan2 M y x
  end.
End PlatformMath.

(** ** geo.ts *)

(** [toLngLat]: an instance is returned as it is, the other shapes are
    passed to [new LngLat(lng, lat)], which may throw. *)
Definition toLngLat (lngLat : LngLatLike) : Completion LngLat :=
  match lngLat with
  | LngLatInstance p => Normal p
  | LngLatArray a0 a1 => new_LngLat a0 a1
  | LngLatObject x y => new_LngLat x y
  | LonLatObject x y => new_LngLat x y
  end.

(** [calculateDistance]: the haversine formula, computed in binary64.
    [haversine] is the function after the two conversions. *)
Section Haversine.
Variable M : Math.

Definition haversine (p1 p2 : LngLat) : number :=
  let R0 := num 6371000 in
  let lat1 := num_div (num_mul (lat p1) Math_PI) (num 180) in
  let lat2 := num_div (num_mul (lat p2) Math_PI) (num 180) in
  let deltaLat := num_div (num_mul (num_sub (lat p2) (lat p1)) Math_PI) (num 180) in
  let deltaLng := num_div (num_mul (num_sub (lng p2) (lng p1)) Math_PI) (num 180) in
  let a :=
    num_add
      (num_mul (Math_sin M (num_div deltaLat (num 2)))
               (Math_sin M (num_div deltaLat (num 2))))
      (num_mul
         (num_mul (num_mul (Math_cos M lat1) (Math_cos M lat2))
                  (Math_sin M (num_div deltaLng (num 2))))
         (Math_sin M (num_div deltaLng (num 2)))) in
  let c := num_mul (num 2)
                   (Math_atan2 M (Math_sqrt M a) (Math_sqrt M (num_sub (num 1) a))) in
  num_mul R0 c.

Definition calculateDistance (from to : LngLatLike) : Completion number :=
  match toLngLat from with
  | Throws e => Throws e
  | Normal p1 =>
      match toLngLat to with
      | Throws e => Throws e
      | Normal p2 => Normal (haversine p1 p2)
      end
  end.
End Haversine.

(** [findClosestPoint] is generic in the element type [T extends
    { location: LngLat }]; the embedding is generic too in the distance
    function it calls, which returns or throws, and in the type [D] and
    comparison [<] of the distances, so that it runs on any instance.  A
    call of the distance function that throws ends the scan. *)
Section FindClosestPoint.
Variables T D : Type.
Variable location : T -> LngLat.
Variable calculateDistance : LngLatLike -> LngLatLike -> Completion D.
Variable lt : D -> D -> bool.

(** The body of [for (let i = 1; i < points.length; i++)]. *)
Fixpoint findClosestPoint_scan (target : LngLatLike) (rest : list T)
         (closest : T) (minDistance : D) : Completion T :=
  match rest with
  | [] => Normal closest
  | p :: rest' =>
      match calculateDistance target (LngLatInstance (location p)) with
      | Throws e => Throws e
      | Normal distance =>
          if lt distance minDistance
          then findClosestPoint_scan target rest' p distance
          else findClosestPoint_scan target rest' closest minDistance
      end
  end.

Definition findClosestPoint (target : LngLatLike) (points : list T)
  : Completion (option T) :=
  match points with
  | [] => Normal None
  | p0 :: rest =>
      match calculateDistance target (LngLatInstance (location p0)) with
      | Throws e => Throws e
      | Normal minDistance =>
          match findClosestPoint_scan target rest p0 minDistance with
          | Throws e => Throws e
          | Normal closest => Normal (Some closest)
          end
      end
  end.
End FindClosestPoint.

(** ** Promises and asynchronous functions

    An [async] function is a tree: it returns, throws, or awaits a
    request [req] of the environment and continues with the answer.  The
    environment is whatever answers the requests; a run against a list
    of answers gives the outcome and the requests made, in order. *)

Inductive Settled (A : Type) : Type :=
| Fulfilled (a : A)
| Rejected (e : JSError).
Arguments Rejected {A} e.

Section Async.
Variables E R : Type.

Inductive Async (A : Type) : Type :=
| Return (a : A)
| Throw (e : JSError)
| Await (req : E) (k : R -> Async A).
Arguments Throw {A} e.

Fixpoint bind {A B : Type} (m : Async A) (f : A -> Async B) : Async B :=
  match m with
  | Return a => f a
  | Throw e => Throw e
  | Await req k => Await req (fun r => bind (k r) f)
  end.

(** [try { m } catch (error) { handler error }] *)
Fixpoint try_catch {A : Type} (m : Async A) (handler : JSError -> Async A) : Async A :=
  match m with
  | Return a => Return a
  | Throw e => handler e
  | Await req k => Await req (fun r => try_catch (k r) handler)
  end.

Inductive Outcome (A : Type) : Type :=
| Resolved (a : A)
| RejectedWith (e : JSError)
| Pending.
Arguments RejectedWith {A} e.
Arguments Pending {A}.

Fixpoint run {A : Type} (m : Async A) (answers : list R) : Outcome A * list E :=
  match m with
  | Return a => (Resolved a, [])
  | Throw e => (RejectedWith e, [])
  | Await req k =>
      match answers with
      | [] => (Pending, [req])
      | r :: answers' =>
          let (o, t) := run (k r) answers' in (o, req :: t)
      end
  end.
End Async.

Arguments Return {E R A} a.
Arguments Throw {E R A} e.
Arguments Await {E R A} req k.
Arguments RejectedWith {A} e.
Arguments Pending {A}.

Notation "x <- m ;; f" := (bind m (fun x => f))
  (at level 61, m at next level, right associativity).

(** ** api.ts *)

(** What [fetch(url)] followed by [response.json()] can do: [fetch]
    rejects, or it gives a response with its [ok] flag and [status],
    whose [json()] promise is fulfilled with the parsed body or rejected. *)
Inductive FetchOutcome (T : Type) : Type :=
| FetchRejects (e : JSError)
| FetchResponse (ok : bool) (status : number) (json : Settled T).
Arguments FetchRejects {T} e.

(** The state of a [URL] object: the serialisation of the scheme,
    authority and path, the query as the parser left it ([None] when the
    URL has none), the name-value pairs of [url.searchParams], which the
    platform reads from the query, and the fragment.  [new URL(baseUrl)]
    is the platform's parser; the embedding starts from the object it
    returns. *)
Record URL : Type := {
  origin_and_path : string;
  query : option string;
  searchParams : list (string * string);
  hash : option string
}.

(** *** The application/x-www-form-urlencoded serializer (WHATWG URL) *)

Definition is_alphanumeric (c : ascii) : bool :=
  let n := N_of_ascii c in
  ((48 <=? n) && (n <=? 57) || (65 <=? n) && (n <=? 90)
   || (97 <=? n) && (n <=? 122))%N.

(** Bytes left as they are: ASCII alphanumerics and [*], [-], [.], [_]. *)
Definition is_unreserved (c : ascii) : bool :=
  is_alphanumeric c
  || Ascii.eqb c "*" || Ascii.eqb c "-" || Ascii.eqb c "." || Ascii.eqb c "_".

Definition hex_digit (n : N) : ascii :=
  if (n <? 10)%N then ascii_of_N (48 + n) else ascii_of_N (55 + n).

Definition percent_encode_byte (c : ascii) : string :=
  let n := N_of_ascii c in
  String "%" (String (hex_digit (n / 16)) (String (hex_digit (n mod 16)) "")).

Definition urlencode_byte (c : ascii) : string :=
  if is_unreserved c then String c ""
  else if Ascii.eqb c " " then "+"
       else percent_encode_byte c.

Fixpoint urlencode (s : string) : string :=
  match s with
  | EmptyString => ""
  | String c s' => urlencode_byte c ++ urlencode s'
  end.

Fixpoint urlencoded_serialize (l : list (string * string)) : string :=
  match l with
  | [] => ""
  | [(k, v)] => urlencode k ++ "=" ++ urlencode v
  | (k, v) :: l' => urlencode k ++ "=" ++ urlencode v ++ "&" ++ urlencoded_serialize l'
  end.

(** [URLSearchParams.prototype.set]: the first pair named [name] takes
    the value and the other pairs of that name go; with no such pair a
    new one is appended. *)
Definition remove_name (name : string) (l : list (string * string)) :=
  filter (fun kv => negb (String.eqb (fst kv) name)) l.

Fixpoint searchParams_set (l : list (string * string)) (name value : string) :=
  match l with
  | [] => [(name, value)]
  | (k, v) :: l' =>
      if String.eqb k name then (k, value) :: remove_name name l'
      else (k, v) :: searchParams_set l' name value
  end.

(** A change of [url.searchParams] writes the query anew: it becomes the
    serialisation of the pairs, or none when that is empty. *)
Definition query_of (l : list (string * string)) : option string :=
  match urlencoded_serialize l with
  | EmptyString => None
  | serialized => Some serialized
  end.

(** [url.searchParams.set(name, value)] *)
Definition URL_set (url : URL) (name value : string) : URL :=
  let l := searchParams_set (searchParams url) name value in
  {| origin_and_path := origin_and_path url;
     query := query_of l;
     searchParams := l;
     hash := hash url |}.

(** [url.toString()]: a query that was never written anew is given as
    the parser left it. *)
Definition URL_toString (url : URL) : string :=
  origin_and_path url
  ++ match query url with
     | None => ""
     | Some q => "?" ++ q
     end
  ++ match hash url with
     | None => ""
     | Some f => "#" ++ f
     end.

(** A value of a [params] record.  The declared type is
    [string | number | boolean]; the test in [buildUrl] also covers
    [undefined] and [null]. *)
Inductive ParamValue : Type :=
| PUndefined
| PNull
| PString (s : string)
| PNumber (n : number)
| PBoolean (b : bool).

Section Api.
(** Number::toString of the platform. *)
Variable Number_toString : number -> string.

(** [String(value)] *)
Definition String_of (value : ParamValue) : string :=
  match value with
  | PUndefined => "undefined"
  | PNull => "null"
  | PString s => s
  | PNumber n => Number_toString n
  | PBoolean true => "true"
  | PBoolean false => "false"
  end.

(** [value !== undefined && value !== null && value !== ''] *)
Definition is_set (value : ParamValue) : bool :=
  match value with
  | PUndefined | PNull => false
  | PString s => negb (String.eqb s "")
  | PNumber _ | PBoolean _ => true
  end.

(** [params] is given as [Object.entries(params)]: the own properties
    in order, each key once. *)
Definition buildUrl (baseUrl : URL) (params : list (string * ParamValue)) : string :=
  let url :=
    fold_left
      (fun url kv =>
         let '(key, value) := kv in
         if is_set value then URL_set url key (String_of value) else url)
      params baseUrl in
  URL_toString url.

(** [fetchJson<T>(url)]: the request awaited is the URL. *)
Definition fetchJson {T : Type} (url : string) : Async string (FetchOutcome T) T :=
  Await url (fun response =>
    match response with
    | FetchRejects e => Throw e
    | FetchResponse ok status json =>
        if negb ok
        then Throw (ErrorObject ("HTTP error! status: " ++ Number_toString status))
        else match json with
             | Fulfilled body => Return body
             | Rejected e => Throw e
             end
    end).
End Api.

(** ** types.ts *)

Inductive ProviderType : Type := google | mapillary.

Definition ProviderType_eqb (a b : ProviderType) : bool :=
  match a, b with
  | google, google | mapillary, mapillary => true
  | _, _ => false
  end.

(** [new Date(x)], kept as the argument it was made from. *)
Inductive DateValue : Type :=
| DateOfString (s : string)
| DateOfNumber (n : number).

Module ImageryResult.
Record t : Type := {
  id : string;
  location : LngLat;
  capturedAt : option DateValue;
  thumbnailUrl : option string;
  provider : ProviderType;
  heading : option number;
  isPano : option bool
}.
End ImageryResult.
Abbreviation ImageryResult := ImageryResult.t.

(** ** constants.ts *)

Definition GOOGLE_API_METADATA_URL : URL :=
  {| origin_and_path := "https://maps.googleapis.com/maps/api/streetview/metadata";
     query := None; searchParams := []; hash := None |}.

Definition MAPILLARY_API_IMAGES_URL : URL :=
  {| origin_and_path := "https://graph.mapillary.com/images";
     query := None; searchParams := []; hash := None |}.

Definition MAPILLARY_IMAGE_FIELDS : string :=
  "id,computed_geometry,thumb_1024_url,thumb_256_url,captured_at,compass_angle,is_pano".

(** ** Providers *)

(** The [for (const radius of radii)] loop of [findNearestImagery], the
    same in both providers; [queryImagery] is [this.queryImagery]. *)
Section ProgressiveSearch.
Variables E R : Type.
Variable queryImagery : LngLatLike -> number -> Async E R (option ImageryResult).

Fixpoint findNearestImagery_loop (lngLat : LngLatLike) (maxRadius : number)
         (radii : list number) : Async E R (option ImageryResult) :=
  match radii with
  | [] => Return None
  | radius :: radii' =>
      if num_gt radius maxRadius then Return None (* break *)
      else
        result <- queryImagery lngLat radius ;;
        match result with
        | Some r => Return (Some r)
        | None => findNearestImagery_loop lngLat maxRadius radii'
        end
  end.
End ProgressiveSearch.

(** [r => r <= maxRadius || r === 50] *)
Definition radius_allowed (maxRadius r : number) : bool :=
  num_le r maxRadius || num_eq r (num 50).

Module GoogleStreetViewProvider.

(** The JSON body of the metadata endpoint; [None] in
    [GoogleStreetViewMetadata_body] is a body without properties to
    read ([null]). *)
Record GoogleStreetViewMetadata : Type := {
  status : string;
  date : option string;
  location : option LngLat;
  pano_id : option string
}.

Definition truthy_string (s : option string) : bool :=
  match s with
  | Some s => negb (String.eqb s "")
  | None => false
  end.

Definition radii : list number := [num 50; num 100; num 200; num 500].

Section Methods.
Variable Number_toString : number -> string.
Variable _apiKey : string.

Definition isConfigured : bool := negb (String.eqb _apiKey "").

(** The part of [queryImagery] after [await fetchJson(url)]; the
    location of the result is made by [new LngLat], which may throw. *)
Definition read_metadata (metadata : option GoogleStreetViewMetadata)
  : Async string (FetchOutcome (option GoogleStreetViewMetadata)) (option ImageryResult) :=
  match metadata with
  | None => Throw (ErrorObject "Cannot read properties of null (reading 'status')")
  | Some metadata =>
      match location metadata, pano_id metadata with
      | Some loc, Some pano =>
          if String.eqb (status metadata) "OK" && negb (String.eqb pano "")
          then
            match new_LngLat (lng loc) (lat loc) with
            | Throws e => Throw (Error_of Number_toString e)
            | Normal location0 =>
                Return (Some
                  {| ImageryResult.id := pano;
                     ImageryResult.location := location0;
                     ImageryResult.provider := google;
                     ImageryResult.capturedAt :=
                       (if truthy_string (date metadata)
                        then option_map DateOfString (date metadata) else None);
                     ImageryResult.thumbnailUrl := None;
                     ImageryResult.heading := None;
                     ImageryResult.isPano := Some true |})
            end
          else Return None
      | _, _ => Return None
      end
  end.

(** The [try] block of [queryImagery], at the converted point. *)
Definition query_at (point : LngLat) (radius : number)
  : Async string (FetchOutcome (option GoogleStreetViewMetadata)) (option ImageryResult) :=
  let url := buildUrl Number_toString GOOGLE_API_METADATA_URL
               [("location", PString (Number_toString (lat point) ++ ","
                                      ++ Number_toString (lng point)));
                ("radius", PNumber radius);
                ("key", PString _apiKey)] in
  metadata <- fetchJson Number_toString url ;;
  read_metadata metadata.

(** [toLngLat] stands before the [try]: what it throws rejects the
    promise. *)
Definition queryImagery (lngLat : LngLatLike) (radius : number)
  : Async string (FetchOutcome (option GoogleStreetViewMetadata)) (option ImageryResult) :=
  if negb isConfigured then Return None
  else
    match toLngLat lngLat with
    | Throws e => Throw (Error_of Number_toString e)
    | Normal point =>
        try_catch (query_at point radius)
                  (fun error => (* console.error *) Return None)
    end.

Definition findNearestImagery (lngLat : LngLatLike) (maxRadius : number)
  : Async string (FetchOutcome (option GoogleStreetViewMetadata)) (option ImageryResult) :=
  findNearestImagery_loop queryImagery lngLat maxRadius
    (filter (radius_allowed maxRadius) radii).
End Methods.
End GoogleStreetViewProvider.

Module MapillaryProvider.

Record MapillaryImage : Type := {
  id : string;
  computed_geometry : option (number * number);
  thumb_1024_url : option string;
  thumb_256_url : option string;
  captured_at : option number;
  compass_angle : option number;
  is_pano : option bool
}.

(** The JSON body of the images endpoint: [data] may be missing. *)
Record MapillaryImageResponse : Type := { data : option (list MapillaryImage) }.

Definition radii : list number := [num 50; num 100; num 250; num 500].

(** [a || b] on optional strings. *)
Definition or_string (a b : option string) : option string :=
  match a with
  | Some s => if String.eqb s "" then b else a
  | None => b
  end.

(** The result for an image at the location [location0]. *)
Definition imagery_at (image : MapillaryImage) (location0 : LngLat) : ImageryResult :=
  {| ImageryResult.id := id image;
     ImageryResult.location := location0;
     ImageryResult.provider := mapillary;
     ImageryResult.thumbnailUrl := or_string (thumb_256_url image) (thumb_1024_url image);
     ImageryResult.capturedAt :=
       match captured_at image with
       | Some n => if num_truthy n then Some (DateOfNumber n) else None
       | None => None
       end;
     ImageryResult.heading := compass_angle image;
     ImageryResult.isPano := is_pano image |}.

(** [mapillaryToImagery]: the location is made by [new LngLat(lng, lat)]
    from the coordinates of the geometry, and that may throw. *)
Definition mapillaryToImagery (image : MapillaryImage) (coordinates : number * number)
  : Completion ImageryResult :=
  let '(lng0, lat0) := coordinates in
  match new_LngLat lng0 lat0 with
  | Throws e => Throws e
  | Normal location0 => Normal (imagery_at image location0)
  end.

(** [.filter(img => Boolean(img.computed_geometry)).map(mapillaryToImagery)]:
    the first image whose conversion throws ends the [map]. *)
Fixpoint imageryResults (images : list MapillaryImage) : Completion (list ImageryResult) :=
  match images with
  | [] => Normal []
  | img :: images' =>
      match computed_geometry img with
      | Some c =>
          match mapillaryToImagery img c with
          | Throws e => Throws e
          | Normal result =>
              match imageryResults images' with
              | Throws e => Throws e
              | Normal results => Normal (result :: results)
              end
          end
      | None => imageryResults images'
      end
  end.

Section Methods.
Variable Number_toString : number -> string.
Variable M : Math.
(** [bboxToString(createBbox(point, radius))] of [geo.ts]: the corner
    coordinates are computed with [Math.cos] and printed by the
    platform; the text is not looked at here. *)
Variable bbox_param : LngLat -> number -> string.
Variable _accessToken : string.

Definition isConfigured : bool := negb (String.eqb _accessToken "").

(** A synchronous call inside an [async] function. *)
Definition completed {A : Type} (r : Completion A)
  : Async string (FetchOutcome (option MapillaryImageResponse)) A :=
  match r with
  | Normal a => Return a
  | Throws e => Throw (Error_of Number_toString e)
  end.

(** The part of [queryImagery] after [await fetchJson(url)]. *)
Definition read_response (point : LngLat) (response : option MapillaryImageResponse)
  : Async string (FetchOutcome (option MapillaryImageResponse)) (option ImageryResult) :=
  match response with
  | None => Throw (ErrorObject "Cannot read properties of null (reading 'data')")
  | Some response =>
      match data response with
      | None | Some [] => Return None
      | Some images =>
          results <- completed (imageryResults images) ;;
          completed (findClosestPoint ImageryResult.location (calculateDistance M) num_lt
                       (LngLatInstance point) results)
      end
  end.

(** The [try] block of [queryImagery], at the converted point. *)
Definition query_at (point : LngLat) (radius : number)
  : Async string (FetchOutcome (option MapillaryImageResponse)) (option ImageryResult) :=
  let url := buildUrl Number_toString MAPILLARY_API_IMAGES_URL
               [("access_token", PString _accessToken);
                ("bbox", PString (bbox_param point radius));
                ("fields", PString MAPILLARY_IMAGE_FIELDS);
                ("limit", PNumber (num 100))] in
  response <- fetchJson Number_toString url ;;
  read_response point response.

(** [toLngLat] stands before the [try]: what it throws rejects the
    promise. *)
Definition queryImagery (lngLat : LngLatLike) (radius : number)
  : Async string (FetchOutcome (option MapillaryImageResponse)) (option ImageryResult) :=
  if negb isConfigured then Return None
  else
    match toLngLat lngLat with
    | Throws e => Throw (Error_of Number_toString e)
    | Normal point =>
        try_catch (query_at point radius)
                  (fun error => (* console.error *) Return None)
    end.

Definition findNearestImagery (lngLat : LngLatLike) (maxRadius : number)
  : Async string (FetchOutcome (option MapillaryImageResponse)) (option ImageryResult) :=
  findNearestImagery_loop queryImagery lngLat maxRadius
    (filter (radius_allowed maxRadius) radii).
End Methods.
End MapillaryProvider.

(** A provider seen from outside, as [IStreetViewProvider]: a call of
    [queryImagery] is a request whose answer is the settled promise.
    This is the environment against which [findNearestImagery] of either
    provider is observed: the requests of a run are the point queries it
    issued. *)
Record QueryCall : Type := { call_lngLat : LngLatLike; call_radius : number }.

Definition queryImagery_call (lngLat : LngLatLike) (radius : number)
  : Async QueryCall (Settled (option ImageryResult)) (option ImageryResult) :=
  Await {| call_lngLat := lngLat; call_radius := radius |}
        (fun answer =>
           match answer with
           | Fulfilled result => Return result
           | Rejected e => Throw e
           end).

(** [findNearestImagery] with [this.queryImagery] left to the environment. *)
Definition findNearestImagery_of (radii : list number)
           (lngLat : LngLatLike) (maxRadius : number)
  : Async QueryCall (Settled (option ImageryResult)) (option ImageryResult) :=
  findNearestImagery_loop queryImagery_call lngLat maxRadius
    (filter (radius_allowed maxRadius) radii).

(** ** StreetViewControl.ts: state, notifications and components *)

Record StreetViewState : Type := {
  collapsed : bool;
  activeProvider : ProviderType;
  location : option LngLat;
  imagery : option ImageryResult;
  heading : number;
  pitch : number;
  loading : bool;
  error : option string
}.

Inductive StreetViewEvent : Type :=
| ev_collapse
| ev_expand
| ev_statechange
| ev_providerchange
| ev_locationchange
| ev_headingchange
| ev_error
| ev_load.

Definition StreetViewEvent_eqb (a b : StreetViewEvent) : bool :=
  match a, b with
  | ev_collapse, ev_collapse | ev_expand, ev_expand
  | ev_statechange, ev_statechange | ev_providerchange, ev_providerchange
  | ev_locationchange, ev_locationchange | ev_headingchange, ev_headingchange
  | ev_error, ev_error | ev_load, ev_load => true
  | _, _ => false
  end.

Module StreetViewEventData.
Record t : Type := {
  type : StreetViewEvent;
  state : StreetViewState;
  error : option JSError
}.
End StreetViewEventData.
Abbreviation StreetViewEventData := StreetViewEventData.t.

(** A subscribed [StreetViewEventHandler], known by its identity.  What a
    handler does when called is outside the control; the calls made are
    kept, in order, in [notified]. *)
Definition Handler : Type := nat.

(** *** Components, as far as the control drives them *)

(** [Panel]: [show]/[hide] add and remove the [expanded] class. *)
Record Panel : Type := { panel_expanded : bool; panel_positioned : bool }.

Inductive NoDataMode : Type :=
| nd_default
| nd_searching
| nd_notFound
| nd_error (errorMessage : string).

Record NoDataMessage : Type := {
  nd_provider : ProviderType;
  nd_mode : NoDataMode
}.

Record Viewer : Type := {
  _loadingEl : option string;
  _initialEl : bool;
  _currentProvider : option ProviderType;
  rendered : option ImageryResult
}.

Record StreetViewMarker : Type := {
  marker_lngLat : option LngLat;
  marker_onMap : bool;
  marker_heading : number
}.

Module ViewerOps.
Definition clearContent (v : Viewer) : Viewer :=
  {| _loadingEl := None; _initialEl := false;
     _currentProvider := None; rendered := None |}.

Definition showInitialState (v : Viewer) : Viewer :=
  let v := clearContent v in
  {| _loadingEl := _loadingEl v; _initialEl := true;
     _currentProvider := _currentProvider v; rendered := rendered v |}.

Definition showLoading (message : string) (v : Viewer) : Viewer :=
  {| _loadingEl := Some message; _initialEl := _initialEl v;
     _currentProvider := _currentProvider v; rendered := rendered v |}.

Definition displayImagery (provider : ProviderType) (img : ImageryResult)
           (v : Viewer) : Viewer :=
  let v := clearContent v in
  {| _loadingEl := _loadingEl v; _initialEl := _initialEl v;
     _currentProvider := Some provider; rendered := Some img |}.
End ViewerOps.

Module MarkerOps.
Definition setLngLat (l : LngLat) (m : StreetViewMarker) : StreetViewMarker :=
  {| marker_lngLat := Some l; marker_onMap := marker_onMap m;
     marker_heading := marker_heading m |}.

Definition addTo (l : LngLat) (m : StreetViewMarker) : StreetViewMarker :=
  {| marker_lngLat := Some l; marker_onMap := true;
     marker_heading := marker_heading m |}.

Definition remove (m : StreetViewMarker) : StreetViewMarker :=
  {| marker_lngLat := marker_lngLat m; marker_onMap := false;
     marker_heading := marker_heading m |}.

Definition setHeading (h : number) (m : StreetViewMarker) : StreetViewMarker :=
  {| marker_lngLat := marker_lngLat m; marker_onMap := marker_onMap m;
     marker_heading := normalizeHeading h |}.
End MarkerOps.

Module NoDataOps.
Definition set_mode (mode : NoDataMode) (n : NoDataMessage) : NoDataMessage :=
  {| nd_provider := nd_provider n; nd_mode := mode |}.

Definition showSearching := set_mode nd_searching.
Definition showNotFound := set_mode nd_notFound.
Definition showError (errorMessage : string) := set_mode (nd_error errorMessage).
End NoDataOps.

(** The options the control reads after construction. *)
Record StreetViewControlOptions : Type := {
  opt_collapsed : bool;
  defaultProvider : ProviderType;
  googleApiKey : string;
  mapillaryAccessToken : string;
  maxSearchRadius : number;
  clickToView : bool;
  showMarker : bool
}.

(** The fields of the class.  A nullable component is an [option]; [_map]
    and [_button] only say whether the reference is set. *)
Record StreetViewControl : Type := {
  _map : bool;
  _container : option bool;            (* the [active] class *)
  _button : bool;
  _options : StreetViewControlOptions;
  _panel : option Panel;
  _tabs : option ProviderType;         (* the active tab *)
  _viewer : option Viewer;
  _noDataMessage : option NoDataMessage;
  _marker : option StreetViewMarker;
  _googleProvider : option string;     (* the instance, by its key *)
  _mapillaryProvider : option string;
  _state : StreetViewState;
  _eventHandlers : StreetViewEvent -> list Handler;
  notified : list (Handler * StreetViewEventData)
}.

Definition with_state (f : StreetViewState -> StreetViewState)
           (c : StreetViewControl) : StreetViewControl :=
  {| _map := _map c; _container := _container c; _button := _button c;
     _options := _options c; _panel := _panel c; _tabs := _tabs c;
     _viewer := _viewer c; _noDataMessage := _noDataMessage c;
     _marker := _marker c; _googleProvider := _googleProvider c;
     _mapillaryProvider := _mapillaryProvider c;
     _state := f (_state c);
     _eventHandlers := _eventHandlers c; notified := notified c |}.

Definition with_viewer (f : Viewer -> Viewer) (c : StreetViewControl) : StreetViewControl :=
  {| _map := _map c; _container := _container c; _button := _button c;
     _options := _options c; _panel := _panel c; _tabs := _tabs c;
     _viewer := option_map f (_viewer c); _noDataMessage := _noDataMessage c;
     _marker := _marker c; _googleProvider := _googleProvider c;
     _mapillaryProvider := _mapillaryProvider c; _state := _state c;
     _eventHandlers := _eventHandlers c; notified := notified c |}.

Definition with_marker (f : StreetViewMarker -> StreetViewMarker)
           (c : StreetViewControl) : StreetViewControl :=
  {| _map := _map c; _container := _container c; _button := _button c;
     _options := _options c; _panel := _panel c; _tabs := _tabs c;
     _viewer := _viewer c; _noDataMessage := _noDataMessage c;
     _marker := option_map f (_marker c); _googleProvider := _googleProvider c;
     _mapillaryProvider := _mapillaryProvider c; _state := _state c;
     _eventHandlers := _eventHandlers c; notified := notified c |}.

Definition set_noDataMessage (n : option NoDataMessage)
           (c : StreetViewControl) : StreetViewControl :=
  {| _map := _map c; _container := _container c; _button := _button c;
     _options := _options c; _panel := _panel c; _tabs := _tabs c;
     _viewer := _viewer c; _noDataMessage := n;
     _marker := _marker c; _googleProvider := _googleProvider c;
     _mapillaryProvider := _mapillaryProvider c; _state := _state c;
     _eventHandlers := _eventHandlers c; notified := notified c |}.

Definition with_panel (f : Panel -> Panel) (c : StreetViewControl) : StreetViewControl :=
  {| _map := _map c; _container := _container c; _button := _button c;
     _options := _options c; _panel := option_map f (_panel c); _tabs := _tabs c;
     _viewer := _viewer c; _noDataMessage := _noDataMessage c;
     _marker := _marker c; _googleProvider := _googleProvider c;
     _mapillaryProvider := _mapillaryProvider c; _state := _state c;
     _eventHandlers := _eventHandlers c; notified := notified c |}.

Definition with_container (active : bool) (c : StreetViewControl) : StreetViewControl :=
  {| _map := _map c; _container := option_map (fun _ => active) (_container c);
     _button := _button c;
     _options := _options c; _panel := _panel c; _tabs := _tabs c;
     _viewer := _viewer c; _noDataMessage := _noDataMessage c;
     _marker := _marker c; _googleProvider := _googleProvider c;
     _mapillaryProvider := _mapillaryProvider c; _state := _state c;
     _eventHandlers := _eventHandlers c; notified := notified c |}.

Definition with_tabs (provider : ProviderType) (c : StreetViewControl) : StreetViewControl :=
  {| _map := _map c; _container := _container c; _button := _button c;
     _options := _options c; _panel := _panel c;
     _tabs := option_map (fun _ => provider) (_tabs c);
     _viewer := _viewer c; _noDataMessage := _noDataMessage c;
     _marker := _marker c; _googleProvider := _googleProvider c;
     _mapillaryProvider := _mapillaryProvider c; _state := _state c;
     _eventHandlers := _eventHandlers c; notified := notified c |}.

Definition set_eventHandlers (hs : StreetViewEvent -> list Handler)
           (c : StreetViewControl) : StreetViewControl :=
  {| _map := _map c; _container := _container c; _button := _button c;
     _options := _options c; _panel := _panel c; _tabs := _tabs c;
     _viewer := _viewer c; _noDataMessage := _noDataMessage c;
     _marker := _marker c; _googleProvider := _googleProvider c;
     _mapillaryProvider := _mapillaryProvider c; _state := _state c;
     _eventHandlers := hs; notified := notified c |}.

Definition notify (calls : list (Handler * StreetViewEventData))
           (c : StreetViewControl) : StreetViewControl :=
  {| _map := _map c; _container := _container c; _button := _button c;
     _options := _options c; _panel := _panel c; _tabs := _tabs c;
     _viewer := _viewer c; _noDataMessage := _noDataMessage c;
     _marker := _marker c; _googleProvider := _googleProvider c;
     _mapillaryProvider := _mapillaryProvider c; _state := _state c;
     _eventHandlers := _eventHandlers c; notified := notified c ++ calls |}.

(** Assignments to the fields of [this._state]. *)
Definition set_collapsed (b : bool) (s : StreetViewState) : StreetViewState :=
  {| collapsed := b; activeProvider := activeProvider s; location := location s;
     imagery := imagery s; heading := heading s; pitch := pitch s;
     loading := loading s; error := error s |}.

Definition set_activeProvider (p : ProviderType) (s : StreetViewState) : StreetViewState :=
  {| collapsed := collapsed s; activeProvider := p; location := location s;
     imagery := imagery s; heading := heading s; pitch := pitch s;
     loading := loading s; error := error s |}.

Definition set_location (l : option LngLat) (s : StreetViewState) : StreetViewState :=
  {| collapsed := collapsed s; activeProvider := activeProvider s; location := l;
     imagery := imagery s; heading := heading s; pitch := pitch s;
     loading := loading s; error := error s |}.

Definition set_imagery (i : option ImageryResult) (s : StreetViewState) : StreetViewState :=
  {| collapsed := collapsed s; activeProvider := activeProvider s; location := location s;
     imagery := i; heading := heading s; pitch := pitch s;
     loading := loading s; error := error s |}.

Definition set_heading (h : number) (s : StreetViewState) : StreetViewState :=
  {| collapsed := collapsed s; activeProvider := activeProvider s; location := location s;
     imagery := imagery s; heading := h; pitch := pitch s;
     loading := loading s; error := error s |}.

Definition set_loading (b : bool) (s : StreetViewState) : StreetViewState :=
  {| collapsed := collapsed s; activeProvider := activeProvider s; location := location s;
     imagery := imagery s; heading := heading s; pitch := pitch s;
     loading := b; error := error s |}.

Definition set_error (e : option string) (s : StreetViewState) : StreetViewState :=
  {| collapsed := collapsed s; activeProvider := activeProvider s; location := location s;
     imagery := imagery s; heading := heading s; pitch := pitch s;
     loading := loading s; error := e |}.

(** ** StreetViewControl.ts: the methods *)

Definition truthy_string (s : string) : bool := negb (String.eqb s "").

Definition new_StreetViewControl (options : StreetViewControlOptions) : StreetViewControl :=
  {| _map := false; _container := None; _button := false;
     _options := options; _panel := None; _tabs := None;
     _viewer := None; _noDataMessage := None; _marker := None;
     _googleProvider :=
       if truthy_string (googleApiKey options) then Some (googleApiKey options) else None;
     _mapillaryProvider :=
       if truthy_string (mapillaryAccessToken options)
       then Some (mapillaryAccessToken options) else None;
     _state :=
       {| collapsed := opt_collapsed options;
          activeProvider := defaultProvider options;
          location := None; imagery := None;
          heading := num 0; pitch := num 0;
          loading := false; error := None |};
     _eventHandlers := fun _ => [];
     notified := [] |}.

(** [getState]: a copy of the record. *)
Definition getState (c : StreetViewControl) : StreetViewState := _state c.

(** [emit]: every handler subscribed to [event] is called with the event
    data, which carries the state as it is when [emit] is entered. *)
Definition emit (event : StreetViewEvent) (err : option JSError)
           (c : StreetViewControl) : StreetViewControl :=
  let eventData :=
    {| StreetViewEventData.type := event;
       StreetViewEventData.state := getState c;
       StreetViewEventData.error := err |} in
  notify (map (fun handler => (handler, eventData)) (_eventHandlers c event)) c.

(** [on]: [Set.add] keeps a handler once, in insertion order. *)
Definition on (event : StreetViewEvent) (handler : Handler)
           (c : StreetViewControl) : StreetViewControl :=
  set_eventHandlers
    (fun ev =>
       if StreetViewEvent_eqb ev event
       then (if existsb (Nat.eqb handler) (_eventHandlers c ev)
             then _eventHandlers c ev
             else _eventHandlers c ev ++ [handler])
       else _eventHandlers c ev) c.

Definition off (event : StreetViewEvent) (handler : Handler)
           (c : StreetViewControl) : StreetViewControl :=
  set_eventHandlers
    (fun ev =>
       if StreetViewEvent_eqb ev event
       then filter (fun h => negb (Nat.eqb handler h)) (_eventHandlers c ev)
       else _eventHandlers c ev) c.

Definition getCurrentProvider (c : StreetViewControl) : option ProviderType :=
  match activeProvider (_state c) with
  | google => option_map (fun _ => google) (_googleProvider c)
  | mapillary => option_map (fun _ => mapillary) (_mapillaryProvider c)
  end.

Definition updatePanelPosition (c : StreetViewControl) : StreetViewControl :=
  match _panel c with
  | Some _ =>
      if _button c && _map c
      then with_panel (fun p => {| panel_expanded := panel_expanded p;
                                   panel_positioned := true |}) c
      else c
  | None => c
  end.

Definition expand (c : StreetViewControl) : StreetViewControl :=
  if negb (collapsed (_state c)) then c
  else
    let c := with_state (set_collapsed false) c in
    let c := with_panel (fun p => {| panel_expanded := true;
                                     panel_positioned := panel_positioned p |}) c in
    let c := with_container true c in
    let c := updatePanelPosition c in
    let c := emit ev_expand None c in
    emit ev_statechange None c.

Definition collapse (c : StreetViewControl) : StreetViewControl :=
  if collapsed (_state c)
  then
    c
  else
    let c := with_state (set_collapsed true) c in
    let c := with_panel (fun p => {| panel_expanded := false;
                                     panel_positioned := panel_positioned p |}) c in
    let c := with_container false c in
    let c := emit ev_collapse None c in
    emit ev_statechange None c.

Definition toggle (c : StreetViewControl) : StreetViewControl :=
  if collapsed (_state c) then expand c else collapse c.

Definition handleHeadingChange (h : number) (c : StreetViewControl) : StreetViewControl :=
  let c := with_state (set_heading h) c in
  let c := with_marker (MarkerOps.setHeading h) c in
  emit ev_headingchange None c.

Definition showNoData (errorMessage : option string) (c : StreetViewControl)
  : StreetViewControl :=
  match _viewer c with
  | None => c
  | Some _ =>
      let c := with_viewer ViewerOps.clearContent c in
      let n := {| nd_provider := activeProvider (_state c); nd_mode := nd_default |} in
      let n := match errorMessage with
               | Some m => if truthy_string m then NoDataOps.showError m n else n
               | None => n
               end in
      set_noDataMessage (Some n) c
  end.

(** An [async] method of the control suspended at an [await]: what it
    waits for and where it goes on.  The local variables that the rest
    of the method reads ([provider], [location]) are kept with it. *)
Inductive Task : Type :=
| ShowStreetView_queryImagery (provider : ProviderType) (location0 : LngLat)
| ShowStreetView_findNearestImagery (provider : ProviderType) (location0 : LngLat)
                                    (maxRadius : number)
| SearchNearest_findNearestImagery (provider : ProviderType) (location0 : LngLat).

(** [showStreetView] up to [await provider.queryImagery(location)]: the
    control, and the task that is suspended, if any.  When [toLngLat]
    throws, the promise is rejected before the control is touched. *)
Definition showStreetView (lngLat : LngLatLike) (c : StreetViewControl)
  : StreetViewControl * option Task :=
  match toLngLat lngLat with
  | Throws _ => (c, None)
  | Normal location0 =>
      match getCurrentProvider c with
      | None => (showNoData (Some "No street view provider is configured.") c, None)
      | Some provider =>
          let c := with_state (set_location (Some location0)) c in
          let c := with_state (set_loading true) c in
          let c := with_state (set_error None) c in
          let c := emit ev_locationchange None c in
          let c := with_viewer (ViewerOps.showLoading "Loading street view...") c in
          let c := if _map c then with_marker (MarkerOps.addTo location0) c else c in
          (c, Some (ShowStreetView_queryImagery provider location0))
      end
  end.

(** The [if (imagery) { ... }] branch of [showStreetView]. *)
Definition showStreetView_found (provider : ProviderType) (img : ImageryResult)
           (c : StreetViewControl) : StreetViewControl :=
  let c := with_state (set_imagery (Some img)) c in
  let c := with_state (set_loading false) c in
  let c :=
    if _map c then
      let c := with_marker (MarkerOps.setLngLat (ImageryResult.location img)) c in
      match ImageryResult.heading img with
      | Some h => with_marker (MarkerOps.setHeading h) c
      | None => c
      end
    else c in
  let c := with_viewer (ViewerOps.displayImagery provider img) c in
  emit ev_load None c.

(** The [else] branch: no imagery. *)
Definition showStreetView_none (c : StreetViewControl) : StreetViewControl :=
  let c := with_state (set_loading false) c in
  showNoData None c.

(** The [catch (error)] block of [showStreetView]. *)
Definition showStreetView_catch (e : JSError) (c : StreetViewControl) : StreetViewControl :=
  let c := with_state (set_loading false) c in
  let c := with_state (set_error (Some (error_message_or "Unknown error" e))) c in
  let c := showNoData (error (_state c)) c in
  emit ev_error (Some (as_Error e)) c.

(** [searchNearest] up to its [await]. *)
Definition searchNearest (c : StreetViewControl) : StreetViewControl * option Task :=
  match location (_state c) with
  | None => (c, None)
  | Some location0 =>
      match getCurrentProvider c with
      | None => (c, None)
      | Some provider =>
          let c := set_noDataMessage
                     (option_map NoDataOps.showSearching (_noDataMessage c)) c in
          (c, Some (SearchNearest_findNearestImagery provider location0))
      end
  end.

Definition searchNearest_found (provider : ProviderType) (img : ImageryResult)
           (c : StreetViewControl) : StreetViewControl :=
  let c := with_state (set_imagery (Some img)) c in
  let c :=
    if _map c then
      let c := with_marker (MarkerOps.setLngLat (ImageryResult.location img)) c in
      match ImageryResult.heading img with
      | Some h => with_marker (MarkerOps.setHeading h) c
      | None => c
      end
    else c in
  let c := set_noDataMessage None c in
  let c := with_viewer (ViewerOps.displayImagery provider img) c in
  emit ev_load None c.

(** The rest of an [async] method once the awaited promise has settled:
    the control as it is then, and the answer. *)
Definition resume (t : Task) (answer : Settled (option ImageryResult))
           (c : StreetViewControl) : StreetViewControl * option Task :=
  match t with
  | ShowStreetView_queryImagery provider location0 =>
      match answer with
      | Fulfilled (Some img) =>
          (emit ev_statechange None (showStreetView_found provider img c), None)
      | Fulfilled None =>
          (* If no imagery, search nearby *)
          let c := with_viewer (ViewerOps.showLoading "Searching nearby...") c in
          (c, Some (ShowStreetView_findNearestImagery provider location0
                      (maxSearchRadius (_options c))))
      | Rejected e =>
          (emit ev_statechange None (showStreetView_catch e c), None)
      end
  | ShowStreetView_findNearestImagery provider location0 _ =>
      match answer with
      | Fulfilled (Some img) =>
          (emit ev_statechange None (showStreetView_found provider img c), None)
      | Fulfilled None =>
          (emit ev_statechange None (showStreetView_none c), None)
      | Rejected e =>
          (emit ev_statechange None (showStreetView_catch e c), None)
      end
  | SearchNearest_findNearestImagery provider location0 =>
      let c :=
        match answer with
        | Fulfilled (Some img) => searchNearest_found provider img c
        | Fulfilled None =>
            set_noDataMessage (option_map NoDataOps.showNotFound (_noDataMessage c)) c
        | Rejected e =>
            set_noDataMessage
              (option_map (NoDataOps.showError (error_message_or "Search failed" e))
                          (_noDataMessage c)) c
        end in
      (emit ev_statechange None c, None)
  end.

Definition clearStreetView (c : StreetViewControl) : StreetViewControl :=
  let c := with_state (set_location None) c in
  let c := with_state (set_imagery None) c in
  let c := with_state (set_heading (num 0)) c in
  let c := with_state (set_error None) c in
  let c := with_viewer ViewerOps.showInitialState c in
  let c := with_marker MarkerOps.remove c in
  let c := set_noDataMessage None c in
  emit ev_statechange None c.

Definition setProvider (provider : ProviderType) (c : StreetViewControl)
  : StreetViewControl * option Task :=
  if ProviderType_eqb (activeProvider (_state c)) provider then (c, None)
  else
    let c := with_state (set_activeProvider provider) c in
    let c := with_tabs provider c in
    (* Re-query if we have a location *)
    let '(c, t) :=
      match location (_state c) with
      | Some l => showStreetView (LngLatInstance l) c
      | None => (with_viewer ViewerOps.showInitialState c, None)
      end in
    let c := emit ev_providerchange None c in
    (emit ev_statechange None c, t).

Definition handleMapClick (lngLat : LngLat) (c : StreetViewControl)
  : StreetViewControl * option Task :=
  if collapsed (_state c) then (c, None)
  else showStreetView (LngLatInstance lngLat) c.

(** [onAdd]: the components are created; [expand] is called when the
    control starts expanded. *)
Definition onAdd (c : StreetViewControl) : StreetViewControl :=
  let c :=
    {| _map := true; _container := Some false; _button := true;
       _options := _options c;
       _panel := Some {| panel_expanded := false; panel_positioned := false |};
       _tabs := Some (activeProvider (_state c));
       _viewer := Some (ViewerOps.showInitialState
                          {| _loadingEl := None; _initialEl := false;
                             _currentProvider := None; rendered := None |});
       _noDataMessage := _noDataMessage c; _marker := _marker c;
       _googleProvider := _googleProvider c;
       _mapillaryProvider := _mapillaryProvider c; _state := _state c;
       _eventHandlers := _eventHandlers c; notified := notified c |} in
  let c := if negb (collapsed (_state c)) then expand c else c in
  if showMarker (_options c)
  then {| _map := _map c; _container := _container c; _button := _button c;
          _options := _options c; _panel := _panel c; _tabs := _tabs c;
          _viewer := _viewer c; _noDataMessage := _noDataMessage c;
          _marker := Some {| marker_lngLat := None; marker_onMap := false;
                             marker_heading := num 0 |};
          _googleProvider := _googleProvider c;
          _mapillaryProvider := _mapillaryProvider c; _state := _state c;
          _eventHandlers := _eventHandlers c; notified := notified c |}
  else c.

Definition onRemove (c : StreetViewControl) : StreetViewControl :=
  {| _map := false; _container := None; _button := false;
     _options := _options c; _panel := None; _tabs := None;
     _viewer := None; _noDataMessage := None; _marker := None;
     _googleProvider := _googleProvider c;
     _mapillaryProvider := _mapillaryProvider c; _state := _state c;
     _eventHandlers := fun _ => []; notified := notified c |}.

(** *** Subscribers that throw

    [emit] calls the handlers in a [for...of] loop without a [try]: a
    handler that throws ends the loop, and the exception leaves [emit]
    and the method that called it, up to the nearest [try].  The methods
    above are the control with subscribers that return.  The lookup is
    given here with subscribers that may throw: [raises h d] is what the
    handler [h] throws when it is called with the data [d], if it
    throws.  The components (viewer, marker, message) are taken not to
    throw. *)

(** How a run of an [async] method ends, from its call or from the
    settling of the promise it awaited: it is suspended at its next
    [await], it has returned (the promise is fulfilled), or it has thrown
    (the promise is rejected). *)
Inductive Progress : Type :=
| Suspended (t : Task)
| Returned
| Thrown (e : JSError).

Definition task_of (p : Progress) : option Task :=
  match p with
  | Suspended t => Some t
  | Returned | Thrown _ => None
  end.

(** The assignments of the [if (imagery)] branch, before [emit('load')]. *)
Definition found_update (provider : ProviderType) (img : ImageryResult)
           (c : StreetViewControl) : StreetViewControl :=
  let c := with_state (set_imagery (Some img)) c in
  let c := with_state (set_loading false) c in
  let c :=
    if _map c then
      let c := with_marker (MarkerOps.setLngLat (ImageryResult.location img)) c in
      match ImageryResult.heading img with
      | Some h => with_marker (MarkerOps.setHeading h) c
      | None => c
      end
    else c in
  with_viewer (ViewerOps.displayImagery provider img) c.

(** The [catch] block, before [emit('error', ...)]. *)
Definition catch_update (e : JSError) (c : StreetViewControl) : StreetViewControl :=
  let c := with_state (set_loading false) c in
  let c := with_state (set_error (Some (error_message_or "Unknown error" e))) c in
  showNoData (error (_state c)) c.

(** The same for [searchNearest]. *)
Definition search_found_update (provider : ProviderType) (img : ImageryResult)
           (c : StreetViewControl) : StreetViewControl :=
  let c := with_state (set_imagery (Some img)) c in
  let c :=
    if _map c then
      let c := with_marker (MarkerOps.setLngLat (ImageryResult.location img)) c in
      match ImageryResult.heading img with
      | Some h => with_marker (MarkerOps.setHeading h) c
      | None => c
      end
    else c in
  let c := set_noDataMessage None c in
  with_viewer (ViewerOps.displayImagery provider img) c.

Definition search_catch (e : JSError) (c : StreetViewControl) : StreetViewControl :=
  set_noDataMessage
    (option_map (NoDataOps.showError (error_message_or "Search failed" e))
                (_noDataMessage c)) c.

Section Subscribers.
Variable Number_toString : number -> string.
Variable raises : Handler -> StreetViewEventData -> option JSError.

(** [for (const handler of handlers) handler(eventData)] *)
Fixpoint call_handlers (handlers : list Handler) (eventData : StreetViewEventData)
  : list (Handler * StreetViewEventData) * option JSError :=
  match handlers with
  | [] => ([], None)
  | handler :: handlers' =>
      match raises handler eventData with
      | Some e => ([(handler, eventData)], Some e)
      | None =>
          let (calls, thrown) := call_handlers handlers' eventData in
          ((handler, eventData) :: calls, thrown)
      end
  end.

Definition emit_raising (event : StreetViewEvent) (err : option JSError)
           (c : StreetViewControl) : StreetViewControl * option JSError :=
  let eventData :=
    {| StreetViewEventData.type := event;
       StreetViewEventData.state := getState c;
       StreetViewEventData.error := err |} in
  let (calls, thrown) := call_handlers (_eventHandlers c event) eventData in
  (notify calls c, thrown).

(** [showStreetView] up to its first [await]. *)
Definition showStreetView_raising (lngLat : LngLatLike) (c : StreetViewControl)
  : StreetViewControl * Progress :=
  match toLngLat lngLat with
  | Throws e => (c, Thrown (Error_of Number_toString e))
  | Normal location0 =>
      match getCurrentProvider c with
      | None => (showNoData (Some "No street view provider is configured.") c, Returned)
      | Some provider =>
          let c := with_state (set_location (Some location0)) c in
          let c := with_state (set_loading true) c in
          let c := with_state (set_error None) c in
          match emit_raising ev_locationchange None c with
          | (c, Some e) => (c, Thrown e)
          | (c, None) =>
              let c := with_viewer (ViewerOps.showLoading "Loading street view...") c in
              let c := if _map c then with_marker (MarkerOps.addTo location0) c else c in
              (c, Suspended (ShowStreetView_queryImagery provider location0))
          end
      end
  end.

(** [this.emit('statechange')] at the end of the method. *)
Definition finish (c : StreetViewControl) : StreetViewControl * Progress :=
  match emit_raising ev_statechange None c with
  | (c, Some e) => (c, Thrown e)
  | (c, None) => (c, Returned)
  end.

(** The [catch] block of [showStreetView] and what follows it. *)
Definition catch_raising (e : JSError) (c : StreetViewControl)
  : StreetViewControl * Progress :=
  let c := catch_update e c in
  match emit_raising ev_error (Some (as_Error e)) c with
  | (c, Some e') => (c, Thrown e')
  | (c, None) => finish c
  end.

(** The [if (imagery)] branch inside the [try]: what [emit('load')]
    throws is caught. *)
Definition found_raising (provider : ProviderType) (img : ImageryResult)
           (c : StreetViewControl) : StreetViewControl * Progress :=
  match emit_raising ev_load None (found_update provider img c) with
  | (c, Some e) => catch_raising e c
  | (c, None) => finish c
  end.

(** The rest of [showStreetView] once the awaited promise has settled. *)
Definition resume_raising (t : Task) (answer : Settled (option ImageryResult))
           (c : StreetViewControl) : StreetViewControl * Progress :=
  match t with
  | ShowStreetView_queryImagery provider location0 =>
      match answer with
      | Fulfilled (Some img) => found_raising provider img c
      | Fulfilled None =>
          let c := with_viewer (ViewerOps.showLoading "Searching nearby...") c in
          (c, Suspended (ShowStreetView_findNearestImagery provider location0
                           (maxSearchRadius (_options c))))
      | Rejected e => catch_raising e c
      end
  | ShowStreetView_findNearestImagery provider location0 _ =>
      match answer with
      | Fulfilled (Some img) => found_raising provider img c
      | Fulfilled None => finish (showStreetView_none c)
      | Rejected e => catch_raising e c
      end
  | SearchNearest_findNearestImagery provider location0 =>
      match answer with
      | Fulfilled (Some img) =>
          match emit_raising ev_load None (search_found_update provider img c) with
          | (c, Some e) => finish (search_catch e c)
          | (c, None) => finish c
          end
      | Fulfilled None =>
          finish (set_noDataMessage
                    (option_map NoDataOps.showNotFound (_noDataMessage c)) c)
      | Rejected e => finish (search_catch e c)
      end
  end.
End Subscribers.

(** Subscribers that return. *)
Definition quiet : Handler -> StreetViewEventData -> option JSError := fun _ _ => None.

(** ** The control in its event loop

    Between two turns of the event loop the control is at rest and some
    of its [async] methods are suspended.  A turn runs one entry point to
    its end or to its next [await]: a call of the public interface, a map
    click, a callback of the viewer, or the settling of an awaited
    promise, with whatever answer the provider gives. *)

Record System : Type := { control : StreetViewControl; inflight : list Task }.

Inductive Action : Type :=
| act_onAdd
| act_onRemove
| act_on (event : StreetViewEvent) (handler : Handler)
| act_off (event : StreetViewEvent) (handler : Handler)
| act_mapClick (lngLat : LngLat)
| act_showStreetView (lngLat : LngLatLike)
| act_clearStreetView
| act_setProvider (provider : ProviderType)
| act_expand
| act_collapse
| act_toggle
| act_headingChange (h : number)
| act_searchNearest
| act_settle (i : nat) (answer : Settled (option ImageryResult)).

Definition suspended (t : option Task) : list Task :=
  match t with
  | Some t => [t]
  | None => []
  end.

Definition started (r : StreetViewControl * option Task) (ts : list Task) : System :=
  {| control := fst r; inflight := ts ++ suspended (snd r) |}.

Definition step (s : System) (a : Action) : System :=
  let c := control s in
  let ts := inflight s in
  match a with
  | act_onAdd => {| control := onAdd c; inflight := ts |}
  | act_onRemove => {| control := onRemove c; inflight := ts |}
  | act_on event handler => {| control := on event handler c; inflight := ts |}
  | act_off event handler => {| control := off event handler c; inflight := ts |}
  | act_mapClick lngLat =>
      if _map c && clickToView (_options c)
      then started (handleMapClick lngLat c) ts
      else s
  | act_showStreetView lngLat => started (showStreetView lngLat c) ts
  | act_clearStreetView => {| control := clearStreetView c; inflight := ts |}
  | act_setProvider provider => started (setProvider provider c) ts
  | act_expand => {| control := expand c; inflight := ts |}
  | act_collapse => {| control := collapse c; inflight := ts |}
  | act_toggle => {| control := toggle c; inflight := ts |}
  | act_headingChange h => {| control := handleHeadingChange h c; inflight := ts |}
  | act_searchNearest =>
      match _noDataMessage c with
      | Some _ => started (searchNearest c) ts
      | None => s
      end
  | act_settle i answer =>
      match nth_error ts i with
      | None => s
      | Some t =>
          let r := resume t answer c in
          {| control := fst r;
             inflight := firstn i ts ++ suspended (snd r) ++ skipn (S i) ts |}
      end
  end.

Definition initial (options : StreetViewControlOptions) : System :=
  {| control := new_StreetViewControl options; inflight := [] |}.

Inductive reachable : System -> Prop :=
| reachable_initial options : reachable (initial options)
| reachable_step s a : reachable s -> reachable (step s a).

(** A lookup of [showStreetView] that has not settled yet. *)
Definition is_lookup (t : Task) : bool :=
  match t with
  | ShowStreetView_queryImagery _ _ => true
  | ShowStreetView_findNearestImagery _ _ _ => true
  | SearchNearest_findNearestImagery _ _ => false
  end.

Definition lookup_in_flight (s : System) : bool := existsb is_lookup (inflight s).

(** The calls that an [emit(event)] entered in state [c] makes. *)
Definition broadcast (event : StreetViewEvent) (err : option JSError)
           (c : StreetViewControl) : list (Handler * StreetViewEventData) :=
  map (fun handler =>
         (handler,
          {| StreetViewEventData.type := event;
             StreetViewEventData.state := _state c;
             StreetViewEventData.error := err |}))
      (_eventHandlers c event).

(** After the operation that led from [c] to [c'], the last thing done
    was to notify the subscribers of [statechange] of the final state. *)
Definition ends_with_statechange (c c' : StreetViewControl) : Prop :=
  exists before,
    notified c' = notified c ++ before ++ broadcast ev_statechange None c'.

(** The events named in the calls made from [c] to [c']. *)
Definition events_of (calls : list (Handler * StreetViewEventData)) : list StreetViewEvent :=
  map (fun call => StreetViewEventData.type (snd call)) calls.

(** The data-state fields of the record: everything but [collapsed]. *)
Definition same_data_state (s s' : StreetViewState) : Prop :=
  activeProvider s' = activeProvider s /\
  location s' = location s /\
  imagery s' = imagery s /\
  heading s' = heading s /\
  pitch s' = pitch s /\
  loading s' = loading s /\
  error s' = error s.

(** ** The vocabulary of the statements

    Predicates, measures and sample inputs that the theorems of Part II
    are stated with. *)

(** [0 <= x < 360] on numbers. *)
Definition in_heading_range (x : number) : bool :=
  num_le (num 0) x && num_lt x (num 360).

(** The heading [-2^-70] (about -8.47e-22), a binary64 number. *)
Definition tiny_negative_heading : number :=
  S754_finite true 4503599627370496 (-122).

(** The place of a number in the order of [<]: its class (negative
    infinity, negative, zero, positive, positive infinity), then its
    exponent and mantissa, both counted downwards for a negative number. *)
Definition order_key (x : number) : Z * Z * Z :=
  match x with
  | S754_infinity true => (-2, 0, 0)
  | S754_finite true m e => (-1, - e, - Zpos m)
  | S754_zero _ | S754_nan => (0, 0, 0)
  | S754_finite false m e => (1, e, Zpos m)
  | S754_infinity false => (2, 0, 0)
  end.

Definition key_lt (a b : Z * Z * Z) : Prop :=
  let '(ca, ea, ma) := a in
  let '(cb, eb, mb) := b in
  ca < cb \/ (ca = cb /\ (ea < eb \/ (ea = eb /\ ma < mb))).

(** A stand-in for a platform, to run the formulas: its approximations
    are crude, and right at the arguments [sqrt 1] and [atan2 0 1]. *)
Definition crude_Math : Math :=
  {| approx_sin := fun x => x;
     approx_cos := fun _ => num 1;
     approx_sqrt := fun x => x;
     approx_atan2 := fun y _ => y |}.

(** Two points on the equator, at the longitudes [-2^1023] and [2^1023]
    (about 8.99e307): binary64 numbers that [new LngLat] accepts, and
    whose difference is not a binary64 number. *)
Definition far_west : LngLat :=
  {| lng := S754_finite true 4503599627370496 971; lat := num 0 |}.
Definition far_east : LngLat :=
  {| lng := S754_finite false 4503599627370496 971; lat := num 0 |}.

(** A distance that can be computed, to run the scan: the squared
    difference of the exponents of the longitudes, in [Z]. *)
Definition toy_distance (from to : LngLatLike) : Completion Z :=
  match toLngLat from, toLngLat to with
  | Normal p1, Normal p2 =>
      match lng p1, lng p2 with
      | S754_finite _ _ e1, S754_finite _ _ e2 => Normal ((e1 - e2) * (e1 - e2))
      | _, _ => Normal 0
      end
  | Throws e, _ | _, Throws e => Throws e
  end.

(** Strictly ascending, by [<] on numbers. *)
Definition queries_ascending (rs : list number) : Prop :=
  StronglySorted (fun a b => num_lt a b = true) rs.

(** The radii of the sequence that do not exceed [maxRadius]. *)
Definition within (maxRadius : number) (radii : list number) : list number :=
  filter (fun r => num_le r maxRadius) radii.

(** The first [i] point queries were all answered with null. *)
Definition nulls_before (answers : list (Settled (option ImageryResult))) (i : nat)
  : Prop :=
  forall j, (j < i)%nat -> nth_error answers j = Some (Fulfilled None).

(** What a run of the progressive search over the sequence [radii] does,
    whatever the provider answers.  What it never does:
    - the radii queried are, in order, the first ones of the radii the
      filter lets through, a strictly ascending sequence;
    - every query is made at the target location, with a radius that
      does not exceed [maxRadius];
    - a query answered with imagery is the last one issued, and its
      imagery is the result; imagery is returned in no other way;
    - below the smallest radius, [50], nothing is queried and the result
      is null.
    What it does:
    - when [50] is within [maxRadius], the first query is the one at
      [50];
    - as long as the answers are null, the next radius within
      [maxRadius] is queried;
    - the first answer that is not null, at a radius within [maxRadius],
      is the result, and the query that gave it is the last;
    - when all radii within [maxRadius] were answered with null, they
      were all queried and the result is null. *)
Definition progressive_search_spec (radii : list number) : Prop :=
  forall (lngLat : LngLatLike) (maxRadius : number)
         (answers : list (Settled (option ImageryResult))),
    let outcome := fst (run (findNearestImagery_of radii lngLat maxRadius) answers) in
    let issued := snd (run (findNearestImagery_of radii lngLat maxRadius) answers) in
    let wanted := within maxRadius radii in
    (exists rest,
        filter (radius_allowed maxRadius) radii = map call_radius issued ++ rest) /\
    queries_ascending (map call_radius issued) /\
    Forall (fun q => call_lngLat q = lngLat /\
                     num_gt (call_radius q) maxRadius = false) issued /\
    (forall i img,
        nth_error answers i = Some (Fulfilled (Some img)) ->
        (i < List.length issued)%nat ->
        S i = List.length issued /\ outcome = Resolved (Some img)) /\
    (forall img,
        outcome = Resolved (Some img) ->
        exists i, S i = List.length issued /\
                  nth_error answers i = Some (Fulfilled (Some img))) /\
    (num_lt maxRadius (num 50) = true -> issued = [] /\ outcome = Resolved None) /\
    (num_le (num 50) maxRadius = true ->
     exists more, map call_radius issued = num 50 :: more) /\
    (forall i r,
        nth_error wanted i = Some r ->
        nulls_before answers i ->
        nth_error (map call_radius issued) i = Some r) /\
    (forall i img,
        (i < List.length wanted)%nat ->
        nulls_before answers i ->
        nth_error answers i = Some (Fulfilled (Some img)) ->
        outcome = Resolved (Some img) /\ List.length issued = S i) /\
    (is_nan maxRadius = false ->
     nulls_before answers (List.length wanted) ->
     outcome = Resolved None /\ map call_radius issued = wanted).

(** The request failed: [fetch] rejected, the status is not OK, or the
    body could not be parsed. *)
Definition request_failed {T : Type} (response : FetchOutcome T) : bool :=
  match response with
  | FetchRejects _ => true
  | FetchResponse ok _ json =>
      negb ok || match json with Rejected _ => true | Fulfilled _ => false end
  end.

(** What a point query [q] does, whatever the network answers:
    - its promise is never rejected;
    - when the request failed it resolves with null;
    - a completed request answered with the body [no_coverage] resolves
      with null too, so the two cannot be told apart by the result;
    - it makes at most one request. *)
Definition point_query_spec {T : Type}
           (q : Async string (FetchOutcome T) (option ImageryResult))
           (no_coverage : T) : Prop :=
  (forall answers e, fst (run q answers) <> RejectedWith e) /\
  (forall response rest,
      request_failed response = true ->
      fst (run q (response :: rest)) = Resolved None) /\
  (forall status rest,
      fst (run q (FetchResponse true status (Fulfilled no_coverage) :: rest))
      = Resolved None) /\
  (forall answers, (List.length (snd (run q answers)) <= 1)%nat).

(** The URL of the Google point query at [point] with [radius]. *)
Definition google_metadata_url (Number_toString : number -> string) (key : string)
           (point : LngLat) (radius : number) : string :=
  buildUrl Number_toString GOOGLE_API_METADATA_URL
    [("location", PString (Number_toString (lat point) ++ ","
                           ++ Number_toString (lng point)));
     ("radius", PNumber radius);
     ("key", PString key)].

(** The URL of the Mapillary point query at [point] with [radius]. *)
Definition mapillary_images_url (Number_toString : number -> string)
           (bbox_param : LngLat -> number -> string) (key : string)
           (point : LngLat) (radius : number) : string :=
  buildUrl Number_toString MAPILLARY_API_IMAGES_URL
    [("access_token", PString key);
     ("bbox", PString (bbox_param point radius));
     ("fields", PString MAPILLARY_IMAGE_FIELDS);
     ("limit", PNumber (num 100))].

(** What a point query resolves with when its request is answered by [a]. *)
Definition answer_of {E R : Type} (q : Async E R (option ImageryResult)) (a : R)
  : option ImageryResult :=
  match fst (run q [a]) with
  | Resolved x => x
  | _ => None
  end.

(** A metadata body of a place without coverage. *)
Definition google_zero_results : option GoogleStreetViewProvider.GoogleStreetViewMetadata :=
  Some {| GoogleStreetViewProvider.status := "ZERO_RESULTS";
          GoogleStreetViewProvider.date := None;
          GoogleStreetViewProvider.location := None;
          GoogleStreetViewProvider.pano_id := None |}.

(** An images body without images. *)
Definition mapillary_no_images : option MapillaryProvider.MapillaryImageResponse :=
  Some {| MapillaryProvider.data := Some [] |}.

Fixpoint starts_with (p s : string) : bool :=
  match p, s with
  | EmptyString, _ => true
  | String a p', String b s' => Ascii.eqb a b && starts_with p' s'
  | String _ _, EmptyString => false
  end.

(** [s.includes(x)], as [toContain] tests it. *)
Fixpoint contains (x s : string) : bool :=
  starts_with x s ||
  match s with
  | EmptyString => false
  | String _ s' => contains x s'
  end.

Fixpoint all_unreserved (s : string) : bool :=
  match s with
  | EmptyString => true
  | String c s' => is_unreserved c && all_unreserved s'
  end.

Fixpoint distinct_keys (keys : list string) : bool :=
  match keys with
  | [] => true
  | k :: keys' => negb (existsb (String.eqb k) keys') && distinct_keys keys'
  end.

(** The base URL of the repository's tests. *)
Definition example_api : URL :=
  {| origin_and_path := "https://example.com/api";
     query := None; searchParams := []; hash := None |}.

(** The pairs of a query that have the name [key]. *)
Definition named (key : string) (l : list (string * string)) : list (string * string) :=
  filter (fun kv => String.eqb (fst kv) key) l.

(** A parameter of the record has a value. *)
Definition any_set (params : list (string * ParamValue)) : bool :=
  existsb (fun kv => is_set (snd kv)) params.

(** The fragment of a URL, as [toString] writes it. *)
Definition fragment (url : URL) : string :=
  match hash url with
  | None => ""
  | Some f => "#" ++ f
  end.

(** One turn of the loop of [buildUrl], on the list of pairs. *)
Definition set_param (Number_toString : number -> string)
           (l : list (string * string)) (kv : string * ParamValue) :=
  let '(key, value) := kv in
  if is_set value then searchParams_set l key (String_of Number_toString value) else l.

(** The provider [p] has an instance. *)
Definition configured (c : StreetViewControl) (p : ProviderType) : bool :=
  match p with
  | google => match _googleProvider c with Some _ => true | None => false end
  | mapillary => match _mapillaryProvider c with Some _ => true | None => false end
  end.

(** What an entry point that may start an [async] method leaves behind:
    a lookup in flight, or the flag as it was. *)
Definition starts_lookup_or_keeps_loading (c : StreetViewControl)
           (r : StreetViewControl * option Task) : Prop :=
  (exists t, snd r = Some t /\ is_lookup t = true) \/
  loading (_state (fst r)) = loading (_state c).

(** The invariant: while [loading] is set, a lookup is in flight. *)
Definition loading_invariant (s : System) : Prop :=
  loading (_state (control s)) = true -> lookup_in_flight s = true.

Definition example_options : StreetViewControlOptions :=
  {| opt_collapsed := true; defaultProvider := google;
     googleApiKey := "google-key"; mapillaryAccessToken := "mapillary-token";
     maxSearchRadius := num 100; clickToView := true; showMarker := true |}.

(** A control on a map, with handler 1 subscribed to [statechange] and
    handler 2 to [headingchange]. *)
Definition example_control : StreetViewControl :=
  on ev_headingchange 2%nat
     (on ev_statechange 1%nat (onAdd (new_StreetViewControl example_options))).

(** The calls made up to [c] are still there at [c'], in front. *)
Definition extends (c c' : StreetViewControl) : Prop :=
  exists calls, notified c' = notified c ++ calls.

(** A control with a location: [showStreetView] was called at (2, 1) and
    the point query is in flight. *)
Definition example_located : StreetViewControl :=
  fst (showStreetView (LngLatArray (num 2) (num 1)) (expand example_control)).


(** [example_control] with handler 3 subscribed to [locationchange]. *)
Definition example_listening : StreetViewControl :=
  on ev_locationchange 3%nat example_control.

(** Handler 3 throws whenever it is called; the others return. *)
Definition failing_subscriber (handler : Handler) (eventData : StreetViewEventData)
  : option JSError :=
  if Nat.eqb handler 3 then Some (ErrorObject "subscriber failed") else None.

(** The viewer's heading callback, which nothing in the control
    triggers. *)
Definition from_viewer (a : Action) : bool :=
  match a with
  | act_headingChange _ => true
  | _ => false
  end.

(** [showStreetView([2, 1])] on it, up to the [await]. *)
Definition example_lookup : StreetViewControl * option Task :=
  showStreetView (LngLatArray (num 2) (num 1)) example_listening.

(** What the start of a lookup leaves behind: the point query in flight
    and the subscribers of [locationchange] notified, nobody else. *)
Definition lookup_started (s s' : System) : Prop :=
  exists provider location0,
    inflight s' = inflight s ++ [ShowStreetView_queryImagery provider location0] /\
    location (_state (control s')) = Some location0 /\
    loading (_state (control s')) = true /\
    notified (control s')
    = notified (control s) ++ broadcast ev_locationchange None (control s').

(** An image as a provider returns it. *)
Definition sample_imagery : ImageryResult :=
  {| ImageryResult.id := "pano-1";
     ImageryResult.location := {| lng := num 2; lat := num 1 |};
     ImageryResult.capturedAt := None;
     ImageryResult.thumbnailUrl := None;
     ImageryResult.provider := mapillary;
     ImageryResult.heading := Some (num 450);
     ImageryResult.isPano := Some true |}.

(** ** helpers.ts: [clamp]

    [Math.max] and [Math.min] of ECMAScript: NaN when an argument is NaN;
    [+0] counts as larger than [-0]. *)

Definition Math_max (a b : number) : number :=
  match a, b with
  | S754_nan, _ | _, S754_nan => S754_nan
  | S754_zero sa, S754_zero sb => S754_zero (sa && sb)
  | _, _ => if num_lt a b then b else a
  end.

Definition Math_min (a b : number) : number :=
  match a, b with
  | S754_nan, _ | _, S754_nan => S754_nan
  | S754_zero sa, S754_zero sb => S754_zero (sa || sb)
  | _, _ => if num_lt b a then b else a
  end.

Definition clamp (value min max : number) : number :=
  Math_min (Math_max value min) max.

(** ** helpers.ts: [debounce] and [throttle]

    Both return a closure over one variable and use the timers of the
    platform.  A timer set with [setTimeout] is pending until it fires or
    is cleared; when it fires, its callback runs once.  The state below is
    the variable of the closure, the pending timers that the closure set
    (with what their callbacks captured), and the calls of [fn] made so
    far.  A timer handle is truthy, as the handles of browsers (positive
    integers) and of Node (objects) are. *)

Section Debounce.
Variable Args : Type.

Record Debounced : Type := {
  timeoutId : option nat;
  debounce_timers : list (nat * Args);
  debounce_next : nat;
  debounce_fn : list Args
}.

Definition debounce : Debounced :=
  {| timeoutId := None; debounce_timers := []; debounce_next := 1;
     debounce_fn := [] |}.

Definition clearTimeout (id : nat) (timers : list (nat * Args)) : list (nat * Args) :=
  filter (fun t => negb (Nat.eqb (fst t) id)) timers.

(** The returned function, called with [args]. *)
Definition debounced_call (args : Args) (d : Debounced) : Debounced :=
  let timers :=
    match timeoutId d with
    | Some id => clearTimeout id (debounce_timers d)
    | None => debounce_timers d
    end in
  {| timeoutId := Some (debounce_next d);
     debounce_timers := timers ++ [(debounce_next d, args)];
     debounce_next := S (debounce_next d);
     debounce_fn := debounce_fn d |}.

(** The timer [id] fires: [fn(...args); timeoutId = null]. *)
Definition debounced_timeout (id : nat) (d : Debounced) : Debounced :=
  match find (fun t => Nat.eqb (fst t) id) (debounce_timers d) with
  | None => d
  | Some (_, args) =>
      {| timeoutId := None;
         debounce_timers := clearTimeout id (debounce_timers d);
         debounce_next := debounce_next d;
         debounce_fn := debounce_fn d ++ [args] |}
  end.

Inductive DebounceEvent : Type :=
| DebouncedCall (args : Args)
| DebounceTimeout (id : nat).

Definition debounce_step (d : Debounced) (ev : DebounceEvent) : Debounced :=
  match ev with
  | DebouncedCall args => debounced_call args d
  | DebounceTimeout id => debounced_timeout id d
  end.

Definition debounce_run (events : list DebounceEvent) (d : Debounced) : Debounced :=
  fold_left debounce_step events d.

(** The arguments of the calls among the events. *)
Fixpoint debounce_calls (events : list DebounceEvent) : list Args :=
  match events with
  | [] => []
  | DebouncedCall args :: events' => args :: debounce_calls events'
  | DebounceTimeout _ :: events' => debounce_calls events'
  end.

(** At most one timer is pending, the one whose handle is in
    [timeoutId]. *)
Definition debounce_invariant (d : Debounced) : Prop :=
  match timeoutId d with
  | None => debounce_timers d = []
  | Some id => exists args, debounce_timers d = [(id, args)]
  end.
End Debounce.

Section Throttle.
Variable Args : Type.

Record Throttled : Type := {
  inThrottle : bool;
  throttle_timers : nat;               (* the timers pending *)
  throttle_fn : list Args
}.

Definition throttle : Throttled :=
  {| inThrottle := false; throttle_timers := 0; throttle_fn := [] |}.

Definition throttled_call (args : Args) (t : Throttled) : Throttled :=
  if negb (inThrottle t)
  then {| inThrottle := true;
          throttle_timers := S (throttle_timers t);
          throttle_fn := throttle_fn t ++ [args] |}
  else t.

(** A pending timer fires: [inThrottle = false]. *)
Definition throttled_timeout (t : Throttled) : Throttled :=
  match throttle_timers t with
  | O => t
  | S n => {| inThrottle := false; throttle_timers := n; throttle_fn := throttle_fn t |}
  end.

Inductive ThrottleEvent : Type :=
| ThrottledCall (args : Args)
| ThrottleTimeout.

Definition throttle_step (t : Throttled) (ev : ThrottleEvent) : Throttled :=
  match ev with
  | ThrottledCall args => throttled_call args t
  | ThrottleTimeout => throttled_timeout t
  end.

Definition throttle_run (events : list ThrottleEvent) (t : Throttled) : Throttled :=
  fold_left throttle_step events t.

Definition is_timeout (ev : ThrottleEvent) : bool :=
  match ev with
  | ThrottleTimeout => true
  | ThrottledCall _ => false
  end.

Fixpoint throttle_calls (events : list ThrottleEvent) : list Args :=
  match events with
  | [] => []
  | ThrottledCall args :: events' => args :: throttle_calls events'
  | ThrottleTimeout :: events' => throttle_calls events'
  end.

(** One timer is pending exactly while [inThrottle] is set. *)
Definition throttle_invariant (t : Throttled) : Prop :=
  throttle_timers t = if inThrottle t then 1%nat else 0%nat.
End Throttle.

(** [l] is [l'] with some elements left out. *)
Inductive sublist (A : Type) : list A -> list A -> Prop :=
| sublist_nil : sublist [] []
| sublist_keep x l l' : sublist l l' -> sublist (x :: l) (x :: l')
| sublist_skip x l l' : sublist l l' -> sublist l (x :: l').

(** ** api.ts: the query that [buildUrl] writes *)

(** The pairs that [buildUrl] sets, in the order of the record: the
    parameters with a value, as text. *)
Definition set_params (Number_toString : number -> string)
           (params : list (string * ParamValue)) : list (string * string) :=
  map (fun kv => (fst kv, String_of Number_toString (snd kv)))
      (filter (fun kv => is_set (snd kv)) params).

(** A base URL that has a query already:
    [new URL("https://example.com/search?q=street%20view#top")]. *)
Definition example_search : URL :=
  {| origin_and_path := "https://example.com/search";
     query := Some "q=street%20view";
     searchParams := [("q", "street view")]; hash := Some "top" |}.

(** ** StreetViewControl.ts: more about the control *)

(** What the constructor fixes: the provider instances and the options. *)
Definition same_setup (c c' : StreetViewControl) : Prop :=
  _googleProvider c' = _googleProvider c /\
  _mapillaryProvider c' = _mapillaryProvider c /\
  _options c' = _options c.

(** The viewer shows the loading element. *)
Definition shows_loading (c : StreetViewControl) : bool :=
  match _viewer c with
  | Some v => match _loadingEl v with Some _ => true | None => false end
  | None => false
  end.

(** The panel is shown. *)
Definition panel_shown (c : StreetViewControl) : option bool :=
  option_map panel_expanded (_panel c).

(** Options of a control that starts expanded. *)
Definition expanded_options : StreetViewControlOptions :=
  {| opt_collapsed := false; defaultProvider := google;
     googleApiKey := "google-key"; mapillaryAccessToken := "";
     maxSearchRadius := num 100; clickToView := true; showMarker := true |}.

(** Options without credentials. *)
Definition bare_options : StreetViewControlOptions :=
  {| opt_collapsed := true; defaultProvider := google;
     googleApiKey := ""; mapillaryAccessToken := "";
     maxSearchRadius := num 100; clickToView := true; showMarker := true |}.

(** The handlers that a list of calls reached. *)
Definition called_handlers (calls : list (Handler * StreetViewEventData)) : list Handler :=
  map fst calls.

(** ** Providers: what a point query reads from an OK response *)

(** An image of the Mapillary answer, with or without geometry. *)
Definition sample_image (name : string) (geometry : option (number * number))
  : MapillaryProvider.MapillaryImage :=
  {| MapillaryProvider.id := name;
     MapillaryProvider.computed_geometry := geometry;
     MapillaryProvider.thumb_1024_url := None;
     MapillaryProvider.thumb_256_url := None;
     MapillaryProvider.captured_at := None;
     MapillaryProvider.compass_angle := None;
     MapillaryProvider.is_pano := None |}.

(** The image has a geometry whose coordinates [new LngLat] accepts, as
    the location [location0]. *)
Definition image_at (image : MapillaryProvider.MapillaryImage) (location0 : LngLat)
  : Prop :=
  exists c, MapillaryProvider.computed_geometry image = Some c /\
            new_LngLat (fst c) (snd c) = Normal location0.

(** The image has a geometry whose coordinates [new LngLat] refuses. *)
Definition image_refused (image : MapillaryProvider.MapillaryImage) : Prop :=
  exists c e, MapillaryProvider.computed_geometry image = Some c /\
              new_LngLat (fst c) (snd c) = Throws e.

(** The panorama that the Google provider reports for a metadata body. *)
Definition google_panorama (pano : string) (loc : LngLat) (date0 : option string)
  : ImageryResult :=
  {| ImageryResult.id := pano;
     ImageryResult.location := loc;
     ImageryResult.provider := google;
     ImageryResult.capturedAt :=
       match date0 with
       | Some d => if String.eqb d "" then None else Some (DateOfString d)
       | None => None
       end;
     ImageryResult.thumbnailUrl := None;
     ImageryResult.heading := None;
     ImageryResult.isPano := Some true |}.

(** ** BaseProvider.ts: the heading callbacks

    A callback is known by its identity; [_headingCallbacks] is a [Set],
    kept in insertion order; the calls made to callbacks are kept in
    [heading_calls]. *)

Module BaseProvider.
Definition HeadingCallback : Type := nat.

Record t : Type := {
  _headingCallbacks : list HeadingCallback;
  _currentHeading : number;
  heading_calls : list (HeadingCallback * number)
}.

Definition new : t :=
  {| _headingCallbacks := []; _currentHeading := num 0; heading_calls := [] |}.

Definition onHeadingChange (callback : HeadingCallback) (b : t) : t :=
  {| _headingCallbacks :=
       if existsb (Nat.eqb callback) (_headingCallbacks b)
       then _headingCallbacks b
       else _headingCallbacks b ++ [callback];
     _currentHeading := _currentHeading b;
     heading_calls := heading_calls b |}.

Definition offHeadingChange (callback : HeadingCallback) (b : t) : t :=
  {| _headingCallbacks :=
       filter (fun cb => negb (Nat.eqb callback cb)) (_headingCallbacks b);
     _currentHeading := _currentHeading b;
     heading_calls := heading_calls b |}.

Definition emitHeadingChange (heading : number) (b : t) : t :=
  {| _headingCallbacks := _headingCallbacks b;
     _currentHeading := heading;
     heading_calls :=
       heading_calls b ++ map (fun callback => (callback, heading)) (_headingCallbacks b) |}.

(** [this._headingCallbacks.clear()] *)
Definition clear (b : t) : t :=
  {| _headingCallbacks := [];
     _currentHeading := _currentHeading b;
     heading_calls := heading_calls b |}.
End BaseProvider.

(** ** GoogleStreetViewProvider.ts: the iframe *)

Definition GOOGLE_API_EMBED_URL : URL :=
  {| origin_and_path := "https://www.google.com/maps/embed/v1/streetview";
     query := None; searchParams := []; hash := None |}.

(** [x !== 0] on numbers: false for [0] and [-0] only. *)
Definition not_zero (x : number) : bool := negb (num_eq x (num 0)).

Module GoogleRender.
Section Methods.
Variable Number_toString : number -> string.
Variable _apiKey : string.

Record t : Type := {
  base : BaseProvider.t;
  _container : bool;                        (* the reference is set *)
  _iframe : option string;                  (* the element, by its [src] *)
  _currentImagery : option ImageryResult;
  _heading : number;
  _pitch : number
}.

Definition new : t :=
  {| base := BaseProvider.new; _container := false; _iframe := None;
     _currentImagery := None; _heading := num 0; _pitch := num 0 |}.

(** The [params] record of [updateIframeSrc] and [generateEmbedUrl]. *)
Definition embed_params (point : LngLat) (heading pitch : number)
  : list (string * ParamValue) :=
  [("key", PString _apiKey);
   ("location", PString (Number_toString (lat point) ++ "," ++ Number_toString (lng point)))]
  ++ (if not_zero heading then [("heading", PNumber heading)] else [])
  ++ (if not_zero pitch then [("pitch", PNumber pitch)] else []).

(** [toLngLat] may throw; the URL is built from the point it returns. *)
Definition generateEmbedUrl (location : LngLatLike) (heading pitch : number)
  : Completion string :=
  match toLngLat location with
  | Throws e => Throws e
  | Normal point =>
      Normal (buildUrl Number_toString GOOGLE_API_EMBED_URL
                (embed_params point heading pitch))
  end.

Definition updateIframeSrc (p : t) : t :=
  match _iframe p, _currentImagery p with
  | Some _, Some imagery =>
      let url := buildUrl Number_toString GOOGLE_API_EMBED_URL
                   (embed_params (ImageryResult.location imagery) (_heading p) (_pitch p)) in
      {| base := base p; _container := _container p; _iframe := Some url;
         _currentImagery := _currentImagery p;
         _heading := _heading p; _pitch := _pitch p |}
  | _, _ => p
  end.

Definition render (imagery : ImageryResult) (p : t) : t :=
  (* the existing iframe is removed and a new one created *)
  updateIframeSrc
    {| base := base p; _container := true; _iframe := Some "";
       _currentImagery := Some imagery;
       _heading := _heading p; _pitch := _pitch p |}.

Definition destroy (p : t) : t :=
  {| base := BaseProvider.clear (base p); _container := false; _iframe := None;
     _currentImagery := None; _heading := _heading p; _pitch := _pitch p |}.

Definition with_base (f : BaseProvider.t -> BaseProvider.t) (p : t) : t :=
  {| base := f (base p); _container := _container p; _iframe := _iframe p;
     _currentImagery := _currentImagery p;
     _heading := _heading p; _pitch := _pitch p |}.

Definition setHeading (heading : number) (p : t) : t :=
  let p := {| base := base p; _container := _container p; _iframe := _iframe p;
              _currentImagery := _currentImagery p;
              _heading := heading; _pitch := _pitch p |} in
  let p := updateIframeSrc p in
  with_base (BaseProvider.emitHeadingChange heading) p.

Definition setPitch (pitch : number) (p : t) : t :=
  let p := {| base := base p; _container := _container p; _iframe := _iframe p;
              _currentImagery := _currentImagery p;
              _heading := _heading p; _pitch := pitch |} in
  updateIframeSrc p.

(** [getViewState]: heading and pitch. *)
Definition getViewState (p : t) : number * number := (_heading p, _pitch p).

(** The calls that reach a provider object. *)
Inductive Call : Type :=
| call_render (imagery : ImageryResult)
| call_destroy
| call_setHeading (heading : number)
| call_setPitch (pitch : number)
| call_onHeadingChange (callback : BaseProvider.HeadingCallback)
| call_offHeadingChange (callback : BaseProvider.HeadingCallback).

Definition call (p : t) (c : Call) : t :=
  match c with
  | call_render imagery => render imagery p
  | call_destroy => destroy p
  | call_setHeading heading => setHeading heading p
  | call_setPitch pitch => setPitch pitch p
  | call_onHeadingChange callback => with_base (BaseProvider.onHeadingChange callback) p
  | call_offHeadingChange callback => with_base (BaseProvider.offHeadingChange callback) p
  end.

Definition calls (cs : list Call) (p : t) : t := fold_left call cs p.

(** The iframe, when there is one, shows the current imagery with the
    current heading and pitch. *)
Definition iframe_in_step (p : t) : Prop :=
  match _iframe p with
  | None => True
  | Some src =>
      exists imagery,
        _currentImagery p = Some imagery /\
        Normal src = generateEmbedUrl (LngLatInstance (ImageryResult.location imagery))
                                      (_heading p) (_pitch p)
  end.
End Methods.
End GoogleRender.

(** ** MapillaryProvider.ts: the MapillaryJS viewer *)

Module MapillaryRender.
Record t : Type := {
  base : BaseProvider.t;
  _container : bool;
  _viewer : option string;                  (* the viewer, by its [imageId] *)
  _viewerContainer : bool
}.

Definition new : t :=
  {| base := BaseProvider.new; _container := false; _viewer := None;
     _viewerContainer := false |}.

Definition destroy (p : t) : t :=
  {| base := BaseProvider.clear (base p); _container := false; _viewer := None;
     _viewerContainer := false |}.

Definition with_base (f : BaseProvider.t -> BaseProvider.t) (p : t) : t :=
  {| base := f (base p); _container := _container p; _viewer := _viewer p;
     _viewerContainer := _viewerContainer p |}.

Definition render (imagery : ImageryResult) (p : t) : t :=
  let p := {| base := base p; _container := true; _viewer := _viewer p;
              _viewerContainer := _viewerContainer p |} in
  (* Clean up existing viewer *)
  let p := destroy p in
  let p := {| base := base p; _container := _container p;
              _viewer := Some (ImageryResult.id imagery);
              _viewerContainer := true |} in
  (* Emit initial heading if available *)
  match ImageryResult.heading imagery with
  | Some heading => with_base (BaseProvider.emitHeadingChange heading) p
  | None => p
  end.

(** The handler of the viewer's [bearing] event; a viewer that was
    removed sends no event. *)
Definition on_bearing (bearing : number) (p : t) : t :=
  match _viewer p with
  | Some _ => with_base (BaseProvider.emitHeadingChange bearing) p
  | None => p
  end.

(** [getViewState]: the cached heading, when there is a viewer. *)
Definition getViewState (p : t) : option number :=
  match _viewer p with
  | Some _ => Some (BaseProvider._currentHeading (base p))
  | None => None
  end.
End MapillaryRender.

(** ** Viewer.ts with its providers

    The viewer and the two provider objects it is handed, which the
    control owns; [_headingCallback] is the one closure of the viewer. *)

Module ViewerComponent.
Section Methods.
Variable Number_toString : number -> string.
Variable _apiKey : string.

Definition _headingCallback : BaseProvider.HeadingCallback := 0%nat.

Record t : Type := {
  viewer : Viewer;
  googleProvider : GoogleRender.t;
  mapillaryProvider : MapillaryRender.t
}.

Definition clearContent (w : t) : t :=
  let w :=
    match _currentProvider (viewer w) with
    | Some google =>
        {| viewer := viewer w;
           googleProvider :=
             GoogleRender.destroy
               (GoogleRender.with_base (BaseProvider.offHeadingChange _headingCallback)
                                       (googleProvider w));
           mapillaryProvider := mapillaryProvider w |}
    | Some mapillary =>
        {| viewer := viewer w;
           googleProvider := googleProvider w;
           mapillaryProvider :=
             MapillaryRender.destroy
               (MapillaryRender.with_base (BaseProvider.offHeadingChange _headingCallback)
                                          (mapillaryProvider w)) |}
    | None => w
    end in
  {| viewer := ViewerOps.clearContent (viewer w);
     googleProvider := googleProvider w;
     mapillaryProvider := mapillaryProvider w |}.

Definition displayImagery (provider : ProviderType) (imagery : ImageryResult) (w : t) : t :=
  let w := clearContent w in
  let v := {| _loadingEl := _loadingEl (viewer w); _initialEl := _initialEl (viewer w);
              _currentProvider := Some provider; rendered := Some imagery |} in
  match provider with
  | google =>
      {| viewer := v;
         googleProvider :=
           GoogleRender.render Number_toString _apiKey imagery
             (GoogleRender.with_base (BaseProvider.onHeadingChange _headingCallback)
                                     (googleProvider w));
         mapillaryProvider := mapillaryProvider w |}
  | mapillary =>
      {| viewer := v;
         googleProvider := googleProvider w;
         mapillaryProvider :=
           MapillaryRender.render imagery
             (MapillaryRender.with_base (BaseProvider.onHeadingChange _headingCallback)
                                        (mapillaryProvider w)) |}
  end.

(** The headings that reached [options.onHeadingChange] (the control's
    [handleHeadingChange]) through the viewer's callback. *)
Definition heard (w : t) : list number :=
  map snd
      (filter (fun c => Nat.eqb (fst c) _headingCallback)
              (BaseProvider.heading_calls (GoogleRender.base (googleProvider w))
               ++ BaseProvider.heading_calls (MapillaryRender.base (mapillaryProvider w)))).
End Methods.
End ViewerComponent.

(** An image with a heading, as Mapillary returns it. *)
Definition sample_mapillary_imagery : ImageryResult :=
  {| ImageryResult.id := "image-1";
     ImageryResult.location := {| lng := num 2; lat := num 1 |};
     ImageryResult.capturedAt := None;
     ImageryResult.thumbnailUrl := None;
     ImageryResult.provider := mapillary;
     ImageryResult.heading := Some (num 90);
     ImageryResult.isPano := Some false |}.

(** ** ProviderTabs.ts

    The two tab buttons, each with its [active] class and its [disabled]
    attribute.  The buttons are created once; the [Map] [_tabs] and the
    click listeners both refer to them.  [_tabs] is given by its keys: it
    has both after the constructor and none after [destroy], while the
    listeners keep their buttons.  The calls of [onSelect] are kept in
    [selected]. *)

Module ProviderTabs.
Record Tab : Type := { tab_active : bool; disabled : bool }.

Record t : Type := {
  _providers : list ProviderType;
  _activeProvider : ProviderType;
  _disabledProviders : list ProviderType;
  buttons : ProviderType -> Tab;
  _tabs : ProviderType -> bool;
  single_provider : bool;
  selected : list ProviderType
}.

Definition includes (provider : ProviderType) (l : list ProviderType) : bool :=
  existsb (ProviderType_eqb provider) l.

Definition createTab (providers disabledProviders : list ProviderType)
           (activeProvider provider : ProviderType) : Tab :=
  let isAvailable := includes provider providers in
  let isActive := ProviderType_eqb provider activeProvider in
  let isDisabled := includes provider disabledProviders || negb isAvailable in
  {| tab_active := isActive; disabled := isDisabled |}.

Definition new (providers : list ProviderType) (activeProvider : ProviderType)
           (disabledProviders : list ProviderType) : t :=
  {| _providers := providers;
     _activeProvider := activeProvider;
     _disabledProviders := disabledProviders;
     buttons := createTab providers disabledProviders activeProvider;
     _tabs := fun _ => true;
     single_provider := Nat.eqb (List.length providers) 1;
     selected := [] |}.

(** [this._tabs.get(provider)] *)
Definition get (s : t) (provider : ProviderType) : option Tab :=
  if _tabs s provider then Some (buttons s provider) else None.

(** The button of [provider] changed by [f]. *)
Definition update (provider : ProviderType) (f : Tab -> Tab)
           (bs : ProviderType -> Tab) : ProviderType -> Tab :=
  fun p => if ProviderType_eqb p provider then f (bs p) else bs p.

Definition set_class (active : bool) (tab : Tab) : Tab :=
  {| tab_active := active; disabled := disabled tab |}.

Definition set_disabled (d : bool) (tab : Tab) : Tab :=
  {| tab_active := tab_active tab; disabled := d |}.

Definition with_buttons (bs : ProviderType -> Tab) (s : t) : t :=
  {| _providers := _providers s;
     _activeProvider := _activeProvider s;
     _disabledProviders := _disabledProviders s;
     buttons := bs;
     _tabs := _tabs s;
     single_provider := single_provider s;
     selected := selected s |}.

Definition setActive (provider : ProviderType) (s : t) : t :=
  if ProviderType_eqb (_activeProvider s) provider then s
  else
    (* Remove active class from current tab *)
    let s :=
      match get s (_activeProvider s) with
      | Some _ => with_buttons (update (_activeProvider s) (set_class false) (buttons s)) s
      | None => s
      end in
    (* Add active class to new tab *)
    match get s provider with
    | Some newTab =>
        if negb (disabled newTab)
        then {| _providers := _providers s;
                _activeProvider := provider;
                _disabledProviders := _disabledProviders s;
                buttons := update provider (set_class true) (buttons s);
                _tabs := _tabs s;
                single_provider := single_provider s;
                selected := selected s |}
        else s
    | None => s
    end.

Definition getActive (s : t) : ProviderType := _activeProvider s.

(** The click listener of the button of [provider]: it reads the
    [disabled] attribute of its button, in the [Map] or not. *)
Definition click (provider : ProviderType) (s : t) : t :=
  if negb (disabled (buttons s provider))
  then
    let s := setActive provider s in
    {| _providers := _providers s;
       _activeProvider := _activeProvider s;
       _disabledProviders := _disabledProviders s;
       buttons := buttons s;
       _tabs := _tabs s;
       single_provider := single_provider s;
       selected := selected s ++ [provider] |}
  else s.

Definition setEnabled (provider : ProviderType) (enabled : bool) (s : t) : t :=
  match get s provider with
  | Some _ =>
      {| _providers := _providers s;
         _activeProvider := _activeProvider s;
         _disabledProviders :=
           if enabled
           then filter (fun p => negb (ProviderType_eqb p provider)) (_disabledProviders s)
           else if includes provider (_disabledProviders s)
                then _disabledProviders s
                else _disabledProviders s ++ [provider];
         buttons := update provider (set_disabled (negb enabled)) (buttons s);
         _tabs := _tabs s;
         single_provider := single_provider s;
         selected := selected s |}
  | None => s
  end.

(** [for (const [provider, tab] of this._tabs)]: the buttons of the
    [Map]. *)
Definition setProviders (providers : list ProviderType) (s : t) : t :=
  {| _providers := providers;
     _activeProvider := _activeProvider s;
     _disabledProviders := _disabledProviders s;
     buttons := fun provider =>
                  if _tabs s provider
                  then set_disabled (negb (includes provider providers)
                                     || includes provider (_disabledProviders s))
                                    (buttons s provider)
                  else buttons s provider;
     _tabs := _tabs s;
     single_provider := Nat.eqb (List.length providers) 1;
     selected := selected s |}.

(** [this._tabs.clear()]; the element is taken out of the document. *)
Definition destroy (s : t) : t :=
  {| _providers := _providers s;
     _activeProvider := _activeProvider s;
     _disabledProviders := _disabledProviders s;
     buttons := buttons s;
     _tabs := fun _ => false;
     single_provider := single_provider s;
     selected := selected s |}.

Inductive Call : Type :=
| call_setActive (provider : ProviderType)
| call_click (provider : ProviderType)
| call_setEnabled (provider : ProviderType) (enabled : bool)
| call_setProviders (providers : list ProviderType)
| call_destroy.

Definition call (s : t) (c : Call) : t :=
  match c with
  | call_setActive provider => setActive provider s
  | call_click provider => click provider s
  | call_setEnabled provider enabled => setEnabled provider enabled s
  | call_setProviders providers => setProviders providers s
  | call_destroy => destroy s
  end.

Definition calls (cs : list Call) (s : t) : t := fold_left call cs s.

(** The tab of [provider] in the [Map] carries the [active] class. *)
Definition highlighted (s : t) (provider : ProviderType) : bool :=
  match get s provider with
  | Some tab => tab_active tab
  | None => false
  end.

(** The tab of [provider] is in the [Map] and can be clicked. *)
Definition enabled (s : t) (provider : ProviderType) : bool :=
  match get s provider with
  | Some tab => negb (disabled tab)
  | None => false
  end.

(** The button of [provider] is not disabled: its listener acts. *)
Definition clickable (s : t) (provider : ProviderType) : bool :=
  negb (disabled (buttons s provider)).

(** Only the tab of the active provider can carry the class. *)
Definition only_active_highlighted (s : t) : Prop :=
  forall provider, highlighted s provider = true -> provider = _activeProvider s.

(** The [Map] has both buttons or none. *)
Definition all_or_none (s : t) : Prop :=
  _tabs s google = _tabs s mapillary.
End ProviderTabs.

(** ** Panel.ts: the size of the panel

    The fields of the panel that hold its size and the state of a resize
    by the mouse; the calls of [onResize] are kept in [resized].  What
    the panel writes to the style of its element is not part of the
    state. *)

Inductive ControlPosition : Type :=
| top_left
| top_right
| bottom_left
| bottom_right.

(** [position.includes('right')], [position.includes('bottom')] and
    [position.includes('top')] *)
Definition includes_right (p : ControlPosition) : bool :=
  match p with
  | top_right | bottom_right => true
  | _ => false
  end.

Definition includes_bottom (p : ControlPosition) : bool :=
  match p with
  | bottom_left | bottom_right => true
  | _ => false
  end.

Definition includes_top (p : ControlPosition) : bool :=
  match p with
  | top_left | top_right => true
  | _ => false
  end.

Module PanelSize.
Record t : Type := {
  _width : number;
  _height : number;
  _minWidth : number;
  _minHeight : number;
  _position : ControlPosition;
  _isResizing : bool;
  _startX : number;
  _startY : number;
  _startWidth : number;
  _startHeight : number;
  resized : list (number * number)
}.

(** A mouse event, and the size of the map container (or of the window,
    without one) when it is handled. *)
Record MouseEvent : Type := {
  clientX : number;
  clientY : number;
  bounds_width : number;
  bounds_height : number
}.

Definition onResizeStart (e : MouseEvent) (p : t) : t :=
  {| _width := _width p; _height := _height p;
     _minWidth := _minWidth p; _minHeight := _minHeight p;
     _position := _position p;
     _isResizing := true;
     _startX := clientX e; _startY := clientY e;
     _startWidth := _width p; _startHeight := _height p;
     resized := resized p |}.

(** [getMaxDimensions] *)
Definition maxWidth (e : MouseEvent) : number := num_sub (bounds_width e) (num 40).
Definition maxHeight (e : MouseEvent) : number := num_sub (bounds_height e) (num 80).

(** The width and height before the constraints are applied. *)
Definition dragged_width (e : MouseEvent) (p : t) : number :=
  let deltaX := num_sub (clientX e) (_startX p) in
  if includes_right (_position p)
  then num_sub (_startWidth p) deltaX
  else num_add (_startWidth p) deltaX.

Definition dragged_height (e : MouseEvent) (p : t) : number :=
  let deltaY := num_sub (clientY e) (_startY p) in
  if includes_bottom (_position p)
  then num_sub (_startHeight p) deltaY
  else num_add (_startHeight p) deltaY.

Definition setSize (width height : number) (p : t) : t :=
  {| _width := width; _height := height;
     _minWidth := _minWidth p; _minHeight := _minHeight p;
     _position := _position p;
     _isResizing := _isResizing p;
     _startX := _startX p; _startY := _startY p;
     _startWidth := _startWidth p; _startHeight := _startHeight p;
     resized := resized p |}.

Definition onResizeMove (e : MouseEvent) (p : t) : t :=
  if negb (_isResizing p) then p
  else
    (* Apply minimum and maximum constraints *)
    let newWidth := Math_max (_minWidth p) (Math_min (maxWidth e) (dragged_width e p)) in
    let newHeight := Math_max (_minHeight p) (Math_min (maxHeight e) (dragged_height e p)) in
    setSize newWidth newHeight p.

Definition onResizeEnd (p : t) : t :=
  if negb (_isResizing p) then p
  else
    {| _width := _width p; _height := _height p;
       _minWidth := _minWidth p; _minHeight := _minHeight p;
       _position := _position p;
       _isResizing := false;
       _startX := _startX p; _startY := _startY p;
       _startWidth := _startWidth p; _startHeight := _startHeight p;
       resized := resized p ++ [(_width p, _height p)] |}.

Definition getSize (p : t) : number * number := (_width p, _height p).

(** A drag: the button goes down, the mouse moves, the button goes up. *)
Definition drag (down : MouseEvent) (moves : list MouseEvent) (p : t) : t :=
  onResizeEnd (fold_left (fun p e => onResizeMove e p) moves (onResizeStart down p)).
End PanelSize.

(** A panel of 400 by 300 at the top right, at least 300 by 200. *)
Definition example_panel : PanelSize.t :=
  {| PanelSize._width := num 400; PanelSize._height := num 300;
     PanelSize._minWidth := num 300; PanelSize._minHeight := num 200;
     PanelSize._position := top_right;
     PanelSize._isResizing := false;
     PanelSize._startX := num 0; PanelSize._startY := num 0;
     PanelSize._startWidth := num 0; PanelSize._startHeight := num 0;
     PanelSize.resized := [] |}.

Definition mouse_at (x y : Z) : PanelSize.MouseEvent :=
  {| PanelSize.clientX := num x; PanelSize.clientY := num y;
     PanelSize.bounds_width := num 800; PanelSize.bounds_height := num 600 |}.

(* ===================================================================== *)
(** * Part II. The properties                                            *)
(* ===================================================================== *)

(** ** helpers.ts: [normalizeHeading] *)

(** The values the unit tests of the repository expect. *)
Example normalizeHeading_tests :
  normalizeHeading (num 0) = num 0 /\
  normalizeHeading (num 180) = num 180 /\
  normalizeHeading (num 360) = num 0 /\
  normalizeHeading (num 450) = num 90 /\
  normalizeHeading (num (-90)) = num 270 /\
  normalizeHeading (num (-180)) = num 180 /\
  normalizeHeading (num (-360)) = num 0.
Proof. vm_compute. repeat split; reflexivity. Qed.

(** NaN and the infinities end at [0]: [NaN || 0] is [0]. *)
Example normalizeHeading_not_finite :
  normalizeHeading NaN = num 0 /\
  normalizeHeading (S754_infinity false) = num 0 /\
  normalizeHeading (S754_infinity true) = num 0.
Proof. vm_compute. repeat split; reflexivity. Qed.

(** Every whole number of degrees from -1080 to 1080 is brought into
    [0, 360). *)
Lemma normalizeHeading_whole_degrees :
  forallb (fun k => in_heading_range (normalizeHeading (num (Z.of_nat k - 1080))))
          (seq 0 2161) = true.
Proof. vm_compute. reflexivity. Qed.

(** C5 (the code departs from the claim).  The claim is that the result of
    [normalizeHeading] lies in [0, 360) for every input number.  For the
    heading [-2^-70] the remainder [heading % 360] is the heading itself,
    it is negative, and [normalized + 360] rounds to [360] in binary64:
    the function returns [360], which is not below [360].  The three
    values the claim names ([360 -> 0], [-90 -> 270], [450 -> 90]) are as
    claimed. *)
Theorem normalizeHeading_returns_360 :
  valid_binary prec emax tiny_negative_heading = true /\
  num_rem tiny_negative_heading (num 360) = tiny_negative_heading /\
  normalizeHeading tiny_negative_heading = num 360 /\
  in_heading_range (normalizeHeading tiny_negative_heading) = false /\
  normalizeHeading (num 360) = num 0 /\
  normalizeHeading (num (-90)) = num 270 /\
  normalizeHeading (num 450) = num 90.
Proof. vm_compute. repeat split; reflexivity. Qed.

(** ** The order of numbers *)

Lemma Pcompare_Eq_spec (p q : positive) :
  CompareSpec (p = q) (Zpos p < Zpos q) (Zpos q < Zpos p) (Pos.compare_cont Eq p q).
Proof.
  change (Pos.compare_cont Eq p q) with (Pos.compare p q).
  destruct (Pos.compare_spec p q); constructor; lia.
Qed.

Lemma num_lt_key (a b : number) :
  is_nan a = false -> is_nan b = false ->
  (num_lt a b = true <-> key_lt (order_key a) (order_key b)).
Proof.
  intros Ha Hb.
  destruct a as [sa|sa| |sa ma ea]; try discriminate;
    destruct b as [sb|sb| |sb mb eb]; try discriminate;
    try destruct sa; try destruct sb;
    unfold num_lt, SFltb, SFcompare, key_lt, order_key;
    try (split; intros H; [try discriminate; lia | try reflexivity; lia]).
  - destruct (Z.compare_spec ea eb); destruct (Pcompare_Eq_spec ma mb); cbn;
      split; intros ?; try discriminate; try reflexivity; lia.
  - destruct (Z.compare_spec ea eb); destruct (Pcompare_Eq_spec ma mb); cbn;
      split; intros ?; try discriminate; try reflexivity; lia.
Qed.

Lemma num_le_key (a b : number) :
  is_nan a = false -> is_nan b = false ->
  (num_le a b = true <-> ~ key_lt (order_key b) (order_key a)).
Proof.
  intros Ha Hb.
  destruct a as [sa|sa| |sa ma ea]; try discriminate;
    destruct b as [sb|sb| |sb mb eb]; try discriminate;
    try destruct sa; try destruct sb;
    unfold num_le, SFleb, SFcompare, key_lt, order_key;
    try (split; intros H; [try discriminate; lia | try reflexivity; lia]).
  - destruct (Z.compare_spec ea eb); destruct (Pcompare_Eq_spec ma mb); cbn;
      split; intros ?; try discriminate; try reflexivity; lia.
  - destruct (Z.compare_spec ea eb); destruct (Pcompare_Eq_spec ma mb); cbn;
      split; intros ?; try discriminate; try reflexivity; lia.
Qed.

Lemma num_eq_key (a b : number) :
  is_nan a = false -> is_nan b = false ->
  (num_eq a b = true <-> order_key a = order_key b).
Proof.
  intros Ha Hb.
  destruct a as [sa|sa| |sa ma ea]; try discriminate;
    destruct b as [sb|sb| |sb mb eb]; try discriminate;
    try destruct sa; try destruct sb;
    unfold num_eq, SFeqb, SFcompare, order_key;
    try (split; intros H; [try discriminate; reflexivity | try reflexivity; congruence]).
  - destruct (Z.compare_spec ea eb); destruct (Pcompare_Eq_spec ma mb); cbn;
      split; intros ?; try discriminate; try reflexivity;
      try (match goal with
           | E : (_, _, _) = (_, _, _) |- _ => injection E; intros; lia
           end); congruence.
  - destruct (Z.compare_spec ea eb); destruct (Pcompare_Eq_spec ma mb); cbn;
      split; intros ?; try discriminate; try reflexivity;
      try (match goal with
           | E : (_, _, _) = (_, _, _) |- _ => injection E; intros; lia
           end); congruence.
Qed.

Lemma num_le_not_nan (a b : number) :
  num_le a b = true -> is_nan a = false /\ is_nan b = false.
Proof.
  destruct a as [sa|sa| |sa ma ea], b as [sb|sb| |sb mb eb];
    try discriminate; split; reflexivity.
Qed.

Lemma num_lt_not_nan (a b : number) :
  num_lt a b = true -> is_nan a = false /\ is_nan b = false.
Proof.
  destruct a as [sa|sa| |sa ma ea], b as [sb|sb| |sb mb eb];
    try discriminate; split; reflexivity.
Qed.

Lemma num_lt_key_false (a b : number) :
  is_nan a = false -> is_nan b = false ->
  (num_lt a b = false <-> ~ key_lt (order_key a) (order_key b)).
Proof.
  intros Ha Hb. rewrite <- (num_lt_key a b Ha Hb).
  destruct (num_lt a b); split; intros H; try discriminate; try reflexivity.
  - exfalso. apply H. reflexivity.
Qed.

(** Comparisons of numbers that are not NaN, turned into arithmetic on
    their keys. *)
Ltac to_keys :=
  repeat match goal with
         | H : num_lt ?a ?b = true |- _ => apply num_lt_key in H; [|assumption|assumption]
         | H : num_lt ?a ?b = false |- _ =>
             apply num_lt_key_false in H; [|assumption|assumption]
         | H : num_le ?a ?b = true |- _ => apply num_le_key in H; [|assumption|assumption]
         | |- num_le ?a ?b = true => apply num_le_key; [try assumption|try assumption|]
         | |- num_lt ?a ?b = true => apply num_lt_key; [try assumption|try assumption|]
         | |- num_eq ?a ?b = true => apply num_eq_key; [try assumption|try assumption|]
         end.

Ltac key_arith :=
  repeat match goal with
         | |- context [order_key ?x] =>
             let c := fresh "c" in let e := fresh "e" in let m := fresh "m" in
             let E := fresh "E" in
             destruct (order_key x) as [[c e] m] eqn:E; clear E
         | H : context [order_key ?x] |- _ =>
             let c := fresh "c" in let e := fresh "e" in let m := fresh "m" in
             let E := fresh "E" in
             destruct (order_key x) as [[c e] m] eqn:E; clear E
         end;
  unfold key_lt in *;
  try match goal with |- (_, _, _) = (_, _, _) => repeat f_equal end;
  lia.

(** ** geo.ts: [findClosestPoint] *)

Section FindClosestPointSpec.
Variables T D : Type.
Variable location0 : T -> LngLat.
Variable distance : LngLatLike -> LngLatLike -> Completion D.
Variable lt : D -> D -> bool.
Hypothesis lt_irrefl : forall a, lt a a = false.
Hypothesis lt_trans : forall a b c, lt a b = true -> lt b c = true -> lt a c = true.

Let dist (target : LngLatLike) (p : T) : Completion D :=
  distance target (LngLatInstance (location0 p)).

(** No point of [seen] is strictly closer than the point at distance [d]. *)
Let none_closer (target : LngLatLike) (seen : list T) (d : D) : Prop :=
  forall q, In q seen -> exists dq, dist target q = Normal dq /\ lt dq d = false.

(** The loop invariant: [closest] is one of the points seen so far, at
    the distance [minDistance], and none of them is strictly closer. *)
Lemma findClosestPoint_scan_spec (target : LngLatLike) :
  forall (rest seen : list T) (closest : T) (minDistance : D) (r : T),
    In closest seen ->
    dist target closest = Normal minDistance ->
    none_closer target seen minDistance ->
    findClosestPoint_scan location0 distance lt target rest closest minDistance
    = Normal r ->
    In r (seen ++ rest) /\
    exists dr, dist target r = Normal dr /\ none_closer target (seen ++ rest) dr.
Proof.
  induction rest as [|p rest IH]; intros seen closest minDistance r Hin Hd Hmin; simpl.
  - intros H. injection H as <-. rewrite app_nil_r.
    split; [assumption|]. exists minDistance. split; assumption.
  - fold (dist target p).
    replace (seen ++ p :: rest) with ((seen ++ [p]) ++ rest)
      by (rewrite <- app_assoc; reflexivity).
    destruct (dist target p) as [d|e] eqn:Hp; [|discriminate].
    destruct (lt d minDistance) eqn:Hlt.
    + apply IH.
      * apply in_or_app. right. left. reflexivity.
      * exact Hp.
      * intros q Hq. apply in_app_or in Hq. destruct Hq as [Hq|[->|[]]].
        -- destruct (Hmin q Hq) as (dq & Hdq & Hle). exists dq. split; [exact Hdq|].
           destruct (lt dq d) eqn:Hqp; [|reflexivity].
           rewrite <- Hle. symmetry. eapply lt_trans; eassumption.
        -- exists d. split; [exact Hp | apply lt_irrefl].
    + apply IH.
      * apply in_or_app. left. assumption.
      * exact Hd.
      * intros q Hq. apply in_app_or in Hq. destruct Hq as [Hq|[->|[]]].
        -- apply Hmin. assumption.
        -- exists d. split; [exact Hp | exact Hlt].
Qed.

(** The scan throws what the first call of the distance function that
    throws has thrown. *)
Lemma findClosestPoint_scan_throws (target : LngLatLike) :
  forall (rest : list T) (closest : T) (minDistance : D) (e : LngLatError),
    findClosestPoint_scan location0 distance lt target rest closest minDistance
    = Throws e ->
    exists q, In q rest /\ dist target q = Throws e.
Proof.
  induction rest as [|p rest IH]; intros closest minDistance e; simpl; [discriminate|].
  fold (dist target p).
  destruct (dist target p) as [d|e'] eqn:Hp.
  - destruct (lt d minDistance); intros H; destruct (IH _ _ _ H) as (q & Hq & Hd);
      exists q; (split; [right; exact Hq | exact Hd]).
  - intros H. injection H as <-. exists p. split; [left; reflexivity | exact Hp].
Qed.

(** No point of the list is strictly closer than the one returned. *)
Lemma findClosestPoint_spec (target : LngLatLike) (points : list T) :
  (findClosestPoint location0 distance lt target points = Normal None <-> points = []) /\
  (forall r, findClosestPoint location0 distance lt target points = Normal (Some r) ->
             In r points /\
             exists dr, dist target r = Normal dr /\ none_closer target points dr) /\
  (forall e, findClosestPoint location0 distance lt target points = Throws e ->
             exists q, In q points /\ dist target q = Throws e).
Proof.
  destruct points as [|p0 rest]; simpl.
  - repeat split; try discriminate; intros; reflexivity.
  - fold (dist target p0).
    destruct (dist target p0) as [d0|e0] eqn:H0.
    + destruct (findClosestPoint_scan location0 distance lt target rest p0 d0)
        as [r0|e1] eqn:Hscan.
      * split; [split; discriminate|]. split; [|discriminate].
        intros r Hr. injection Hr as <-.
        apply (@findClosestPoint_scan_spec target rest [p0] p0 d0).
        -- left. reflexivity.
        -- exact H0.
        -- intros q [->|[]]. exists d0. split; [exact H0 | apply lt_irrefl].
        -- exact Hscan.
      * split; [split; discriminate|]. split; [discriminate|].
        intros e He. injection He as <-.
        destruct (@findClosestPoint_scan_throws target _ _ _ _ Hscan) as (q & Hq & Hd).
        exists q. split; [right; exact Hq | exact Hd].
    + split; [split; discriminate|]. split; [discriminate|].
      intros e He. injection He as <-.
      exists p0. split; [left; reflexivity | exact H0].
Qed.
End FindClosestPointSpec.

(** [<] on binary64 numbers is irreflexive and transitive, NaN included
    (every comparison with NaN is false). *)
Lemma num_lt_irrefl (a : number) : num_lt a a = false.
Proof.
  unfold num_lt, SFltb.
  destruct a as [s|s| |s m e]; try (destruct s); simpl; try reflexivity;
    rewrite Z.compare_refl;
    change (Pos.compare_cont Eq m m) with (Pos.compare m m);
    rewrite Pos.compare_refl; reflexivity.
Qed.

Lemma num_lt_trans (a b c : number) :
  num_lt a b = true -> num_lt b c = true -> num_lt a c = true.
Proof.
  unfold num_lt, SFltb.
  destruct a as [sa|sa| |sa ma ea]; destruct b as [sb|sb| |sb mb eb];
    destruct c as [sc|sc| |sc mc ec];
    try (destruct sa); try (destruct sb); try (destruct sc);
    simpl; try discriminate; try reflexivity;
    change (Pos.compare_cont Eq ma mb) with (Pos.compare ma mb);
    change (Pos.compare_cont Eq mb mc) with (Pos.compare mb mc);
    change (Pos.compare_cont Eq ma mc) with (Pos.compare ma mc);
    destruct (Z.compare_spec ea eb); destruct (Z.compare_spec eb ec);
    destruct (Z.compare_spec ea ec); simpl; try discriminate; try reflexivity;
    try lia; subst;
    destruct (Pos.compare_spec ma mb); destruct (Pos.compare_spec mb mc);
    destruct (Pos.compare_spec ma mc); simpl; try discriminate; try reflexivity;
    try lia.
Qed.

(** X9. With distances computed in binary64 by any distance function, no
    point of the list is strictly closer than the one returned; a
    distance function that throws makes [findClosestPoint] throw, so that
    a returned point means that every distance was computed. *)
Lemma findClosestPoint_binary64 :
  forall (T : Type) (location0 : T -> LngLat)
         (distance : LngLatLike -> LngLatLike -> Completion number)
         (target : LngLatLike) (points : list T),
    (findClosestPoint location0 distance num_lt target points = Normal None
     <-> points = []) /\
    (forall r,
        findClosestPoint location0 distance num_lt target points = Normal (Some r) ->
        In r points /\
        exists dr,
          distance target (LngLatInstance (location0 r)) = Normal dr /\
          forall q, In q points ->
                    exists dq,
                      distance target (LngLatInstance (location0 q)) = Normal dq /\
                      num_lt dq dr = false).
Proof.
  intros T location0 distance target points.
  destruct (findClosestPoint_spec location0 distance num_lt
              num_lt_irrefl num_lt_trans target points) as (Hnone & Hsome & _).
  split; [exact Hnone | exact Hsome].
Qed.

Example findClosestPoint_runs :
  let p e := {| lng := S754_finite false 1 e; lat := num 0 |} in
  findClosestPoint (fun p => p) toy_distance Z.ltb (LngLatInstance (p 5))
                   [p 1; p 7; p 4; p 6; p 9] = Normal (Some (p 4)).
Proof. reflexivity. Qed.

(** [toLngLat] of an instance, and of what [calculateDistance] is given
    by [findClosestPoint]. *)
Lemma calculateDistance_instance (M : Math) (target : LngLatLike) (p : LngLat) :
  calculateDistance M target (LngLatInstance p)
  = match toLngLat target with
    | Throws e => Throws e
    | Normal t => Normal (haversine M t p)
    end.
Proof. unfold calculateDistance. destruct (toLngLat target); reflexivity. Qed.

(** Two numbers, neither of them NaN, compare one way or the other. *)
Lemma num_le_of_not_lt (a b : number) :
  is_nan a = false -> is_nan b = false -> num_lt b a = false -> num_le a b = true.
Proof. intros Ha Hb H. to_keys. key_arith. Qed.

(** C8 (amended).  For every platform, target and list of points:
    [findClosestPoint] returns null for the empty list; for a list that
    is not empty and a target that [new LngLat] refuses it throws;
    otherwise it returns an element of the list such that no element has
    a smaller distance as [calculateDistance] computes it in binary64,
    and whose distance is at most that of any element when the two
    distances are numbers. *)
Theorem findClosestPoint_closest :
  forall (M : Math) (T : Type) (location0 : T -> LngLat)
         (target : LngLatLike) (points : list T),
    let result := findClosestPoint location0 (calculateDistance M) num_lt target points in
    (points = [] -> result = Normal None) /\
    (forall e, toLngLat target = Throws e -> points <> [] -> result = Throws e) /\
    (forall t,
        toLngLat target = Normal t ->
        (result = Normal None <-> points = []) /\
        (points <> [] ->
         exists r,
           result = Normal (Some r) /\ In r points /\
           forall q, In q points ->
             num_lt (haversine M t (location0 q)) (haversine M t (location0 r)) = false /\
             (is_nan (haversine M t (location0 r)) = false ->
              is_nan (haversine M t (location0 q)) = false ->
              num_le (haversine M t (location0 r)) (haversine M t (location0 q)) = true))).
Proof.
  intros M T location0 target points result.
  destruct (findClosestPoint_spec location0 (calculateDistance M) num_lt
              num_lt_irrefl num_lt_trans target points) as (Hnone & Hsome & Hthrows).
  fold result in Hnone, Hsome, Hthrows.
  split; [apply Hnone|]. split.
  - intros e He Hne. destruct points as [|p0 rest]; [contradiction|].
    unfold result. cbn [findClosestPoint].
    rewrite calculateDistance_instance, He. reflexivity.
  - intros t Ht. split; [exact Hnone|]. intros Hne.
    destruct result as [[r|]|e] eqn:Hr.
    + destruct (Hsome r eq_refl) as (Hin & dr & Hdr & Hmin).
      rewrite calculateDistance_instance, Ht in Hdr. injection Hdr as <-.
      exists r. split; [reflexivity|]. split; [exact Hin|].
      intros q Hq. destruct (Hmin q Hq) as (dq & Hdq & Hlt).
      rewrite calculateDistance_instance, Ht in Hdq. injection Hdq as <-.
      split; [exact Hlt|]. intros Hnr Hnq. apply num_le_of_not_lt; assumption.
    + exfalso. apply Hne. apply Hnone. reflexivity.
    + exfalso. destruct (Hthrows e eq_refl) as (q & _ & Hq).
      rewrite calculateDistance_instance, Ht in Hq. discriminate.
Qed.

(** Between [far_west] and [far_east] the difference of the longitudes
    overflows and the distance is NaN, on every platform. *)
Lemma haversine_overflow (M : Math) : haversine M far_west far_east = NaN.
Proof. reflexivity. Qed.

(** C8 (counterexample).  The target is [far_west], and the list holds
    [far_east] and then [far_west] itself.  The distance of the first
    element is NaN, no distance is smaller than NaN, and the first element
    is returned: its distance is not at most that of the other element,
    which is the target itself, at distance 0.  With the target
    [[0, 100]], which [new LngLat] refuses, the call throws instead of
    returning an element. *)
Lemma findClosestPoint_not_closest :
  let distance := calculateDistance crude_Math in
  let points := [far_east; far_west] in
  findClosestPoint (fun p => p) distance num_lt (LngLatInstance far_west) points
  = Normal (Some far_east) /\
  distance (LngLatInstance far_west) (LngLatInstance far_east) = Normal NaN /\
  distance (LngLatInstance far_west) (LngLatInstance far_west) = Normal (num 0) /\
  num_le NaN (num 0) = false /\
  findClosestPoint (fun p => p) distance num_lt (LngLatArray (num 0) (num 100)) points
  = Throws InvalidLatitude.
Proof. vm_compute. repeat split; reflexivity. Qed.

(** The first element is returned there on every platform. *)
Lemma findClosestPoint_overflow (M : Math) :
  findClosestPoint (fun p => p) (calculateDistance M) num_lt (LngLatInstance far_west)
                   [far_east; far_west]
  = Normal (Some far_east).
Proof.
  cbn [findClosestPoint findClosestPoint_scan].
  rewrite !calculateDistance_instance. cbn [toLngLat].
  rewrite haversine_overflow.
  destruct (num_lt (haversine M far_west far_west) NaN) eqn:E; [|reflexivity].
  unfold num_lt, NaN in E. destruct (haversine M far_west far_west); discriminate.
Qed.

(** ** Providers: [findNearestImagery] *)

Lemma StronglySorted_filter (A : Type) (P : A -> A -> Prop) (f : A -> bool) (l : list A) :
  StronglySorted P l -> StronglySorted P (filter f l).
Proof.
  induction 1 as [|a l Hs IH Hall]; simpl.
  - constructor.
  - destruct (f a).
    + constructor; [exact IH|].
      rewrite Forall_forall in *. intros x Hx.
      apply filter_In in Hx. apply Hall. tauto.
    + exact IH.
Qed.

Lemma StronglySorted_prefix (A : Type) (P : A -> A -> Prop) (l1 l2 : list A) :
  StronglySorted P (l1 ++ l2) -> StronglySorted P l1.
Proof.
  induction l1 as [|a l1 IH]; simpl; intros H.
  - constructor.
  - inversion H as [|? ? Hs Hall]; subst.
    constructor; [apply IH; exact Hs|].
    apply Forall_app in Hall. tauto.
Qed.

(** One turn of the loop, by what the provider answers. *)
Section LoopTurn.
Variables (lngLat : LngLatLike) (maxRadius radius : number) (radii : list number).
Let loop := findNearestImagery_loop queryImagery_call lngLat maxRadius.
Let query := {| call_lngLat := lngLat; call_radius := radius |}.

Lemma run_loop_break answers :
  num_gt radius maxRadius = true ->
  run (loop (radius :: radii)) answers = (Resolved None, []).
Proof. intros H. unfold loop. simpl. rewrite H. reflexivity. Qed.

Lemma run_loop_pending :
  num_gt radius maxRadius = false ->
  run (loop (radius :: radii)) [] = (Pending, [query]).
Proof. intros H. unfold loop. simpl. rewrite H. reflexivity. Qed.

Lemma run_loop_rejected e answers :
  num_gt radius maxRadius = false ->
  run (loop (radius :: radii)) (Rejected e :: answers) = (RejectedWith e, [query]).
Proof. intros H. unfold loop. simpl. rewrite H. reflexivity. Qed.

Lemma run_loop_found img answers :
  num_gt radius maxRadius = false ->
  run (loop (radius :: radii)) (Fulfilled (Some img) :: answers)
  = (Resolved (Some img), [query]).
Proof. intros H. unfold loop. simpl. rewrite H. reflexivity. Qed.

Lemma run_loop_none answers :
  num_gt radius maxRadius = false ->
  run (loop (radius :: radii)) (Fulfilled None :: answers)
  = (fst (run (loop radii) answers), query :: snd (run (loop radii) answers)).
Proof.
  intros H. unfold loop. simpl. rewrite H. simpl.
  destruct (run _ answers). reflexivity.
Qed.
End LoopTurn.

(** The loop over any list of radii. *)
Lemma findNearestImagery_loop_run (lngLat : LngLatLike) (maxRadius : number) :
  forall (radii : list number) (answers : list (Settled (option ImageryResult))),
    let outcome :=
      fst (run (findNearestImagery_loop queryImagery_call lngLat maxRadius radii) answers) in
    let issued :=
      snd (run (findNearestImagery_loop queryImagery_call lngLat maxRadius radii) answers) in
    (exists rest, radii = map call_radius issued ++ rest) /\
    Forall (fun q => call_lngLat q = lngLat /\
                     num_gt (call_radius q) maxRadius = false) issued /\
    (forall i img,
        nth_error answers i = Some (Fulfilled (Some img)) ->
        (i < List.length issued)%nat ->
        S i = List.length issued /\ outcome = Resolved (Some img)) /\
    (forall img,
        outcome = Resolved (Some img) ->
        exists i, S i = List.length issued /\
                  nth_error answers i = Some (Fulfilled (Some img))).
Proof.
  induction radii as [|radius radii IH]; intros answers; cbv zeta.
  - simpl. repeat split.
    + exists []. reflexivity.
    + constructor.
    + simpl in *. lia.
    + simpl in *. lia.
    + discriminate.
  - destruct (num_gt radius maxRadius) eqn:Hgt.
    + rewrite run_loop_break by exact Hgt. simpl. repeat split.
      * exists (radius :: radii). reflexivity.
      * constructor.
      * lia.
      * lia.
      * discriminate.
    + destruct answers as [|[[img|]|e] answers].
      * rewrite run_loop_pending by exact Hgt. simpl. repeat split.
        -- exists radii. reflexivity.
        -- repeat constructor. exact Hgt.
        -- destruct i; discriminate.
        -- destruct i; discriminate.
        -- discriminate.
      * rewrite run_loop_found by exact Hgt. simpl. repeat split.
        -- exists radii. reflexivity.
        -- repeat constructor. exact Hgt.
        -- lia.
        -- destruct i; simpl in *; [congruence | lia].
        -- intros img' H. exists 0%nat. split; [reflexivity|]. simpl. congruence.
      * rewrite run_loop_none by exact Hgt. simpl.
        destruct (IH answers) as (Hpre & Hall & Hfound & Hres).
        repeat split.
        -- destruct Hpre as [rest Hrest]. exists rest. simpl. f_equal. exact Hrest.
        -- constructor; [split; [reflexivity | exact Hgt] | exact Hall].
        -- destruct i; simpl in *; [discriminate|].
           f_equal. apply (Hfound i img); [assumption | lia].
        -- destruct i; simpl in *; [discriminate|].
           apply (Hfound i img); [assumption | lia].
        -- intros img H. destruct (Hres img H) as (i & Hi & Hnth).
           exists (S i). split; [simpl; f_equal; exact Hi | exact Hnth].
      * rewrite run_loop_rejected by exact Hgt. simpl. repeat split.
        -- exists radii. reflexivity.
        -- repeat constructor. exact Hgt.
        -- destruct i; simpl in *; [discriminate | lia].
        -- destruct i; simpl in *; [discriminate | lia].
        -- discriminate.
Qed.

(** The loop over radii that are all within [maxRadius]: it goes on as
    long as the answers are null. *)
Lemma findNearestImagery_loop_progress (lngLat : LngLatLike) (maxRadius : number) :
  forall (radii : list number) (answers : list (Settled (option ImageryResult))),
    Forall (fun r => num_gt r maxRadius = false) radii ->
    let outcome :=
      fst (run (findNearestImagery_loop queryImagery_call lngLat maxRadius radii) answers) in
    let issued :=
      snd (run (findNearestImagery_loop queryImagery_call lngLat maxRadius radii) answers) in
    (forall i r,
        nth_error radii i = Some r ->
        nulls_before answers i ->
        nth_error (map call_radius issued) i = Some r) /\
    (forall i img,
        (i < List.length radii)%nat ->
        nulls_before answers i ->
        nth_error answers i = Some (Fulfilled (Some img)) ->
        outcome = Resolved (Some img) /\ List.length issued = S i) /\
    (nulls_before answers (List.length radii) ->
     outcome = Resolved None /\ map call_radius issued = radii).
Proof.
  assert (Hshift : forall a answers i,
             nulls_before (a :: answers) (S i) ->
             a = Fulfilled None /\ nulls_before answers i).
  { intros a answers i H. split.
    - specialize (H 0%nat). cbn in H. injection (H (Nat.lt_0_succ i)) as ->. reflexivity.
    - intros j Hj. apply (H (S j)). lia. }
  induction radii as [|radius radii IH]; intros answers Hall; cbv zeta.
  - cbn. split; [|split].
    + intros [|i] r H; discriminate.
    + intros i img H. lia.
    + intros _. split; reflexivity.
  - inversion Hall as [|? ? Hgt Hall']; subst.
    destruct answers as [|[[img|]|e] answers].
    + rewrite run_loop_pending by exact Hgt. cbn. split; [|split].
      * intros [|i] r Hr Hn; [exact Hr|].
        specialize (Hn 0%nat (Nat.lt_0_succ i)). discriminate.
      * intros i img' _ _ H. destruct i; discriminate.
      * intros Hn. specialize (Hn 0%nat (Nat.lt_0_succ _)). discriminate.
    + rewrite run_loop_found by exact Hgt. cbn. split; [|split].
      * intros [|i] r Hr Hn; [exact Hr|].
        specialize (Hn 0%nat (Nat.lt_0_succ i)). discriminate.
      * intros i img' _ Hn H. destruct i.
        -- cbn in H. injection H as <-. split; reflexivity.
        -- specialize (Hn 0%nat (Nat.lt_0_succ i)). discriminate.
      * intros Hn. specialize (Hn 0%nat (Nat.lt_0_succ _)). discriminate.
    + rewrite run_loop_none by exact Hgt. cbn [fst snd].
      destruct (IH answers Hall') as (Hnext & Hfound & Hnone).
      split; [|split].
      * intros [|i] r Hr Hn; [exact Hr|].
        cbn. apply Hnext; [exact Hr|]. apply (Hshift _ _ _ Hn).
      * intros i img Hlt Hn H. destruct i; [discriminate|].
        destruct (Hfound i img) as [Ho Hl];
          [cbn in Hlt; lia | apply (Hshift _ _ _ Hn) | exact H |].
        split; [exact Ho | cbn; f_equal; exact Hl].
      * intros Hn. destruct (Hnone (proj2 (Hshift _ _ _ Hn))) as [Ho Hl].
        split; [exact Ho | cbn; f_equal; exact Hl].
    + rewrite run_loop_rejected by exact Hgt. cbn. split; [|split].
      * intros [|i] r Hr Hn; [exact Hr|].
        specialize (Hn 0%nat (Nat.lt_0_succ i)). discriminate.
      * intros i img' _ Hn H. destruct i; [discriminate|].
        specialize (Hn 0%nat (Nat.lt_0_succ i)). discriminate.
      * intros Hn. specialize (Hn 0%nat (Nat.lt_0_succ _)). discriminate.
Qed.

(** In an ascending sequence that starts with [50], the radii that the
    filter lets through are those within [maxRadius] when [50] is, and
    none is within [maxRadius] when [50] is not. *)
Lemma filter_radius_allowed (maxRadius : number) (radii : list number) :
  queries_ascending (num 50 :: radii) ->
  (num_le (num 50) maxRadius = true ->
   filter (radius_allowed maxRadius) (num 50 :: radii) = within maxRadius (num 50 :: radii)) /\
  (num_le (num 50) maxRadius = false -> within maxRadius (num 50 :: radii) = []) /\
  Forall (fun r => num_gt r maxRadius = false) (within maxRadius (num 50 :: radii)).
Proof.
  intros Hsorted. destruct (StronglySorted_inv Hsorted) as [Htail Habove].
  rewrite Forall_forall in Habove.
  assert (Hnan50 : is_nan (num 50) = false) by reflexivity.
  split; [|split].
  - intros H50. unfold within. apply filter_ext_in. intros r [<-|Hr].
    + unfold radius_allowed. rewrite H50. reflexivity.
    + unfold radius_allowed. specialize (Habove r Hr).
      destruct (num_lt_not_nan _ _ Habove) as [_ Hnr].
      assert (E : num_eq r (num 50) = false).
      { destruct (num_eq r (num 50)) eqn:E; [|reflexivity].
        apply num_eq_key in E; [|assumption|assumption].
        to_keys. exfalso. rewrite E in Habove. key_arith. }
      rewrite E, orb_false_r. reflexivity.
  - intros H50. unfold within. cbn [filter]. rewrite H50.
    induction radii as [|r radii IH]; [reflexivity|].
    cbn [filter]. destruct (num_le r maxRadius) eqn:Hr.
    + exfalso. specialize (Habove r (or_introl eq_refl)).
      destruct (num_lt_not_nan _ _ Habove) as [_ Hnr].
      destruct (num_le_not_nan _ _ Hr) as [_ Hnm].
      assert (H : num_le (num 50) maxRadius = true) by (to_keys; key_arith).
      congruence.
    + apply IH.
      * destruct (StronglySorted_inv Htail) as [Htail' _].
        constructor; [exact Htail'|].
        apply Forall_forall. intros x Hx. apply Habove. right. exact Hx.
      * destruct (StronglySorted_inv Htail) as [Htail' _]. exact Htail'.
      * intros x Hx. apply Habove. right. exact Hx.
  - apply Forall_forall. intros r Hr. unfold within in Hr.
    apply filter_In in Hr. destruct Hr as [_ Hr].
    destruct (num_le_not_nan _ _ Hr) as [Hnr Hnm].
    unfold num_gt. apply num_lt_key_false; [assumption|assumption|].
    to_keys. key_arith.
Qed.

Lemma nth_error_head (A : Type) (l : list A) (x : A) :
  nth_error l 0 = Some x -> exists more, l = x :: more.
Proof.
  destruct l as [|y more]; cbn; intros H; [discriminate|].
  injection H as ->. exists more. reflexivity.
Qed.

(** Any ascending sequence of radii that starts with [50]. *)
Lemma progressive_search_holds (radii : list number) :
  queries_ascending (num 50 :: radii) ->
  progressive_search_spec (num 50 :: radii).
Proof.
  intros Hsorted lngLat maxRadius answers. cbv zeta.
  unfold findNearestImagery_of.
  destruct (findNearestImagery_loop_run lngLat maxRadius
              (filter (radius_allowed maxRadius) (num 50 :: radii)) answers)
    as (Hpre & Hall & Hfound & Hres).
  destruct (filter_radius_allowed maxRadius Hsorted) as (Hsame & Hempty & Hwithin).
  assert (Hkeep : radius_allowed maxRadius (num 50) = true).
  { unfold radius_allowed. apply orb_true_iff. right. reflexivity. }
  assert (Hbreak : num_gt (num 50) maxRadius = true ->
                   run (findNearestImagery_loop queryImagery_call lngLat maxRadius
                          (filter (radius_allowed maxRadius) (num 50 :: radii))) answers
                   = (Resolved None, [])).
  { intros Hgt. cbn [filter]. rewrite Hkeep. apply run_loop_break. exact Hgt. }
  split; [exact Hpre|].
  split.
  { destruct Hpre as [rest Hrest].
    apply StronglySorted_prefix with (l2 := rest). rewrite <- Hrest.
    apply StronglySorted_filter. exact Hsorted. }
  split; [exact Hall|].
  split; [exact Hfound|].
  split; [exact Hres|].
  split.
  { intros Hbelow. rewrite (Hbreak Hbelow). split; reflexivity. }
  destruct (num_le (num 50) maxRadius) eqn:H50.
  - rewrite (Hsame eq_refl).
    destruct (@findNearestImagery_loop_progress lngLat maxRadius
                (within maxRadius (num 50 :: radii)) answers Hwithin)
      as (Hnext & Hfirst & Hnone).
    split.
    { intros _. apply nth_error_head. apply Hnext.
      - unfold within. cbn [filter]. rewrite H50. reflexivity.
      - intros j Hj. lia. }
    split; [exact Hnext|]. split; [exact Hfirst|]. intros _. exact Hnone.
  - rewrite (Hempty eq_refl).
    split; [discriminate|].
    split; [intros [|i] r H; discriminate|].
    split; [intros i img H; cbn in H; lia|].
    intros Hnan _.
    assert (Hgt : num_gt (num 50) maxRadius = true).
    { change (num_gt (num 50) maxRadius) with (num_lt maxRadius (num 50)).
      assert (Hn50 : is_nan (num 50) = false) by reflexivity.
      destruct (num_lt maxRadius (num 50)) eqn:E; [reflexivity|].
      exfalso. assert (H : num_le (num 50) maxRadius = true)
        by (apply num_le_of_not_lt; assumption).
      congruence. }
    rewrite (Hbreak Hgt). split; reflexivity.
Qed.

(** C1.  For every target location and every maximum radius, whatever the
    point queries answer, [findNearestImagery] of the Google provider
    (radii 50, 100, 200, 500) and of the Mapillary provider (radii 50,
    100, 250, 500) queries its ascending sequence of radii in order,
    never with a radius above the maximum: the query at 50 comes first,
    the next radius within the maximum is queried as long as the answers
    are null, the first answer with imagery ends the search and is its
    result, and when every radius within the maximum was answered with
    null the result is null; below the smallest radius the result is
    null without a query. *)
Theorem findNearestImagery_progressive :
  progressive_search_spec GoogleStreetViewProvider.radii /\
  progressive_search_spec MapillaryProvider.radii.
Proof.
  split; apply progressive_search_holds; unfold queries_ascending;
    repeat (constructor; [|repeat constructor; vm_compute; reflexivity]);
    constructor.
Qed.

(** Each provider's [findNearestImagery] is that loop, around its own
    [queryImagery]. *)
Lemma findNearestImagery_loops :
  forall Number_toString M bbox_param key lngLat maxRadius,
    GoogleStreetViewProvider.findNearestImagery Number_toString key lngLat maxRadius =
    findNearestImagery_loop (GoogleStreetViewProvider.queryImagery Number_toString key)
      lngLat maxRadius
      (filter (radius_allowed maxRadius) GoogleStreetViewProvider.radii) /\
    MapillaryProvider.findNearestImagery Number_toString M bbox_param key lngLat maxRadius =
    findNearestImagery_loop
      (MapillaryProvider.queryImagery Number_toString M bbox_param key)
      lngLat maxRadius
      (filter (radius_allowed maxRadius) MapillaryProvider.radii).
Proof. intros. split; reflexivity. Qed.

(** ** Providers: [queryImagery] *)

(** What is read from the body never rejects the promise: an exception
    is caught. *)
Lemma google_read_caught Number_toString m :
  exists o, try_catch (GoogleStreetViewProvider.read_metadata Number_toString m)
                      (fun _ => Return None)
            = @Return string (FetchOutcome (option GoogleStreetViewProvider.GoogleStreetViewMetadata)) _ o.
Proof.
  destruct m as [m|]; simpl; [|eexists; reflexivity].
  destruct (GoogleStreetViewProvider.location m), (GoogleStreetViewProvider.pano_id m);
    try (eexists; reflexivity).
  destruct (_ && _); [|eexists; reflexivity].
  destruct (new_LngLat _ _); eexists; reflexivity.
Qed.

Lemma mapillary_read_caught Number_toString M point m :
  exists o, try_catch (MapillaryProvider.read_response Number_toString M point m)
                      (fun _ => Return None)
            = @Return string (FetchOutcome (option MapillaryProvider.MapillaryImageResponse)) _ o.
Proof.
  destruct m as [m|]; simpl; [|eexists; reflexivity].
  destruct (MapillaryProvider.data m) as [[|img images]|]; try (eexists; reflexivity).
  destruct (MapillaryProvider.imageryResults (img :: images)) as [results|e];
    [|eexists; reflexivity].
  cbn. destruct (findClosestPoint _ _ _ _ _); eexists; reflexivity.
Qed.

(** A point query at a point that [toLngLat] has returned. *)
Lemma google_query_at_spec Number_toString key point radius :
  point_query_spec
    (try_catch (GoogleStreetViewProvider.query_at Number_toString key point radius)
               (fun _ => Return None))
    google_zero_results.
Proof.
  unfold point_query_spec, GoogleStreetViewProvider.query_at.
  set (url := buildUrl _ _ _). clearbody url.
  split; [|split; [|split]].
  - intros [|response rest] e; simpl; [discriminate|].
    destruct response as [e'|ok status json]; simpl; [discriminate|].
    destruct ok; simpl; [|discriminate].
    destruct json as [body|e']; simpl; [|discriminate].
    destruct (google_read_caught Number_toString body) as [o Ho].
    rewrite Ho. discriminate.
  - intros response rest Hfail. simpl.
    destruct response as [e|ok status json]; simpl; [reflexivity|].
    destruct ok; simpl; [|reflexivity].
    destruct json as [body|e]; simpl; [discriminate | reflexivity].
  - intros status rest. reflexivity.
  - intros [|response rest]; simpl; [lia|].
    destruct response as [e|ok status json]; simpl; [lia|].
    destruct ok; simpl; [|lia].
    destruct json as [body|e]; simpl; [|lia].
    destruct (google_read_caught Number_toString body) as [o Ho].
    rewrite Ho. simpl. lia.
Qed.

Lemma mapillary_query_at_spec Number_toString M bbox_param key point radius :
  point_query_spec
    (try_catch (MapillaryProvider.query_at Number_toString M bbox_param key point radius)
               (fun _ => Return None))
    mapillary_no_images.
Proof.
  unfold point_query_spec, MapillaryProvider.query_at.
  set (url := buildUrl _ _ _). clearbody url.
  split; [|split; [|split]].
  - intros [|response rest] e; simpl; [discriminate|].
    destruct response as [e'|ok status json]; simpl; [discriminate|].
    destruct ok; simpl; [|discriminate].
    destruct json as [body|e']; simpl; [|discriminate].
    destruct (mapillary_read_caught Number_toString M point body) as [o Ho].
    rewrite Ho. discriminate.
  - intros response rest Hfail. simpl.
    destruct response as [e|ok status json]; simpl; [reflexivity|].
    destruct ok; simpl; [|reflexivity].
    destruct json as [body|e]; simpl; [discriminate | reflexivity].
  - intros status rest. reflexivity.
  - intros [|response rest]; simpl; [lia|].
    destruct response as [e|ok status json]; simpl; [lia|].
    destruct ok; simpl; [|lia].
    destruct json as [body|e]; simpl; [|lia].
    destruct (mapillary_read_caught Number_toString M point body) as [o Ho].
    rewrite Ho. simpl. lia.
Qed.

(** A provider without a credential answers null at once. *)
Lemma silent_query_spec (T : Type) (no_coverage : T) :
  point_query_spec (@Return string (FetchOutcome T) _ (@None ImageryResult)) no_coverage.
Proof. repeat split; intros; simpl; try discriminate; try reflexivity; lia. Qed.

(** C2.  For every location and radius, and whatever the network does,
    [queryImagery] of either provider never passes a failure of the
    request on: when [fetch] throws, the response is not OK or its body
    cannot be parsed, the call resolves with null, the value a completed
    query without coverage resolves with.  This holds at every location
    that [toLngLat] converts.  At a location that [new LngLat] refuses no
    request is made at all: a configured provider rejects with the error
    of [new LngLat], which stands before the [try], and a provider
    without a credential resolves with null. *)
Theorem queryImagery_never_rejects :
  forall (Number_toString : number -> string) (M : Math)
         (bbox_param : LngLat -> number -> string)
         (key : string) (lngLat : LngLatLike) (radius : number),
    let google := GoogleStreetViewProvider.queryImagery Number_toString key lngLat radius in
    let mapillary :=
      MapillaryProvider.queryImagery Number_toString M bbox_param key lngLat radius in
    (forall point,
        toLngLat lngLat = Normal point ->
        point_query_spec google google_zero_results /\
        point_query_spec mapillary mapillary_no_images) /\
    (forall e answers,
        toLngLat lngLat = Throws e ->
        run google answers
        = (if GoogleStreetViewProvider.isConfigured key
           then RejectedWith (Error_of Number_toString e) else Resolved None, []))
    /\
    (forall e answers,
        toLngLat lngLat = Throws e ->
        run mapillary answers
        = (if MapillaryProvider.isConfigured key
           then RejectedWith (Error_of Number_toString e) else Resolved None, [])).
Proof.
  intros Number_toString M bbox_param key lngLat radius. cbv zeta.
  unfold GoogleStreetViewProvider.queryImagery, MapillaryProvider.queryImagery.
  split; [|split].
  - intros point ->. split.
    + destruct (GoogleStreetViewProvider.isConfigured key); cbn [negb];
        [apply google_query_at_spec | apply silent_query_spec].
    + destruct (MapillaryProvider.isConfigured key); cbn [negb];
        [apply mapillary_query_at_spec | apply silent_query_spec].
  - intros e answers ->.
    destruct (GoogleStreetViewProvider.isConfigured key); reflexivity.
  - intros e answers ->.
    destruct (MapillaryProvider.isConfigured key); reflexivity.
Qed.

(** ** Providers: the requests of [findNearestImagery] *)

(** The loop around a point query that makes one request and resolves
    with a result computed from the answer. *)
Section ProviderRequests.
Variables E R : Type.
Variable q : LngLatLike -> number -> Async E R (option ImageryResult).
Variable l : LngLatLike.
Variable request : number -> E.
Hypothesis q_pending :
  forall (r : number)
         (k : option ImageryResult -> Async E R (option ImageryResult)),
    run (bind (q l r) k) [] = (Pending, [request r]).
Hypothesis q_answered :
  forall (r : number)
         (k : option ImageryResult -> Async E R (option ImageryResult))
         (a : R) (answers : list R),
    run (bind (q l r) k) (a :: answers)
    = (fst (run (k (answer_of (q l r) a)) answers),
       request r :: snd (run (k (answer_of (q l r) a)) answers)).

Lemma findNearestImagery_loop_requests (maxRadius : number) :
  forall (radii : list number) (answers : list R),
  exists queried rest,
    radii = queried ++ rest /\
    snd (run (findNearestImagery_loop q l maxRadius radii) answers)
    = map request queried /\
    Forall (fun r => num_gt r maxRadius = false) queried /\
    (forall img,
        fst (run (findNearestImagery_loop q l maxRadius radii) answers)
        = Resolved (Some img) ->
        exists i r a,
          S i = List.length queried /\ nth_error queried i = Some r /\
          nth_error answers i = Some a /\ answer_of (q l r) a = Some img).
Proof.
  induction radii as [|radius radii IH]; intros answers.
  - exists [], []. cbn. repeat split; [constructor | discriminate].
  - cbn [findNearestImagery_loop].
    destruct (num_gt radius maxRadius) eqn:Hgt.
    + exists [], (radius :: radii). cbn. repeat split; [constructor | discriminate].
    + destruct answers as [|a answers].
      * rewrite q_pending. exists [radius], radii. cbn.
        repeat split; [repeat constructor; exact Hgt | discriminate].
      * rewrite q_answered. cbn [fst snd].
        destruct (answer_of (q l radius) a) as [img|] eqn:Ha.
        -- exists [radius], radii. cbn.
           repeat split; [repeat constructor; exact Hgt|].
           intros img' H. injection H as <-.
           exists 0%nat, radius, a. repeat split; assumption.
        -- destruct (IH answers) as (queried & rest & Hsplit & Htrace & Hall & Hres).
           exists (radius :: queried), rest. cbn.
           repeat split.
           ++ f_equal. exact Hsplit.
           ++ f_equal. exact Htrace.
           ++ constructor; assumption.
           ++ intros img H. destruct (Hres img H) as (i & r & a' & Hi & Hr & Ha' & Himg).
              exists (S i), r, a'. cbn. repeat split; try assumption.
              f_equal. exact Hi.
Qed.
End ProviderRequests.

(** The loop around a point query that throws at once. *)
Lemma findNearestImagery_loop_thrown (E R : Type)
      (q : LngLatLike -> number -> Async E R (option ImageryResult))
      (l : LngLatLike) (maxRadius : number) (e : JSError) :
  (forall r, q l r = Throw e) ->
  forall (radii : list number) (answers : list R),
    snd (run (findNearestImagery_loop q l maxRadius radii) answers) = [].
Proof.
  intros Hq [|radius radii] answers; cbn; [reflexivity|].
  destruct (num_gt radius maxRadius); [reflexivity|].
  rewrite Hq. reflexivity.
Qed.

(** A point query makes its request and goes on with what it reads from
    the answer. *)
Section OneRequest.
Variables R A B : Type.
Variable url : string.
Variable fetched : R -> Async string R A.
Variable read : A -> Async string R (option ImageryResult).
Hypothesis read_caught :
  forall body, exists o, try_catch (read body) (fun _ => Return None) = Return o.
Hypothesis fetched_at_once :
  forall a, (exists body, fetched a = Return body) \/ (exists e, fetched a = Throw e).

Let q : Async string R (option ImageryResult) :=
  try_catch (bind (Await url fetched) read) (fun _ => Return None).

Lemma one_request_pending (k : option ImageryResult -> Async string R B) :
  run (bind q k) [] = (Pending, [url]).
Proof. reflexivity. Qed.

Lemma one_request_answered (k : option ImageryResult -> Async string R B)
      (a : R) (answers : list R) :
  run (bind q k) (a :: answers)
  = (fst (run (k (answer_of q a)) answers),
     url :: snd (run (k (answer_of q a)) answers)).
Proof.
  unfold answer_of, q. cbn [bind try_catch run].
  destruct (fetched_at_once a) as [[body ->]|[e ->]]; cbn [bind try_catch].
  - destruct (read_caught body) as [o ->]. cbn [bind run fst snd].
    destruct (run (k o) answers). reflexivity.
  - cbn [bind run fst snd]. destruct (run (k None) answers). reflexivity.
Qed.
End OneRequest.

Lemma fetchJson_at_once (T : Type) Number_toString (url : string) (a : FetchOutcome T) :
  let fetched := match fetchJson Number_toString url with
                 | Await _ k => k
                 | _ => fun _ => Throw (ErrorObject "")
                 end in
  (exists body : T, fetched a = Return body) \/ (exists e, fetched a = Throw e).
Proof.
  cbn. destruct a as [e|[|] status [body|e]]; cbn.
  - right. eexists. reflexivity.
  - left. eexists. reflexivity.
  - right. eexists. reflexivity.
  - right. eexists. reflexivity.
  - right. eexists. reflexivity.
Qed.

Lemma google_queryImagery_request Number_toString key lngLat point :
  GoogleStreetViewProvider.isConfigured key = true ->
  toLngLat lngLat = Normal point ->
  let q := GoogleStreetViewProvider.queryImagery Number_toString key in
  (forall r (k : option ImageryResult -> Async _ _ (option ImageryResult)),
      run (bind (q lngLat r) k) []
      = (Pending, [google_metadata_url Number_toString key point r])) /\
  (forall r (k : option ImageryResult -> Async _ _ (option ImageryResult)) a answers,
      run (bind (q lngLat r) k) (a :: answers)
      = (fst (run (k (answer_of (q lngLat r) a)) answers),
         google_metadata_url Number_toString key point r
           :: snd (run (k (answer_of (q lngLat r) a)) answers))).
Proof.
  intros Hc Hp. cbv zeta.
  unfold GoogleStreetViewProvider.queryImagery, GoogleStreetViewProvider.query_at.
  rewrite Hc, Hp. cbn [negb].
  split; intros r k; [reflexivity|]. intros a answers.
  set (url := buildUrl _ _ _).
  exact (@one_request_answered _ _ _ url _ _ (google_read_caught Number_toString)
           (@fetchJson_at_once _ Number_toString url) k a answers).
Qed.

Lemma mapillary_queryImagery_request Number_toString M bbox_param key lngLat point :
  MapillaryProvider.isConfigured key = true ->
  toLngLat lngLat = Normal point ->
  let q := MapillaryProvider.queryImagery Number_toString M bbox_param key in
  (forall r (k : option ImageryResult -> Async _ _ (option ImageryResult)),
      run (bind (q lngLat r) k) []
      = (Pending, [mapillary_images_url Number_toString bbox_param key point r])) /\
  (forall r (k : option ImageryResult -> Async _ _ (option ImageryResult)) a answers,
      run (bind (q lngLat r) k) (a :: answers)
      = (fst (run (k (answer_of (q lngLat r) a)) answers),
         mapillary_images_url Number_toString bbox_param key point r
           :: snd (run (k (answer_of (q lngLat r) a)) answers))).
Proof.
  intros Hc Hp. cbv zeta.
  unfold MapillaryProvider.queryImagery, MapillaryProvider.query_at.
  rewrite Hc, Hp. cbn [negb].
  split; intros r k; [reflexivity|]. intros a answers.
  set (url := buildUrl _ _ _).
  exact (@one_request_answered _ _ _ url _ _
           (mapillary_read_caught Number_toString M point)
           (@fetchJson_at_once _ Number_toString url) k a answers).
Qed.

(** X14. The requests that [findNearestImagery] of a configured provider
    sends are the point queries at an initial part of its filtered radii,
    in order, none with a radius above [maxRadius]; for a target that
    [new LngLat] refuses no request is sent. *)
Theorem findNearestImagery_requests :
  forall (Number_toString : number -> string) (M : Math)
         (bbox_param : LngLat -> number -> string)
         (key : string) (lngLat : LngLatLike) (maxRadius : number),
    (GoogleStreetViewProvider.isConfigured key = true ->
     forall answers,
       (forall point,
           toLngLat lngLat = Normal point ->
           exists queried rest,
             filter (radius_allowed maxRadius) GoogleStreetViewProvider.radii
             = queried ++ rest /\
             snd (run (GoogleStreetViewProvider.findNearestImagery
                         Number_toString key lngLat maxRadius) answers)
             = map (google_metadata_url Number_toString key point) queried /\
             Forall (fun r => num_gt r maxRadius = false) queried) /\
       (forall e,
           toLngLat lngLat = Throws e ->
           snd (run (GoogleStreetViewProvider.findNearestImagery
                       Number_toString key lngLat maxRadius) answers) = [])) /\
    (MapillaryProvider.isConfigured key = true ->
     forall answers,
       (forall point,
           toLngLat lngLat = Normal point ->
           exists queried rest,
             filter (radius_allowed maxRadius) MapillaryProvider.radii = queried ++ rest /\
             snd (run (MapillaryProvider.findNearestImagery
                         Number_toString M bbox_param key lngLat maxRadius) answers)
             = map (mapillary_images_url Number_toString bbox_param key point) queried /\
             Forall (fun r => num_gt r maxRadius = false) queried) /\
       (forall e,
           toLngLat lngLat = Throws e ->
           snd (run (MapillaryProvider.findNearestImagery
                       Number_toString M bbox_param key lngLat maxRadius) answers) = [])).
Proof.
  intros Number_toString M bbox_param key lngLat maxRadius.
  split; intros Hc answers; split.
  - intros point Hp.
    destruct (@google_queryImagery_request Number_toString key lngLat point Hc Hp)
      as (Hpend & Hans).
    destruct (@findNearestImagery_loop_requests _ _ _ lngLat _ Hpend Hans maxRadius
                (filter (radius_allowed maxRadius) GoogleStreetViewProvider.radii) answers)
      as (queried & rest & H1 & H2 & H3 & _).
    exists queried, rest. repeat split; assumption.
  - intros e He. unfold GoogleStreetViewProvider.findNearestImagery.
    apply findNearestImagery_loop_thrown with (e := Error_of Number_toString e).
    intros r. unfold GoogleStreetViewProvider.queryImagery. rewrite Hc, He. reflexivity.
  - intros point Hp.
    destruct (@mapillary_queryImagery_request Number_toString M bbox_param key lngLat
                point Hc Hp) as (Hpend & Hans).
    destruct (@findNearestImagery_loop_requests _ _ _ lngLat _ Hpend Hans maxRadius
                (filter (radius_allowed maxRadius) MapillaryProvider.radii) answers)
      as (queried & rest & H1 & H2 & H3 & _).
    exists queried, rest. repeat split; assumption.
  - intros e He. unfold MapillaryProvider.findNearestImagery.
    apply findNearestImagery_loop_thrown with (e := Error_of Number_toString e).
    intros r. unfold MapillaryProvider.queryImagery. rewrite Hc, He. reflexivity.
Qed.

(** ** api.ts: [buildUrl] *)

(** The tests of the repository: values made of letters and digits. *)
Example buildUrl_tests :
  buildUrl (fun _ => "123") example_api
    [("key", PString "value"); ("num", PNumber (num 123)); ("bool", PBoolean true)]
  = "https://example.com/api?key=value&num=123&bool=true" /\
  buildUrl (fun _ => "") example_api [("key", PString "value"); ("empty", PString "")]
  = "https://example.com/api?key=value".
Proof. split; reflexivity. Qed.

(** C6 (counterexample).  A parameter whose value holds a comma is not in
    the URL character for character: the comma is written [%2C], as the
    repository's own test of [generateEmbedUrl] expects
    ([location=37.7749%2C-122.4194]).  No number is among the parameters,
    so the number printer does not matter. *)
Lemma buildUrl_value_not_verbatim :
  let url := buildUrl (fun _ => "") example_api
               [("location", PString "37.7749,-122.4194")] in
  url = "https://example.com/api?location=37.7749%2C-122.4194" /\
  contains "37.7749,-122.4194" url = false.
Proof. split; reflexivity. Qed.

Lemma starts_with_app (p s : string) : starts_with p (p ++ s) = true.
Proof.
  induction p as [|a p IH]; simpl; [reflexivity|].
  rewrite Ascii.eqb_refl. exact IH.
Qed.

Lemma contains_here (x s : string) : contains x (x ++ s) = true.
Proof.
  destruct x as [|a x]; destruct s as [|b s]; simpl; try reflexivity.
  - rewrite Ascii.eqb_refl, starts_with_app. reflexivity.
  - rewrite Ascii.eqb_refl, starts_with_app. reflexivity.
Qed.

Lemma contains_later (x p s : string) : contains x s = true -> contains x (p ++ s) = true.
Proof.
  intros H. induction p as [|a p IH]; simpl; [exact H|].
  rewrite IH. apply orb_true_r.
Qed.

Lemma contains_earlier (x s t : string) : contains x s = true -> contains x (s ++ t) = true.
Proof.
  induction s as [|a s IH]; simpl.
  - destruct x; simpl; [intros _|discriminate].
    destruct t; reflexivity.
  - intros H. apply orb_true_iff in H. destruct H as [H|H].
    + apply orb_true_iff. left.
      clear IH. revert a s H. induction x as [|b x IHx]; intros a s H; [reflexivity|].
      simpl in *. apply andb_true_iff in H. destruct H as [Hab Hx].
      rewrite Hab. simpl.
      destruct x as [|c x]; [reflexivity|].
      destruct s as [|d s]; [discriminate|].
      apply (IHx d s). exact Hx.
    + rewrite (IH H). apply orb_true_r.
Qed.

Lemma append_assoc (a b c : string) : ((a ++ b) ++ c = a ++ (b ++ c))%string.
Proof. induction a as [|x a IH]; simpl; [reflexivity | rewrite IH; reflexivity]. Qed.

Lemma append_nil_r (a : string) : (a ++ "")%string = a.
Proof. induction a as [|x a IH]; simpl; [reflexivity | rewrite IH; reflexivity]. Qed.

Lemma urlencode_unreserved (s : string) : all_unreserved s = true -> urlencode s = s.
Proof.
  induction s as [|c s IH]; simpl; [reflexivity|].
  intros H. apply andb_true_iff in H. destruct H as [Hc Hs].
  unfold urlencode_byte. rewrite Hc. simpl. rewrite (IH Hs). reflexivity.
Qed.

Lemma urlencoded_serialize_cons (k v : string) (l : list (string * string)) :
  exists tail, urlencoded_serialize ((k, v) :: l)
               = (urlencode k ++ "=" ++ urlencode v ++ tail)%string /\
               (l = [] \/ tail = ("&" ++ urlencoded_serialize l)%string).
Proof.
  destruct l as [|kv l].
  - exists ""%string. split; [|left; reflexivity].
    simpl. rewrite append_nil_r. reflexivity.
  - exists ("&" ++ urlencoded_serialize (kv :: l))%string. split; [|right; reflexivity].
    destruct kv as [k' v']. reflexivity.
Qed.

Lemma urlencoded_serialize_contains (k v : string) (l : list (string * string)) :
  In (k, v) l ->
  contains (urlencode k ++ "=" ++ urlencode v) (urlencoded_serialize l) = true.
Proof.
  induction l as [|[k' v'] l IH]; intros Hin; [destruct Hin|].
  destruct (urlencoded_serialize_cons k' v' l) as (tail & Heq & Htail).
  rewrite Heq. destruct Hin as [Hhd|Htl].
  - injection Hhd as -> ->.
    replace (urlencode k ++ "=" ++ urlencode v ++ tail)%string
      with ((urlencode k ++ "=" ++ urlencode v) ++ tail)%string
      by (rewrite !append_assoc; reflexivity).
    apply contains_here.
  - destruct Htail as [-> | ->]; [destruct Htl|].
    replace (urlencode k' ++ "=" ++ urlencode v' ++ "&" ++ urlencoded_serialize l)%string
      with ((urlencode k' ++ "=" ++ urlencode v' ++ "&") ++ urlencoded_serialize l)%string
      by (rewrite !append_assoc; reflexivity).
    apply contains_later. apply IH. exact Htl.
Qed.

Lemma is_set_false (value : ParamValue) :
  is_set value = false <->
  value = PUndefined \/ value = PNull \/ value = PString "".
Proof.
  destruct value as [| |s|n|b]; simpl; split; intros H;
    try tauto; try discriminate;
    try (destruct H as [H|[H|H]]; discriminate).
  - right. right. f_equal. apply negb_false_iff in H. apply String.eqb_eq. exact H.
  - destruct H as [H|[H|H]]; try discriminate. injection H as ->. reflexivity.
Qed.

Lemma searchParams_set_In (l : list (string * string)) (name value : string) :
  In (name, value) (searchParams_set l name value).
Proof.
  induction l as [|[k v] l IH]; simpl; [left; reflexivity|].
  destruct (String.eqb k name) eqn:E.
  - apply String.eqb_eq in E. subst. left. reflexivity.
  - right. exact IH.
Qed.

Lemma searchParams_set_other (l : list (string * string)) (name value k v : string) :
  k <> name -> In (k, v) l -> In (k, v) (searchParams_set l name value).
Proof.
  intros Hne. induction l as [|[k0 v0] l IH]; simpl; [tauto|].
  intros [Hhd|Htl].
  - injection Hhd as -> ->.
    destruct (String.eqb k name) eqn:E.
    + apply String.eqb_eq in E. contradiction.
    + left. reflexivity.
  - destruct (String.eqb k0 name) eqn:E.
    + right. unfold remove_name. apply filter_In. split; [exact Htl|].
      simpl. apply negb_true_iff. apply String.eqb_neq. exact Hne.
    + right. apply IH. exact Htl.
Qed.

Lemma searchParams_set_names (l : list (string * string)) (name value k : string) :
  In k (map fst (searchParams_set l name value)) -> k = name \/ In k (map fst l).
Proof.
  induction l as [|[k0 v0] l IH]; simpl.
  - intros [H|[]]. left. symmetry. exact H.
  - destruct (String.eqb k0 name) eqn:E; simpl.
    + intros [H|H]; [right; left; exact H|].
      right. right. unfold remove_name in H.
      apply in_map_iff in H. destruct H as (kv & Hk & Hin).
      apply filter_In in Hin. apply in_map_iff. exists kv. tauto.
    + intros [H|H]; [right; left; exact H|].
      destruct (IH H) as [H'|H']; [left; exact H' | right; right; exact H'].
Qed.

Lemma distinct_keys_NoDup (keys : list string) : distinct_keys keys = true -> NoDup keys.
Proof.
  induction keys as [|k keys IH]; simpl; intros H; [constructor|].
  apply andb_true_iff in H. destruct H as [Hfresh Hrest].
  constructor; [|apply IH; exact Hrest].
  intros Hin. apply negb_true_iff in Hfresh.
  assert (Hex : existsb (String.eqb k) keys = true).
  { apply existsb_exists. exists k. split; [exact Hin | apply String.eqb_refl]. }
  congruence.
Qed.

Lemma NoDup_keys_functional (A : Type) (l : list (string * A)) (k : string) (v v' : A) :
  NoDup (map fst l) -> In (k, v) l -> In (k, v') l -> v = v'.
Proof.
  induction l as [|[k0 v0] l IH]; intros Hnd Hin Hin'; [destruct Hin|].
  simpl in Hnd. inversion Hnd as [|? ? Hfresh Hnd']; subst.
  destruct Hin as [H|H], Hin' as [H'|H'].
  - congruence.
  - injection H as -> ->. exfalso. apply Hfresh.
    apply in_map_iff. exists (k, v'). split; [reflexivity | exact H'].
  - injection H' as -> ->. exfalso. apply Hfresh.
    apply in_map_iff. exists (k, v). split; [reflexivity | exact H].
  - apply IH; assumption.
Qed.

(** [set] leaves the pairs of another name as they are, and leaves one
    pair of its own name. *)
Lemma searchParams_set_named_other (l : list (string * string)) (name value key : string) :
  key <> name -> named key (searchParams_set l name value) = named key l.
Proof.
  intros Hne. unfold named.
  induction l as [|[k v] l IH]; cbn.
  - destruct (String.eqb name key) eqn:E; [|reflexivity].
    apply String.eqb_eq in E. exfalso. apply Hne. symmetry. exact E.
  - destruct (String.eqb k name) eqn:E; cbn.
    + apply String.eqb_eq in E. subst k.
      assert (E' : String.eqb name key = false).
      { apply String.eqb_neq. intros H. apply Hne. symmetry. exact H. }
      rewrite E'. unfold remove_name. clear IH.
      induction l as [|[k v'] l IH]; cbn; [reflexivity|].
      destruct (String.eqb k name) eqn:Ek; cbn.
      * apply String.eqb_eq in Ek. subst k. rewrite E'. exact IH.
      * destruct (String.eqb k key); [f_equal|]; exact IH.
    + destruct (String.eqb k key); [f_equal|]; exact IH.
Qed.

Lemma searchParams_set_named (l : list (string * string)) (name value : string) :
  named name (searchParams_set l name value) = [(name, value)].
Proof.
  unfold named. induction l as [|[k v] l IH]; cbn.
  - rewrite String.eqb_refl. reflexivity.
  - destruct (String.eqb k name) eqn:E; cbn; rewrite E.
    + apply String.eqb_eq in E. subst k.
      f_equal. unfold remove_name. clear IH.
      induction l as [|[k' v'] l IH]; cbn; [reflexivity|].
      destruct (String.eqb k' name) eqn:E'; cbn; [exact IH|].
      rewrite E'. exact IH.
    + exact IH.
Qed.

Section BuildUrlQuery.
Variable Number_toString : number -> string.
Let turn := set_param Number_toString.

(** The pairs named [key] change only at a parameter named [key] that
    has a value. *)
Lemma fold_named_other (key : string) (params : list (string * ParamValue)) :
  forall l,
    (forall v, In (key, v) params -> is_set v = false) ->
    named key (fold_left turn params l) = named key l.
Proof.
  induction params as [|[k0 v0] params IH]; intros l Hunset; cbn [fold_left];
    [reflexivity|].
  rewrite IH by (intros v Hv; apply Hunset; right; exact Hv).
  unfold turn, set_param. destruct (is_set v0) eqn:E; [|reflexivity].
  apply searchParams_set_named_other. intros ->.
  rewrite (Hunset v0 (or_introl eq_refl)) in E. discriminate.
Qed.

Lemma fold_named_set (key : string) (value : ParamValue)
      (params : list (string * ParamValue)) :
  forall l,
    NoDup (map fst params) -> In (key, value) params -> is_set value = true ->
    named key (fold_left turn params l) = [(key, String_of Number_toString value)].
Proof.
  induction params as [|[k0 v0] params IH]; intros l Hnd Hin Hset; [destruct Hin|].
  cbn in Hnd. inversion Hnd as [|? ? Hfresh Hnd']; subst.
  cbn [fold_left]. destruct Hin as [Hhd|Htl].
  - injection Hhd as -> ->.
    rewrite fold_named_other.
    + unfold turn, set_param. rewrite Hset. apply searchParams_set_named.
    + intros v Hv. exfalso. apply Hfresh. apply in_map_iff.
      exists (key, v). split; [reflexivity | exact Hv].
  - apply IH; assumption.
Qed.

(** Parameters without a value leave the pairs as they are. *)
Lemma fold_unset (params : list (string * ParamValue)) :
  any_set params = false -> forall l, fold_left turn params l = l.
Proof.
  induction params as [|[k v] params IH]; intros Ha l; [reflexivity|].
  unfold any_set in Ha. cbn [existsb snd] in Ha.
  apply orb_false_iff in Ha. destruct Ha as [Ev Ea].
  cbn [fold_left].
  replace (turn l (k, v)) with l by (unfold turn, set_param; rewrite Ev; reflexivity).
  apply IH. exact Ea.
Qed.

Lemma turn_set (l : list (string * string)) (key : string) (value : ParamValue) :
  is_set value = true ->
  turn l (key, value) = searchParams_set l key (String_of Number_toString value).
Proof. intros E. unfold turn, set_param. rewrite E. reflexivity. Qed.

Lemma turn_unset (l : list (string * string)) (key : string) (value : ParamValue) :
  is_set value = false -> turn l (key, value) = l.
Proof. intros E. unfold turn, set_param. rewrite E. reflexivity. Qed.

(** The fold of [buildUrl] on the URL object: the query is written anew
    as soon as a parameter has a value. *)
Lemma buildUrl_fold (params : list (string * ParamValue)) :
  forall baseUrl,
    fold_left
      (fun url kv =>
         let '(key, value) := kv in
         if is_set value then URL_set url key (String_of Number_toString value) else url)
      params baseUrl
    = if any_set params
      then {| origin_and_path := origin_and_path baseUrl;
              query := query_of (fold_left turn params (searchParams baseUrl));
              searchParams := fold_left turn params (searchParams baseUrl);
              hash := hash baseUrl |}
      else baseUrl.
Proof.
  induction params as [|[key value] params IH]; intros baseUrl; [reflexivity|].
  cbn [fold_left]. rewrite IH.
  unfold any_set. cbn [existsb snd]. fold (any_set params).
  destruct (is_set value) eqn:E; cbn [orb].
  - rewrite turn_set by exact E.
    destruct (any_set params) eqn:Ea; [reflexivity|].
    unfold URL_set. rewrite !fold_unset by exact Ea. reflexivity.
  - rewrite turn_unset by exact E. reflexivity.
Qed.

(** When a parameter has a value the pairs are not empty. *)
Lemma fold_not_empty (params : list (string * ParamValue)) :
  forall l, any_set params = true -> fold_left turn params l <> [].
Proof.
  induction params as [|[k v] params IH]; intros l Hany; [discriminate|].
  unfold any_set in Hany. cbn [existsb snd] in Hany. fold (any_set params) in Hany.
  cbn [fold_left].
  destruct (any_set params) eqn:Ea; [apply IH; reflexivity|].
  rewrite orb_false_r in Hany.
  rewrite fold_unset by exact Ea. rewrite turn_set by exact Hany.
  destruct l as [|[k0 v0] l]; cbn; [discriminate|].
  destruct (String.eqb k0 k); discriminate.
Qed.
End BuildUrlQuery.

Lemma urlencoded_serialize_not_empty (l : list (string * string)) :
  l <> [] -> query_of l = Some (urlencoded_serialize l).
Proof.
  intros Hne. unfold query_of.
  destruct l as [|[k v] l]; [contradiction|].
  destruct (urlencoded_serialize_cons k v l) as (tail & -> & _).
  destruct (urlencode k); reflexivity.
Qed.

(** What [buildUrl] returns. *)
Lemma buildUrl_result Number_toString (baseUrl : URL) (params : list (string * ParamValue)) :
  let pairs := fold_left (set_param Number_toString) params (searchParams baseUrl) in
  (any_set params = true ->
   buildUrl Number_toString baseUrl params
   = (origin_and_path baseUrl ++ "?" ++ urlencoded_serialize pairs
      ++ fragment baseUrl)%string) /\
  (any_set params = false ->
   buildUrl Number_toString baseUrl params = URL_toString baseUrl).
Proof.
  cbv zeta. unfold buildUrl. rewrite buildUrl_fold.
  split; intros Hany; rewrite Hany; [|reflexivity].
  unfold URL_toString, fragment. cbn [origin_and_path query hash].
  rewrite urlencoded_serialize_not_empty by (apply fold_not_empty; exact Hany).
  reflexivity.
Qed.

(** The text of a key or value is in the query unchanged exactly when it
    is made of unreserved characters. *)
Lemma urlencode_length (s : string) : (String.length s <= String.length (urlencode s))%nat.
Proof.
  induction s as [|c s IH]; cbn; [lia|].
  unfold urlencode_byte. destruct (is_unreserved c); cbn; [lia|].
  destruct (Ascii.eqb c " "); cbn; lia.
Qed.

Lemma urlencode_verbatim (s : string) : urlencode s = s <-> all_unreserved s = true.
Proof.
  split; [|apply urlencode_unreserved].
  induction s as [|c s IH]; cbn; [reflexivity|].
  unfold urlencode_byte. destruct (is_unreserved c) eqn:Hc; cbn.
  - intros H. injection H as H. apply IH. exact H.
  - destruct (Ascii.eqb c " ") eqn:Hs; cbn.
    + apply Ascii.eqb_eq in Hs. subst c. intros H. discriminate.
    + intros H. injection H as _ H.
      pose proof (urlencode_length s) as Hlen.
      apply (f_equal String.length) in H. cbn in H. lia.
Qed.

(** C6 (amended).  For every base URL and every parameter record,
    [buildUrl] adds nothing to the query for a parameter whose value is
    the empty string, null or undefined (the pairs of that name are those
    of the base URL), and sets every other parameter to [String(value)],
    the one pair of its name.  When a parameter has a value the query
    string is the application/x-www-form-urlencoded form of the pairs, in
    which [urlencode key = urlencode value] stands for a pair, and the
    text of a key or value is there unchanged exactly when it is made of
    letters, digits, [*], [-], [.] and [_]; when none has a value the URL
    is the base URL as it was parsed. *)
Theorem buildUrl_parameters :
  forall (Number_toString : number -> string) (baseUrl : URL)
         (params : list (string * ParamValue)),
    distinct_keys (map fst params) = true ->
    exists pairs,
      (any_set params = true ->
       buildUrl Number_toString baseUrl params
       = (origin_and_path baseUrl ++ "?" ++ urlencoded_serialize pairs
      ++ fragment baseUrl)%string) /\
      (any_set params = false ->
       buildUrl Number_toString baseUrl params = URL_toString baseUrl) /\
      (forall key value,
          In (key, value) params ->
          value = PUndefined \/ value = PNull \/ value = PString "" ->
          named key pairs = named key (searchParams baseUrl)) /\
      (forall key value,
          In (key, value) params ->
          value <> PUndefined -> value <> PNull -> value <> PString "" ->
          let text := String_of Number_toString value in
          named key pairs = [(key, text)] /\
          contains (urlencode key ++ "=" ++ urlencode text)
                   (buildUrl Number_toString baseUrl params) = true) /\
      (forall text, urlencode text = text <-> all_unreserved text = true).
Proof.
  intros Number_toString baseUrl params Hkeys.
  apply distinct_keys_NoDup in Hkeys.
  exists (fold_left (set_param Number_toString) params (searchParams baseUrl)).
  destruct (buildUrl_result Number_toString baseUrl params) as [Hset Hnone].
  split; [exact Hset|]. split; [exact Hnone|]. split; [|split].
  - intros key value Hin Hunset. apply is_set_false in Hunset.
    apply fold_named_other. intros v Hv.
    rewrite (@NoDup_keys_functional _ _ _ _ _ Hkeys Hv Hin). exact Hunset.
  - intros key value Hin H1 H2 H3 text.
    assert (Hv : is_set value = true).
    { destruct (is_set value) eqn:E; [reflexivity|].
      apply is_set_false in E. tauto. }
    assert (Hnamed : named key (fold_left (set_param Number_toString) params
                                  (searchParams baseUrl)) = [(key, text)]).
    { apply fold_named_set; assumption. }
    split; [exact Hnamed|].
    assert (Hany : any_set params = true).
    { unfold any_set. apply existsb_exists. exists (key, value). split; assumption. }
    rewrite (Hset Hany).
    apply contains_later. apply (contains_later _ "?"). apply contains_earlier.
    apply urlencoded_serialize_contains.
    assert (Hin' : In (key, text) (named key (fold_left (set_param Number_toString) params
                                              (searchParams baseUrl)))).
    { rewrite Hnamed. left. reflexivity. }
    unfold named in Hin'. apply filter_In in Hin'. apply Hin'.
  - apply urlencode_verbatim.
Qed.

(** The theorem at the parameters of the repository's test
    ['ignores empty values']. *)
Lemma buildUrl_parameters_witness :
  let params := [("key", PString "value"); ("empty", PString "")] in
  exists pairs,
    (any_set params = true ->
     buildUrl (fun _ => "") example_api params
     = (origin_and_path example_api ++ "?" ++ urlencoded_serialize pairs
        ++ fragment example_api)%string) /\
    (any_set params = false ->
     buildUrl (fun _ => "") example_api params = URL_toString example_api) /\
    (forall key value,
        In (key, value) params ->
        value = PUndefined \/ value = PNull \/ value = PString "" ->
        named key pairs = named key (searchParams example_api)) /\
    (forall key value,
        In (key, value) params ->
        value <> PUndefined -> value <> PNull -> value <> PString "" ->
        let text := String_of (fun _ => "") value in
        named key pairs = [(key, text)] /\
        contains (urlencode key ++ "=" ++ urlencode text)
                 (buildUrl (fun _ => "") example_api params) = true) /\
    (forall text, urlencode text = text <-> all_unreserved text = true).
Proof.
  apply (buildUrl_parameters (fun _ => "") example_api
           [("key", PString "value"); ("empty", PString "")]).
  reflexivity.
Defined.

(** ** StreetViewControl.ts *)

(** Runs the methods of the control on a symbolic state: the record
    updates are computed, what depends on the state stays. *)
Ltac control_compute :=
  cbv beta iota zeta delta
    [expand collapse toggle updatePanelPosition handleHeadingChange
     clearStreetView showStreetView_found showStreetView_none
     showStreetView_catch searchNearest_found showNoData
     emit notify getState with_state with_viewer with_marker with_panel
     with_container with_tabs set_noDataMessage set_eventHandlers broadcast
     set_collapsed set_activeProvider set_location set_imagery set_heading
     set_loading set_error
     _map _container _button _options _panel _tabs _viewer _noDataMessage
     _marker _googleProvider _mapillaryProvider _state _eventHandlers notified
     collapsed activeProvider location imagery heading pitch loading error
     option_map fst snd negb andb orb same_data_state].

Ltac control_cases :=
  control_compute;
  repeat match goal with
         | |- context [match ?x with _ => _ end] =>
             is_var x; destruct x; control_compute
         end.

(** The control and its state as records of variables. *)
Ltac destruct_control c :=
  destruct c as [? ? ? ? ? ? ? ? ? ? ? [? ? ? ? ? ? ? ?] ? ?].

Lemma ProviderType_eqb_eq (a b : ProviderType) : ProviderType_eqb a b = true <-> a = b.
Proof. destruct a, b; simpl; split; intros H; try reflexivity; discriminate. Qed.

(** *** Expand and collapse *)

Lemma expand_expanded (c : StreetViewControl) :
  collapsed (_state c) = false -> expand c = c.
Proof. intros H. unfold expand. rewrite H. reflexivity. Qed.

Lemma collapse_collapsed (c : StreetViewControl) :
  collapsed (_state c) = true -> collapse c = c.
Proof. intros H. unfold collapse. rewrite H. reflexivity. Qed.

Lemma expand_result (c : StreetViewControl) :
  collapsed (_state (expand c)) = false /\
  same_data_state (_state c) (_state (expand c)) /\
  _eventHandlers (expand c) = _eventHandlers c.
Proof. destruct_control c. control_cases; repeat split; reflexivity. Qed.

Lemma collapse_result (c : StreetViewControl) :
  collapsed (_state (collapse c)) = true /\
  same_data_state (_state c) (_state (collapse c)) /\
  _eventHandlers (collapse c) = _eventHandlers c.
Proof. destruct_control c. control_cases; repeat split; reflexivity. Qed.

Lemma expand_notified (c : StreetViewControl) :
  notified (expand c) =
  notified c ++
  (if collapsed (_state c)
   then broadcast ev_expand None (expand c) ++ broadcast ev_statechange None (expand c)
   else []).
Proof.
  destruct_control c.
  control_cases; rewrite ?app_nil_r, <- ?app_assoc; reflexivity.
Qed.

Lemma collapse_notified (c : StreetViewControl) :
  notified (collapse c) =
  notified c ++
  (if collapsed (_state c)
   then []
   else broadcast ev_collapse None (collapse c)
        ++ broadcast ev_statechange None (collapse c)).
Proof.
  destruct_control c.
  control_cases; rewrite ?app_nil_r, <- ?app_assoc; reflexivity.
Qed.

(** The panel is shown by [expand] and hidden by [collapse], when the
    call changes the flag. *)
Lemma expand_collapse_panel (c : StreetViewControl) :
  (collapsed (_state c) = true ->
   option_map panel_expanded (_panel (expand c))
   = option_map (fun _ => true) (_panel c)) /\
  (collapsed (_state c) = false ->
   option_map panel_expanded (_panel (collapse c))
   = option_map (fun _ => false) (_panel c)).
Proof.
  destruct_control c.
  split; control_compute; intros ->; control_cases; reflexivity.
Qed.



(** *** [setProvider] *)

Lemma getCurrentProvider_configured (c : StreetViewControl) :
  getCurrentProvider c =
  if configured c (activeProvider (_state c))
  then Some (activeProvider (_state c)) else None.
Proof.
  unfold getCurrentProvider, configured.
  destruct (activeProvider (_state c));
    [destruct (_googleProvider c) | destruct (_mapillaryProvider c)]; reflexivity.
Qed.

Lemma showNoData_state (m : option string) (c : StreetViewControl) :
  _state (showNoData m c) = _state c /\
  notified (showNoData m c) = notified c /\
  _eventHandlers (showNoData m c) = _eventHandlers c.
Proof. destruct_control c. control_cases; repeat split; reflexivity. Qed.

(** [showStreetView] at a location that [new LngLat] refuses. *)
Lemma showStreetView_refused (lngLat : LngLatLike) (e : LngLatError)
      (c : StreetViewControl) :
  toLngLat lngLat = Throws e -> showStreetView lngLat c = (c, None).
Proof. intros H. unfold showStreetView. rewrite H. reflexivity. Qed.

(** [showStreetView] when the active provider has an instance. *)
Lemma showStreetView_configured (lngLat : LngLatLike) (location0 : LngLat)
      (c : StreetViewControl) :
  toLngLat lngLat = Normal location0 ->
  configured c (activeProvider (_state c)) = true ->
  let r := showStreetView lngLat c in
  snd r = Some (ShowStreetView_queryImagery (activeProvider (_state c)) location0) /\
  _state (fst r) =
    set_error None (set_loading true (set_location (Some location0) (_state c))) /\
  notified (fst r) = notified c ++ broadcast ev_locationchange None (fst r) /\
  _eventHandlers (fst r) = _eventHandlers c.
Proof.
  intros Hl Hc. unfold showStreetView. rewrite Hl, getCurrentProvider_configured, Hc.
  clear Hc. destruct_control c. control_cases; repeat split; reflexivity.
Qed.

(** [showStreetView] when it has not. *)
Lemma showStreetView_unconfigured (lngLat : LngLatLike) (location0 : LngLat)
      (c : StreetViewControl) :
  toLngLat lngLat = Normal location0 ->
  configured c (activeProvider (_state c)) = false ->
  showStreetView lngLat c
  = (showNoData (Some "No street view provider is configured.") c, None).
Proof.
  intros Hl Hc. unfold showStreetView. rewrite Hl, getCurrentProvider_configured, Hc.
  reflexivity.
Qed.

Lemma showStreetView_activeProvider (lngLat : LngLatLike) (c : StreetViewControl) :
  activeProvider (_state (fst (showStreetView lngLat c))) = activeProvider (_state c).
Proof.
  destruct (toLngLat lngLat) as [location0|e] eqn:Hl;
    [|rewrite (@showStreetView_refused lngLat e c Hl); reflexivity].
  destruct (configured c (activeProvider (_state c))) eqn:Hc.
  - destruct (@showStreetView_configured lngLat location0 c Hl Hc) as (_ & Hs & _).
    rewrite Hs. reflexivity.
  - rewrite (@showStreetView_unconfigured lngLat location0 c Hl Hc). cbn [fst].
    destruct (showNoData_state (Some "No street view provider is configured.") c)
      as (Hs & _).
    rewrite Hs. reflexivity.
Qed.

Lemma setProvider_same (p : ProviderType) (c : StreetViewControl) :
  activeProvider (_state c) = p -> setProvider p c = (c, None).
Proof.
  intros H. unfold setProvider.
  apply ProviderType_eqb_eq in H. rewrite H. reflexivity.
Qed.

(** [setProvider] with another provider, step by step. *)
Lemma setProvider_other (p : ProviderType) (c : StreetViewControl) :
  ProviderType_eqb (activeProvider (_state c)) p = false ->
  let c1 := with_tabs p (with_state (set_activeProvider p) c) in
  let r := match location (_state c) with
           | Some l => showStreetView (LngLatInstance l) c1
           | None => (with_viewer ViewerOps.showInitialState c1, None)
           end in
  setProvider p c
  = (emit ev_statechange None (emit ev_providerchange None (fst r)), snd r).
Proof.
  intros H. unfold setProvider. rewrite H. cbv zeta.
  change (location (_state (with_tabs p (with_state (set_activeProvider p) c))))
    with (location (_state c)).
  destruct (location (_state c)) as [l|].
  - destruct (showStreetView (LngLatInstance l)
                (with_tabs p (with_state (set_activeProvider p) c))).
    reflexivity.
  - reflexivity.
Qed.

Lemma setProvider_activeProvider (p : ProviderType) (c : StreetViewControl) :
  activeProvider (_state (fst (setProvider p c))) = p.
Proof.
  destruct (ProviderType_eqb (activeProvider (_state c)) p) eqn:E.
  - apply ProviderType_eqb_eq in E. rewrite (setProvider_same c E). exact E.
  - rewrite (setProvider_other p c E). cbn [fst].
    destruct (location (_state c)) as [l|].
    + change (activeProvider
                (_state (fst (showStreetView (LngLatInstance l)
                                (with_tabs p (with_state (set_activeProvider p) c))))) = p).
      rewrite showStreetView_activeProvider. reflexivity.
    + reflexivity.
Qed.

(** C10.  [setProvider] with the provider that is active, [expand()] on
    an expanded panel and [collapse()] on a collapsed one return the
    control as it is: no field of the state changes, no lookup is started
    and no handler is called.  Hence a second call of any of the three
    does nothing more than the first. *)
Theorem repeated_calls_do_nothing :
  forall c : StreetViewControl,
    (forall p, activeProvider (_state c) = p -> setProvider p c = (c, None)) /\
    (collapsed (_state c) = false -> expand c = c) /\
    (collapsed (_state c) = true -> collapse c = c) /\
    (forall p, setProvider p (fst (setProvider p c)) = (fst (setProvider p c), None)) /\
    expand (expand c) = expand c /\
    collapse (collapse c) = collapse c.
Proof.
  intros c. repeat split.
  - intros p H. apply setProvider_same. exact H.
  - apply expand_expanded.
  - apply collapse_collapsed.
  - intros p. apply setProvider_same. apply setProvider_activeProvider.
  - apply expand_expanded. apply expand_result.
  - apply collapse_collapsed. apply collapse_result.
Qed.

(** C7.  When [setProvider] is called with a provider other than the
    active one while the state holds a location, [showStreetView] is
    called at that location at once, before the notifications, with the
    new provider active: when that provider has an instance, its
    [queryImagery] is awaited at the stored location and the state is
    loading; when it has none, the no-data message is shown instead. *)
Theorem setProvider_requeries :
  forall (c : StreetViewControl) (p : ProviderType) (l : LngLat),
    ProviderType_eqb (activeProvider (_state c)) p = false ->
    location (_state c) = Some l ->
    let c1 := with_tabs p (with_state (set_activeProvider p) c) in
    activeProvider (_state c1) = p /\
    setProvider p c
    = (emit ev_statechange None
         (emit ev_providerchange None (fst (showStreetView (LngLatInstance l) c1))),
       snd (showStreetView (LngLatInstance l) c1)) /\
    (configured c p = true ->
     snd (setProvider p c) = Some (ShowStreetView_queryImagery p l) /\
     loading (_state (fst (setProvider p c))) = true /\
     location (_state (fst (setProvider p c))) = Some l /\
     activeProvider (_state (fst (setProvider p c))) = p) /\
    (configured c p = false ->
     setProvider p c
     = (emit ev_statechange None
          (emit ev_providerchange None
             (showNoData (Some "No street view provider is configured.") c1)),
        None)).
Proof.
  intros c p l Hne Hloc c1.
  assert (Hset : setProvider p c
                 = (emit ev_statechange None
                      (emit ev_providerchange None
                         (fst (showStreetView (LngLatInstance l) c1))),
                    snd (showStreetView (LngLatInstance l) c1))).
  { rewrite (setProvider_other p c Hne). rewrite Hloc. reflexivity. }
  split; [reflexivity|]. split; [exact Hset|].
  assert (Hconf : configured c1 (activeProvider (_state c1)) = configured c p)
    by reflexivity.
  split.
  - intros Hc. rewrite <- Hconf in Hc.
    destruct (@showStreetView_configured (LngLatInstance l) l c1 eq_refl Hc)
      as (Ht & Hs & _).
    rewrite Hset. cbn [fst snd].
    change (_state (emit ev_statechange None
                      (emit ev_providerchange None
                         (fst (showStreetView (LngLatInstance l) c1)))))
      with (_state (fst (showStreetView (LngLatInstance l) c1))).
    rewrite Ht, Hs. repeat split; reflexivity.
  - intros Hc. rewrite <- Hconf in Hc.
    rewrite Hset.
    rewrite (@showStreetView_unconfigured (LngLatInstance l) l c1 eq_refl Hc).
    reflexivity.
Qed.

(** *** The loading flag *)

Lemma emit_state (event : StreetViewEvent) (err : option JSError) (c : StreetViewControl) :
  _state (emit event err c) = _state c /\
  _eventHandlers (emit event err c) = _eventHandlers c /\
  notified (emit event err c) = notified c ++ broadcast event err c.
Proof. repeat split; reflexivity. Qed.

Lemma showStreetView_found_state (p : ProviderType) (img : ImageryResult)
      (c : StreetViewControl) :
  _state (showStreetView_found p img c)
  = set_loading false (set_imagery (Some img) (_state c)) /\
  _eventHandlers (showStreetView_found p img c) = _eventHandlers c /\
  notified (showStreetView_found p img c)
  = notified c ++ broadcast ev_load None (showStreetView_found p img c).
Proof.
  unfold showStreetView_found.
  destruct (ImageryResult.heading img); destruct_control c;
    control_cases; repeat split; reflexivity.
Qed.

Lemma showStreetView_none_state (c : StreetViewControl) :
  _state (showStreetView_none c) = set_loading false (_state c) /\
  _eventHandlers (showStreetView_none c) = _eventHandlers c /\
  notified (showStreetView_none c) = notified c.
Proof. destruct_control c. control_cases; repeat split; reflexivity. Qed.

Lemma showStreetView_catch_state (e : JSError) (c : StreetViewControl) :
  _state (showStreetView_catch e c)
  = set_error (Some (error_message_or "Unknown error" e))
              (set_loading false (_state c)) /\
  _eventHandlers (showStreetView_catch e c) = _eventHandlers c /\
  notified (showStreetView_catch e c)
  = notified c ++ broadcast ev_error (Some (as_Error e)) (showStreetView_catch e c).
Proof. destruct_control c. control_cases; repeat split; reflexivity. Qed.

Lemma searchNearest_found_state (p : ProviderType) (img : ImageryResult)
      (c : StreetViewControl) :
  _state (searchNearest_found p img c) = set_imagery (Some img) (_state c) /\
  _eventHandlers (searchNearest_found p img c) = _eventHandlers c /\
  notified (searchNearest_found p img c)
  = notified c ++ broadcast ev_load None (searchNearest_found p img c).
Proof.
  unfold searchNearest_found.
  destruct (ImageryResult.heading img); destruct_control c;
    control_cases; repeat split; reflexivity.
Qed.

(** A lookup that is resumed either settles, with [loading] reset, or
    goes on to the search nearby, still in flight. *)
Lemma resume_lookup (t : Task) (answer : Settled (option ImageryResult))
      (c : StreetViewControl) :
  is_lookup t = true ->
  (snd (resume t answer c) = None /\
   loading (_state (fst (resume t answer c))) = false) \/
  (exists p l, t = ShowStreetView_queryImagery p l /\ answer = Fulfilled None /\
               snd (resume t answer c)
               = Some (ShowStreetView_findNearestImagery p l (maxSearchRadius (_options c))) /\
               _state (fst (resume t answer c)) = _state c).
Proof.
  intros Hl. destruct t as [p l|p l r|p l]; [| |discriminate];
    destruct answer as [[img|]|e]; cbn [resume fst snd].
  - left. split; [reflexivity|].
    rewrite (proj1 (emit_state _ _ _)).
    rewrite (proj1 (showStreetView_found_state p img c)). reflexivity.
  - right. exists p, l. repeat split; reflexivity.
  - left. split; [reflexivity|].
    rewrite (proj1 (emit_state _ _ _)).
    rewrite (proj1 (showStreetView_catch_state e c)). reflexivity.
  - left. split; [reflexivity|].
    rewrite (proj1 (emit_state _ _ _)).
    rewrite (proj1 (showStreetView_found_state p img c)). reflexivity.
  - left. split; [reflexivity|].
    rewrite (proj1 (emit_state _ _ _)).
    rewrite (proj1 (showStreetView_none_state c)). reflexivity.
  - left. split; [reflexivity|].
    rewrite (proj1 (emit_state _ _ _)).
    rewrite (proj1 (showStreetView_catch_state e c)). reflexivity.
Qed.

(** The search started from the no-data message does not touch the flag. *)
Lemma resume_search (t : Task) (answer : Settled (option ImageryResult))
      (c : StreetViewControl) :
  is_lookup t = false ->
  snd (resume t answer c) = None /\
  loading (_state (fst (resume t answer c))) = loading (_state c).
Proof.
  intros Hl. destruct t as [p l|p l r|p l]; [discriminate|discriminate|].
  split; [reflexivity|].
  destruct answer as [[img|]|e]; cbn [resume fst snd];
    rewrite (proj1 (emit_state _ _ _)).
  - rewrite (proj1 (searchNearest_found_state p img c)). reflexivity.
  - reflexivity.
  - reflexivity.
Qed.

Lemma onAdd_state (c : StreetViewControl) : _state (onAdd c) = _state c.
Proof.
  unfold onAdd. destruct_control c.
  cbv beta iota zeta delta [_state _options collapsed negb].
  destruct collapsed0.
  - destruct (showMarker _options0); reflexivity.
  - rewrite expand_expanded by reflexivity.
    cbv beta iota zeta delta [_state _options].
    destruct (showMarker _options0); reflexivity.
Qed.

Lemma searchNearest_state (c : StreetViewControl) :
  _state (fst (searchNearest c)) = _state c /\
  forall t, snd (searchNearest c) = Some t -> is_lookup t = false.
Proof.
  unfold searchNearest.
  destruct (location (_state c)); cbn [fst snd]; [|split; [reflexivity | discriminate]].
  destruct (getCurrentProvider c); cbn [fst snd].
  - split; [reflexivity|]. intros t H. injection H as <-. reflexivity.
  - split; [reflexivity | discriminate].
Qed.

Lemma showStreetView_loading (lngLat : LngLatLike) (c : StreetViewControl) :
  starts_lookup_or_keeps_loading c (showStreetView lngLat c).
Proof.
  destruct (toLngLat lngLat) as [location0|e] eqn:Hl;
    [|right; rewrite (@showStreetView_refused lngLat e c Hl); reflexivity].
  destruct (configured c (activeProvider (_state c))) eqn:Hc.
  - left. destruct (@showStreetView_configured lngLat location0 c Hl Hc) as (Ht & _).
    eexists. split; [exact Ht | reflexivity].
  - right. rewrite (@showStreetView_unconfigured lngLat location0 c Hl Hc). cbn [fst].
    destruct (showNoData_state (Some "No street view provider is configured.") c)
      as (-> & _).
    reflexivity.
Qed.

Lemma setProvider_loading (p : ProviderType) (c : StreetViewControl) :
  starts_lookup_or_keeps_loading c (setProvider p c).
Proof.
  destruct (ProviderType_eqb (activeProvider (_state c)) p) eqn:E.
  - apply ProviderType_eqb_eq in E. rewrite (setProvider_same c E).
    right. reflexivity.
  - rewrite (setProvider_other p c E).
    destruct (location (_state c)) as [l|]; cbn [fst snd].
    + destruct (showStreetView_loading (LngLatInstance l)
                  (with_tabs p (with_state (set_activeProvider p) c)))
        as [(t & Ht & Hl)|Hl].
      * left. exists t. split; assumption.
      * right. exact Hl.
    + right. reflexivity.
Qed.

Lemma handleMapClick_loading (lngLat : LngLat) (c : StreetViewControl) :
  starts_lookup_or_keeps_loading c (handleMapClick lngLat c).
Proof.
  unfold handleMapClick. destruct (collapsed (_state c)).
  - right. reflexivity.
  - apply showStreetView_loading.
Qed.

Lemma searchNearest_loading (c : StreetViewControl) :
  starts_lookup_or_keeps_loading c (searchNearest c).
Proof. right. destruct (searchNearest_state c) as (-> & _). reflexivity. Qed.

Lemma nth_error_firstn_skipn (A : Type) (l : list A) :
  forall i x, nth_error l i = Some x -> l = firstn i l ++ x :: skipn (S i) l.
Proof.
  induction l as [|a l IH]; intros [|i] x H; simpl in *; try discriminate.
  - injection H as ->. reflexivity.
  - f_equal. apply IH. exact H.
Qed.

Lemma started_invariant (s : System) (r : StreetViewControl * option Task) :
  loading_invariant s ->
  starts_lookup_or_keeps_loading (control s) r ->
  loading_invariant (started r (inflight s)).
Proof.
  unfold loading_invariant, lookup_in_flight, started. simpl.
  intros Hinv [(t & Ht & Hl)|Hl] Hload; rewrite existsb_app.
  - rewrite Ht. simpl. rewrite Hl. rewrite orb_true_r. reflexivity.
  - rewrite Hinv; [reflexivity|]. rewrite <- Hl. exact Hload.
Qed.

Lemma same_data_state_loading (s s' : StreetViewState) :
  same_data_state s s' -> loading s' = loading s.
Proof. intros (_ & _ & _ & _ & _ & H & _). exact H. Qed.

Lemma settle_invariant (s : System) (i : nat) (t : Task)
      (answer : Settled (option ImageryResult)) :
  loading_invariant s ->
  nth_error (inflight s) i = Some t ->
  loading_invariant
    {| control := fst (resume t answer (control s));
       inflight := firstn i (inflight s)
                   ++ suspended (snd (resume t answer (control s)))
                   ++ skipn (S i) (inflight s) |}.
Proof.
  unfold loading_invariant, lookup_in_flight. simpl.
  intros Hinv Hnth Hload.
  pose proof (nth_error_firstn_skipn _ _ Hnth) as Hsplit.
  destruct (is_lookup t) eqn:Hl.
  - destruct (resume_lookup t answer (control s) Hl)
      as [(_ & Hfalse)|(p & l & _ & _ & Ht & _)].
    + congruence.
    + rewrite Ht. simpl. rewrite existsb_app. simpl. apply orb_true_r.
  - destruct (resume_search t answer (control s) Hl) as (Ht & Hsame).
    rewrite Ht. simpl. rewrite Hsame in Hload. specialize (Hinv Hload).
    rewrite Hsplit in Hinv. rewrite existsb_app in *. simpl in Hinv.
    rewrite Hl in Hinv. exact Hinv.
Qed.

Lemma step_invariant (s : System) (a : Action) :
  loading_invariant s -> loading_invariant (step s a).
Proof.
  intros Hinv.
  destruct a as [| |ev h|ev h|lngLat|lngLat| |p| | | |h| |i answer]; simpl.
  - unfold loading_invariant, lookup_in_flight in *. simpl.
    rewrite onAdd_state. exact Hinv.
  - exact Hinv.
  - exact Hinv.
  - exact Hinv.
  - destruct (_map (control s) && clickToView (_options (control s))); [|exact Hinv].
    apply started_invariant; [exact Hinv | apply handleMapClick_loading].
  - apply started_invariant; [exact Hinv | apply showStreetView_loading].
  - exact Hinv.
  - apply started_invariant; [exact Hinv | apply setProvider_loading].
  - unfold loading_invariant, lookup_in_flight in *. simpl.
    rewrite (same_data_state_loading (proj1 (proj2 (expand_result (control s))))).
    exact Hinv.
  - unfold loading_invariant, lookup_in_flight in *. simpl.
    rewrite (same_data_state_loading (proj1 (proj2 (collapse_result (control s))))).
    exact Hinv.
  - unfold loading_invariant, lookup_in_flight, toggle in *. simpl.
    destruct (collapsed (_state (control s))).
    + rewrite (same_data_state_loading (proj1 (proj2 (expand_result (control s))))).
      exact Hinv.
    + rewrite (same_data_state_loading (proj1 (proj2 (collapse_result (control s))))).
      exact Hinv.
  - exact Hinv.
  - destruct (_noDataMessage (control s)); [|exact Hinv].
    apply started_invariant; [exact Hinv | apply searchNearest_loading].
  - destruct (nth_error (inflight s) i) as [t|] eqn:Hnth; [|exact Hinv].
    apply settle_invariant; assumption.
Qed.

Lemma reachable_invariant (s : System) : reachable s -> loading_invariant s.
Proof.
  induction 1 as [options|s a _ IH].
  - unfold loading_invariant. simpl. discriminate.
  - apply step_invariant. exact IH.
Qed.

(** X31.  With subscribers that return, the [loading] flag is set only
    while a lookup of [showStreetView] is in flight: in every state the
    control can reach, [loading] implies a lookup that has not settled.
    [showStreetView] sets it when the location is one that [new LngLat]
    accepts and the active provider has an instance, and leaves the
    control as it is when the location is refused; every way a lookup
    settles resets it: imagery found (by the point query or the search
    nearby), no imagery found, or the awaited call rejected. *)
Theorem loading_only_while_in_flight :
  (forall s, reachable s ->
             loading (_state (control s)) = true -> lookup_in_flight s = true) /\
  (forall t answer c,
      is_lookup t = true ->
      snd (resume t answer c) = None ->
      loading (_state (fst (resume t answer c))) = false) /\
  (forall t img c,
      is_lookup t = true ->
      snd (resume t (Fulfilled (Some img)) c) = None /\
      loading (_state (fst (resume t (Fulfilled (Some img)) c))) = false) /\
  (forall p l r c,
      snd (resume (ShowStreetView_findNearestImagery p l r) (Fulfilled None) c) = None /\
      loading (_state (fst (resume (ShowStreetView_findNearestImagery p l r)
                                   (Fulfilled None) c))) = false) /\
  (forall t e c,
      is_lookup t = true ->
      snd (resume t (Rejected e) c) = None /\
      loading (_state (fst (resume t (Rejected e) c))) = false) /\
  (forall lngLat location0 c,
      toLngLat lngLat = Normal location0 ->
      configured c (activeProvider (_state c)) = true ->
      loading (_state (fst (showStreetView lngLat c))) = true /\
      exists t, snd (showStreetView lngLat c) = Some t /\ is_lookup t = true) /\
  (forall lngLat e c,
      toLngLat lngLat = Throws e -> showStreetView lngLat c = (c, None)).
Proof.
  split; [exact reachable_invariant|].
  split.
  { intros t answer c Hl Hnone.
    destruct (resume_lookup t answer c Hl) as [(_ & H)|(p & l & _ & _ & Ht & _)];
      [exact H | congruence]. }
  split.
  { intros t img c Hl.
    destruct (resume_lookup t (Fulfilled (Some img)) c Hl)
      as [H|(p & l & _ & Ha & _)]; [exact H | discriminate]. }
  split.
  { intros p l r c.
    destruct (resume_lookup (ShowStreetView_findNearestImagery p l r)
                (Fulfilled None) c eq_refl)
      as [H|(p' & l' & Ht & _)]; [exact H | discriminate]. }
  split.
  { intros t e c Hl.
    destruct (resume_lookup t (Rejected e) c Hl)
      as [H|(p & l & _ & Ha & _)]; [exact H | discriminate]. }
  split.
  { intros lngLat location0 c Hloc Hc.
    destruct (@showStreetView_configured lngLat location0 c Hloc Hc) as (Ht & Hs & _).
    split.
    - rewrite Hs. reflexivity.
    - eexists. split; [exact Ht | reflexivity]. }
  intros lngLat e c Hloc. exact (@showStreetView_refused lngLat e c Hloc).
Qed.

(** *** Subscribers that throw *)

(** With subscribers that return, the lookup with [raises] is the lookup
    of the control. *)
Lemma call_handlers_quiet (handlers : list Handler) (eventData : StreetViewEventData) :
  call_handlers quiet handlers eventData
  = (map (fun handler => (handler, eventData)) handlers, None).
Proof.
  induction handlers as [|h handlers IH]; [reflexivity|].
  cbn [call_handlers map]. unfold quiet at 1. rewrite IH. reflexivity.
Qed.

Lemma emit_raising_quiet (event : StreetViewEvent) (err : option JSError)
      (c : StreetViewControl) :
  emit_raising quiet event err c = (emit event err c, None).
Proof. unfold emit_raising, emit. rewrite call_handlers_quiet. reflexivity. Qed.

Lemma showStreetView_raising_quiet (Number_toString : number -> string)
      (lngLat : LngLatLike) (c : StreetViewControl) :
  fst (showStreetView_raising Number_toString quiet lngLat c)
  = fst (showStreetView lngLat c) /\
  task_of (snd (showStreetView_raising Number_toString quiet lngLat c))
  = snd (showStreetView lngLat c).
Proof.
  unfold showStreetView_raising, showStreetView.
  destruct (toLngLat lngLat) as [location0|e]; [|split; reflexivity].
  destruct (getCurrentProvider c) as [provider|]; [|split; reflexivity].
  rewrite emit_raising_quiet. split; reflexivity.
Qed.

Lemma finish_quiet (c : StreetViewControl) :
  finish quiet c = (emit ev_statechange None c, Returned).
Proof. unfold finish. rewrite emit_raising_quiet. reflexivity. Qed.

Lemma resume_raising_quiet (t : Task) (answer : Settled (option ImageryResult))
      (c : StreetViewControl) :
  fst (resume_raising quiet t answer c) = fst (resume t answer c) /\
  task_of (snd (resume_raising quiet t answer c)) = snd (resume t answer c).
Proof.
  destruct t as [p l|p l r|p l]; destruct answer as [[img|]|e];
    cbn [resume_raising resume];
    unfold found_raising, catch_raising;
    rewrite ?emit_raising_quiet, ?finish_quiet; split; reflexivity.
Qed.

(** Whatever the subscribers do, [emit] leaves the state alone. *)
Lemma emit_raising_state (raises : Handler -> StreetViewEventData -> option JSError)
      (event : StreetViewEvent) (err : option JSError) (c : StreetViewControl) :
  _state (fst (emit_raising raises event err c)) = _state c.
Proof.
  unfold emit_raising.
  destruct (call_handlers raises (_eventHandlers c event) _) as [calls thrown].
  reflexivity.
Qed.

Lemma finish_state (raises : Handler -> StreetViewEventData -> option JSError)
      (c : StreetViewControl) :
  _state (fst (finish raises c)) = _state c /\
  task_of (snd (finish raises c)) = None.
Proof.
  unfold finish.
  pose proof (emit_raising_state raises ev_statechange None c) as H.
  destruct (emit_raising raises ev_statechange None c) as [c' [e|]];
    split; try reflexivity; exact H.
Qed.

Lemma catch_update_loading (e : JSError) (c : StreetViewControl) :
  loading (_state (catch_update e c)) = false.
Proof.
  unfold catch_update.
  rewrite (proj1 (showNoData_state _ _)). reflexivity.
Qed.

Lemma catch_raising_resets (raises : Handler -> StreetViewEventData -> option JSError)
      (e : JSError) (c : StreetViewControl) :
  loading (_state (fst (catch_raising raises e c))) = false /\
  task_of (snd (catch_raising raises e c)) = None.
Proof.
  unfold catch_raising.
  pose proof (emit_raising_state raises ev_error (Some (as_Error e)) (catch_update e c))
    as H.
  destruct (emit_raising raises ev_error (Some (as_Error e)) (catch_update e c))
    as [c' [e'|]]; cbn [fst snd] in *.
  - rewrite H. split; [apply catch_update_loading | reflexivity].
  - destruct (finish_state raises c') as [Hs Ht].
    rewrite Hs, H. split; [apply catch_update_loading | exact Ht].
Qed.

Lemma found_update_loading (p : ProviderType) (img : ImageryResult)
      (c : StreetViewControl) :
  loading (_state (found_update p img c)) = false.
Proof.
  unfold found_update.
  destruct (ImageryResult.heading img); destruct_control c;
    control_cases; reflexivity.
Qed.

Lemma found_raising_resets (raises : Handler -> StreetViewEventData -> option JSError)
      (p : ProviderType) (img : ImageryResult) (c : StreetViewControl) :
  loading (_state (fst (found_raising raises p img c))) = false /\
  task_of (snd (found_raising raises p img c)) = None.
Proof.
  unfold found_raising.
  pose proof (emit_raising_state raises ev_load None (found_update p img c)) as H.
  destruct (emit_raising raises ev_load None (found_update p img c))
    as [c' [e|]]; cbn [fst snd] in *.
  - apply catch_raising_resets.
  - destruct (finish_state raises c') as [Hs Ht].
    rewrite Hs, H. split; [apply found_update_loading | exact Ht].
Qed.

(** Once the awaited call has settled, the lookup resets [loading] on
    every path that ends it, also when a subscriber throws on the way. *)
Lemma resume_raising_resets (raises : Handler -> StreetViewEventData -> option JSError)
      (t : Task) (answer : Settled (option ImageryResult)) (c : StreetViewControl) :
  is_lookup t = true ->
  task_of (snd (resume_raising raises t answer c)) = None ->
  loading (_state (fst (resume_raising raises t answer c))) = false.
Proof.
  intros Hl.
  destruct t as [p l|p l r|p l]; [| |discriminate];
    destruct answer as [[img|]|e]; cbn [resume_raising]; intros Hnone;
    try apply found_raising_resets; try apply catch_raising_resets;
    try discriminate.
  rewrite (proj1 (finish_state raises _)).
  rewrite (proj1 (showStreetView_none_state c)). reflexivity.
Qed.

(** C3 (the code departs from the claim).  The claim is that [loading]
    is set only while the lookup is in flight and is reset on every way
    the lookup ends, an exception thrown during the lookup included.
    [showStreetView] sets [loading] and then calls
    [emit('locationchange')], which stands before the [try]: when a
    subscriber of [locationchange] throws, here handler 3 at the call
    [showStreetView([2, 1])], the exception leaves the method, the
    promise is rejected, no provider call is awaited and [loading] stays
    set.  The sibling [emit('load')] stands inside the [try]: what its
    subscriber throws is caught and [loading] is reset, as on every path
    that ends a lookup once the provider has been called. *)
Theorem loading_stuck_after_locationchange_throws :
  forall Number_toString : number -> string,
    let c := example_listening in
    let r := showStreetView_raising Number_toString failing_subscriber
               (LngLatArray (num 2) (num 1)) c in
    loading (_state c) = false /\
    _eventHandlers c ev_locationchange = [3%nat] /\
    snd r = Thrown (ErrorObject "subscriber failed") /\
    task_of (snd r) = None /\
    loading (_state (fst r)) = true /\
    events_of (notified (fst r)) = [ev_locationchange] /\
    (forall raises t answer c',
        is_lookup t = true ->
        task_of (snd (resume_raising raises t answer c')) = None ->
        loading (_state (fst (resume_raising raises t answer c'))) = false).
Proof.
  intros Number_toString. cbv zeta.
  do 6 (split; [vm_compute; reflexivity|]).
  intros raises t answer c'. apply resume_raising_resets.
Qed.

(** *** Notifications *)

Lemma extends_same (c c' : StreetViewControl) : notified c' = notified c -> extends c c'.
Proof. intros H. exists []. rewrite app_nil_r. exact H. Qed.

Lemma extends_trans (c1 c2 c3 : StreetViewControl) :
  extends c1 c2 -> extends c2 c3 -> extends c1 c3.
Proof.
  intros [m1 H1] [m2 H2]. exists (m1 ++ m2). rewrite H2, H1, app_assoc. reflexivity.
Qed.

Lemma extends_emit (event : StreetViewEvent) (err : option JSError) (c : StreetViewControl) :
  extends c (emit event err c).
Proof. eexists. reflexivity. Qed.

Lemma emit_statechange_ends (c x : StreetViewControl) :
  extends c x -> ends_with_statechange c (emit ev_statechange None x).
Proof.
  intros [calls H]. exists calls.
  change (notified (emit ev_statechange None x))
    with (notified x ++ broadcast ev_statechange None x).
  change (broadcast ev_statechange None (emit ev_statechange None x))
    with (broadcast ev_statechange None x).
  rewrite H, app_assoc. reflexivity.
Qed.

Lemma showStreetView_extends (lngLat : LngLatLike) (c : StreetViewControl) :
  extends c (fst (showStreetView lngLat c)).
Proof.
  destruct (toLngLat lngLat) as [location0|e] eqn:Hl;
    [|rewrite (@showStreetView_refused lngLat e c Hl); apply extends_same; reflexivity].
  destruct (configured c (activeProvider (_state c))) eqn:Hc.
  - destruct (@showStreetView_configured lngLat location0 c Hl Hc) as (_ & _ & Hn & _).
    eexists. exact Hn.
  - rewrite (@showStreetView_unconfigured lngLat location0 c Hl Hc). cbn [fst].
    apply extends_same. apply showNoData_state.
Qed.

Lemma clearStreetView_notified (c : StreetViewControl) :
  notified (clearStreetView c)
  = notified c ++ broadcast ev_statechange None (clearStreetView c).
Proof. destruct_control c. control_cases; reflexivity. Qed.

Lemma handleHeadingChange_notified (h : number) (c : StreetViewControl) :
  notified (handleHeadingChange h c)
  = notified c ++ broadcast ev_headingchange None (handleHeadingChange h c) /\
  heading (_state (handleHeadingChange h c)) = h.
Proof. destruct_control c. control_cases; split; reflexivity. Qed.

Lemma resume_settled_ends (t : Task) (answer : Settled (option ImageryResult))
      (c : StreetViewControl) :
  snd (resume t answer c) = None ->
  ends_with_statechange c (fst (resume t answer c)).
Proof.
  destruct t as [p l|p l r|p l]; destruct answer as [[img|]|e];
    cbn [resume fst snd]; intros Hnone; try discriminate;
    apply emit_statechange_ends.
  - eexists. apply showStreetView_found_state.
  - eexists. apply showStreetView_catch_state.
  - eexists. apply showStreetView_found_state.
  - apply extends_same. apply showStreetView_none_state.
  - eexists. apply showStreetView_catch_state.
  - eexists. apply searchNearest_found_state.
  - apply extends_same. reflexivity.
  - apply extends_same. reflexivity.
Qed.

Lemma setProvider_ends (p : ProviderType) (c : StreetViewControl) :
  ProviderType_eqb (activeProvider (_state c)) p = false ->
  ends_with_statechange c (fst (setProvider p c)).
Proof.
  intros E. rewrite (setProvider_other p c E). cbn [fst].
  apply emit_statechange_ends.
  eapply extends_trans; [|apply extends_emit].
  destruct (location (_state c)) as [l|]; cbn [fst].
  - apply (extends_trans (c2 := with_tabs p (with_state (set_activeProvider p) c))).
    + apply extends_same. reflexivity.
    + apply showStreetView_extends.
  - apply extends_same. reflexivity.
Qed.

Lemma expand_ends (c : StreetViewControl) :
  collapsed (_state c) = true -> ends_with_statechange c (expand c).
Proof.
  intros E. exists (broadcast ev_expand None (expand c)).
  rewrite expand_notified, E. reflexivity.
Qed.

Lemma collapse_ends (c : StreetViewControl) :
  collapsed (_state c) = false -> ends_with_statechange c (collapse c).
Proof.
  intros E. exists (broadcast ev_collapse None (collapse c)).
  rewrite collapse_notified, E. reflexivity.
Qed.

(** An [async] method that goes on to another [await] has left the state
    as it was. *)
Lemma resume_suspended_state (t t' : Task) (answer : Settled (option ImageryResult))
      (c : StreetViewControl) :
  snd (resume t answer c) = Some t' ->
  _state (fst (resume t answer c)) = _state c.
Proof.
  intros Hsome. destruct (is_lookup t) eqn:Hl.
  - destruct (resume_lookup t answer c Hl) as [(Hnone & _)|(p & l & _ & _ & _ & Hs)];
      [congruence | exact Hs].
  - destruct (resume_search t answer c Hl) as (Hnone & _). congruence.
Qed.

Lemma showStreetView_mutation (lngLat : LngLatLike) (s : System) :
  _state (fst (showStreetView lngLat (control s))) <> _state (control s) ->
  lookup_started s (started (showStreetView lngLat (control s)) (inflight s)).
Proof.
  intros Hchanged.
  destruct (toLngLat lngLat) as [location0|e] eqn:Hl.
  - destruct (configured (control s) (activeProvider (_state (control s)))) eqn:Hc.
    + destruct (@showStreetView_configured lngLat location0 (control s) Hl Hc)
        as (Ht & Hs & Hn & _).
      exists (activeProvider (_state (control s))), location0.
      unfold started. cbn [control inflight]. rewrite Ht. cbn [suspended].
      split; [reflexivity|]. rewrite Hs. repeat split; try reflexivity. exact Hn.
    + exfalso. apply Hchanged.
      rewrite (@showStreetView_unconfigured lngLat location0 (control s) Hl Hc).
      apply showNoData_state.
  - exfalso. apply Hchanged.
    rewrite (@showStreetView_refused lngLat e (control s) Hl). reflexivity.
Qed.

(** C4, the claim as stated fails.  The start of a lookup mutates the
    state and is not followed by [statechange] within the operation: at
    [showStreetView([2, 1])] the control sets [location], [loading] and
    [error], notifies handler 3 of [locationchange] and is suspended at
    its [await] with the point query in flight.  Handler 1, subscribed to
    [statechange], has not been called; it is called when, and if, the
    provider answers. *)
Lemma lookup_start_without_statechange :
  _eventHandlers example_listening ev_statechange = [1%nat] /\
  location (_state example_listening) = None /\
  loading (_state example_listening) = false /\
  location (_state (fst example_lookup)) = Some {| lng := num 2; lat := num 1 |} /\
  loading (_state (fst example_lookup)) = true /\
  snd example_lookup
  = Some (ShowStreetView_queryImagery google {| lng := num 2; lat := num 1 |}) /\
  map fst (notified (fst example_lookup)) = [3%nat] /\
  events_of (notified (fst example_lookup)) = [ev_locationchange] /\
  ~ ends_with_statechange example_listening (fst example_lookup).
Proof.
  do 8 (split; [vm_compute; reflexivity|]).
  intros [before H].
  apply (f_equal (map fst)) in H. rewrite !map_app in H.
  replace (map fst (notified (fst example_lookup)))
    with [3%nat] in H by (vm_compute; reflexivity).
  replace (map fst (notified example_listening))
    with (@nil Handler) in H by (vm_compute; reflexivity).
  replace (map fst (broadcast ev_statechange None (fst example_lookup)))
    with [1%nat] in H by (vm_compute; reflexivity).
  destruct (map fst before) as [|x [|y l]]; cbn [app] in H; discriminate.
Qed.

(** C4, as amended.  Every turn of the control other than the viewer's
    heading callback that changes the state ends by notifying the
    subscribers of [statechange] of the state as it then is (the settling
    of a lookup or of a search nearby, a provider switch, expand,
    collapse, toggle, clear), or is the start of a lookup: then the
    subscribers of [locationchange] are notified, the point query is in
    flight, and [statechange] is emitted by the turn that settles the
    lookup. *)
Theorem state_mutation_is_notified (s : System) (a : Action) :
  from_viewer a = false ->
  _state (control (step s a)) <> _state (control s) ->
  (ends_with_statechange (control s) (control (step s a)) \/
   lookup_started s (step s a)) /\
  (forall t answer c,
      snd (resume t answer c) = None ->
      ends_with_statechange c (fst (resume t answer c))).
Proof.
  intros Hviewer Hchanged.
  split; [|intros t answer c; apply resume_settled_ends].
  destruct a as [| |ev h|ev h|lngLat|lngLat| |p| | | |h| |i answer];
    cbn [step] in *; try discriminate.
  - exfalso. apply Hchanged. apply onAdd_state.
  - exfalso. apply Hchanged. reflexivity.
  - exfalso. apply Hchanged. reflexivity.
  - exfalso. apply Hchanged. reflexivity.
  - destruct (_map (control s) && clickToView (_options (control s)));
      [|exfalso; apply Hchanged; reflexivity].
    unfold handleMapClick in *.
    destruct (collapsed (_state (control s)));
      [exfalso; apply Hchanged; reflexivity|].
    right. apply showStreetView_mutation. exact Hchanged.
  - right. apply showStreetView_mutation. exact Hchanged.
  - left. exists []. apply clearStreetView_notified.
  - left. unfold started in *. cbn [control] in *.
    destruct (ProviderType_eqb (activeProvider (_state (control s))) p) eqn:E.
    + apply ProviderType_eqb_eq in E. rewrite (setProvider_same (control s) E) in Hchanged.
      exfalso. apply Hchanged. reflexivity.
    + apply setProvider_ends. exact E.
  - left. destruct (collapsed (_state (control s))) eqn:E.
    + apply expand_ends. exact E.
    + rewrite (expand_expanded (control s) E) in Hchanged.
      exfalso. apply Hchanged. reflexivity.
  - left. destruct (collapsed (_state (control s))) eqn:E.
    + rewrite (collapse_collapsed (control s) E) in Hchanged.
      exfalso. apply Hchanged. reflexivity.
    + apply collapse_ends. exact E.
  - left. unfold toggle in *. destruct (collapsed (_state (control s))) eqn:E.
    + apply expand_ends. exact E.
    + apply collapse_ends. exact E.
  - destruct (_noDataMessage (control s));
      [|exfalso; apply Hchanged; reflexivity].
    exfalso. apply Hchanged. apply searchNearest_state.
  - destruct (nth_error (inflight s) i) as [t|] eqn:Hnth;
      [|exfalso; apply Hchanged; reflexivity].
    cbn [control] in *.
    destruct (snd (resume t answer (control s))) as [t'|] eqn:Ht.
    + exfalso. apply Hchanged. exact (resume_suspended_state _ _ _ Ht).
    + left. apply resume_settled_ends. exact Ht.
Qed.

(** The theorem of C4 at the start of a lookup. *)
Lemma state_mutation_is_notified_witness :
  (ends_with_statechange example_listening
     (control (step {| control := example_listening; inflight := [] |}
                    (act_showStreetView (LngLatArray (num 2) (num 1))))) \/
   lookup_started {| control := example_listening; inflight := [] |}
     (step {| control := example_listening; inflight := [] |}
           (act_showStreetView (LngLatArray (num 2) (num 1))))) /\
  (forall t answer c,
      snd (resume t answer c) = None ->
      ends_with_statechange c (fst (resume t answer c))).
Proof.
  apply (@state_mutation_is_notified
           {| control := example_listening; inflight := [] |}
           (act_showStreetView (LngLatArray (num 2) (num 1)))).
  - reflexivity.
  - intros H. apply (f_equal loading) in H. vm_compute in H. discriminate.
Defined.

(** X18.  The other operations do notify.  Every operation of the control that
    settles a lookup ([showStreetView] or the search nearby), switches
    the provider, expands, collapses, toggles or clears ends by notifying
    the subscribers of [statechange] of the state as it then is, whenever
    it changed the state (and, for a settled lookup and for a clear, in
    any case).  A heading change from the viewer notifies the subscribers
    of [headingchange] and nobody else. *)
Theorem state_changes_are_notified :
  forall c : StreetViewControl,
    (forall t answer,
        snd (resume t answer c) = None ->
        ends_with_statechange c (fst (resume t answer c))) /\
    (forall p,
        _state (fst (setProvider p c)) <> _state c ->
        ends_with_statechange c (fst (setProvider p c))) /\
    (_state (expand c) <> _state c -> ends_with_statechange c (expand c)) /\
    (_state (collapse c) <> _state c -> ends_with_statechange c (collapse c)) /\
    ends_with_statechange c (toggle c) /\
    ends_with_statechange c (clearStreetView c) /\
    (forall h,
        notified (handleHeadingChange h c)
        = notified c ++ broadcast ev_headingchange None (handleHeadingChange h c) /\
        heading (_state (handleHeadingChange h c)) = h).
Proof.
  intros c.
  assert (Hexpand : collapsed (_state c) = true -> ends_with_statechange c (expand c)).
  { intros E. exists (broadcast ev_expand None (expand c)).
    rewrite expand_notified, E. reflexivity. }
  assert (Hcollapse : collapsed (_state c) = false -> ends_with_statechange c (collapse c)).
  { intros E. exists (broadcast ev_collapse None (collapse c)).
    rewrite collapse_notified, E. reflexivity. }
  split; [intros t answer; apply resume_settled_ends|].
  split.
  { intros p Hchanged.
    destruct (ProviderType_eqb (activeProvider (_state c)) p) eqn:E.
    - apply ProviderType_eqb_eq in E. rewrite (setProvider_same c E) in Hchanged.
      exfalso. apply Hchanged. reflexivity.
    - apply setProvider_ends. exact E. }
  split.
  { intros Hchanged. destruct (collapsed (_state c)) eqn:E.
    - apply Hexpand. reflexivity.
    - rewrite (expand_expanded c E) in Hchanged. exfalso. apply Hchanged. reflexivity. }
  split.
  { intros Hchanged. destruct (collapsed (_state c)) eqn:E.
    - rewrite (collapse_collapsed c E) in Hchanged. exfalso. apply Hchanged. reflexivity.
    - apply Hcollapse. reflexivity. }
  split.
  { unfold toggle. destruct (collapsed (_state c)) eqn:E.
    - apply Hexpand. reflexivity.
    - apply Hcollapse. reflexivity. }
  split.
  { exists []. apply clearStreetView_notified. }
  intros h. apply handleHeadingChange_notified.
Qed.

(** The theorem of C7 at [example_located], switched to Mapillary. *)
Lemma setProvider_requeries_witness :
  let c1 := with_tabs mapillary (with_state (set_activeProvider mapillary) example_located) in
  activeProvider (_state c1) = mapillary /\
  setProvider mapillary example_located
  = (emit ev_statechange None
       (emit ev_providerchange None
          (fst (showStreetView (LngLatInstance {| lng := num 2; lat := num 1 |}) c1))),
     snd (showStreetView (LngLatInstance {| lng := num 2; lat := num 1 |}) c1)) /\
  (configured example_located mapillary = true ->
   snd (setProvider mapillary example_located)
   = Some (ShowStreetView_queryImagery mapillary {| lng := num 2; lat := num 1 |}) /\
   loading (_state (fst (setProvider mapillary example_located))) = true /\
   location (_state (fst (setProvider mapillary example_located)))
   = Some {| lng := num 2; lat := num 1 |} /\
   activeProvider (_state (fst (setProvider mapillary example_located))) = mapillary) /\
  (configured example_located mapillary = false ->
   setProvider mapillary example_located
   = (emit ev_statechange None
        (emit ev_providerchange None
           (showNoData (Some "No street view provider is configured.") c1)),
      None)).
Proof.
  apply (@setProvider_requeries example_located mapillary
           {| lng := num 2; lat := num 1 |}).
  - vm_compute. reflexivity.
  - vm_compute. reflexivity.
Defined.

(** The switch at work: the Mapillary point query is in flight next to
    the Google one, and both notifications were made. *)
Example setProvider_requeries_runs :
  let s := step {| control := example_located;
                   inflight := [ShowStreetView_queryImagery google
                                  {| lng := num 2; lat := num 1 |}] |}
                (act_setProvider mapillary) in
  inflight s = [ShowStreetView_queryImagery google {| lng := num 2; lat := num 1 |};
                ShowStreetView_queryImagery mapillary {| lng := num 2; lat := num 1 |}] /\
  activeProvider (_state (control s)) = mapillary /\
  loading (_state (control s)) = true /\
  events_of (notified (control s)) = [ev_statechange; ev_statechange].
Proof. vm_compute. repeat split; reflexivity. Qed.

(** ** The embedding at work *)

(** The search nearby with a maximum of 300 m: 50, 100 and 250 are
    queried, the third query finds imagery; with a maximum of 40 m
    nothing is queried. *)
Example findNearestImagery_runs :
  let target := LngLatArray (num 2) (num 1) in
  run (findNearestImagery_of MapillaryProvider.radii target (num 300))
      [Fulfilled None; Fulfilled None; Fulfilled (Some sample_imagery)]
  = (Resolved (Some sample_imagery),
     [ {| call_lngLat := target; call_radius := num 50 |};
       {| call_lngLat := target; call_radius := num 100 |};
       {| call_lngLat := target; call_radius := num 250 |} ]) /\
  run (findNearestImagery_of MapillaryProvider.radii target (num 300))
      [Fulfilled None; Fulfilled None; Fulfilled None; Fulfilled (Some sample_imagery)]
  = (Resolved None,
     [ {| call_lngLat := target; call_radius := num 50 |};
       {| call_lngLat := target; call_radius := num 100 |};
       {| call_lngLat := target; call_radius := num 250 |} ]) /\
  run (findNearestImagery_of GoogleStreetViewProvider.radii target (num 40))
      [Fulfilled (Some sample_imagery)]
  = (Resolved None, []) /\
  run (findNearestImagery_of GoogleStreetViewProvider.radii target NaN)
      [Fulfilled None]
  = (Resolved None, [ {| call_lngLat := target; call_radius := num 50 |} ]).
Proof. vm_compute. repeat split; reflexivity. Qed.

(** A Google point query: a network error, a 403 and a body that is not
    JSON all give null; an OK body gives the panorama. *)
Example queryImagery_runs :
  let q := GoogleStreetViewProvider.queryImagery (fun _ => "0") "key"
             (LngLatArray (num 2) (num 1)) (num 50) in
  fst (run q [FetchRejects (ErrorObject "Failed to fetch")]) = Resolved None /\
  fst (run q [FetchResponse false (num 403) (Fulfilled google_zero_results)])
  = Resolved None /\
  fst (run q [FetchResponse true (num 200) (Rejected (ErrorObject "Unexpected token"))])
  = Resolved None /\
  fst (run q [FetchResponse true (num 200) (Fulfilled google_zero_results)])
  = Resolved None /\
  fst (run q [FetchResponse true (num 200)
                (Fulfilled (Some {| GoogleStreetViewProvider.status := "OK";
                                    GoogleStreetViewProvider.date := Some "2021-05";
                                    GoogleStreetViewProvider.location :=
                                      Some {| lng := num 2; lat := num 1 |};
                                    GoogleStreetViewProvider.pano_id := Some "pano-1" |}))])
  = Resolved (Some {| ImageryResult.id := "pano-1";
                      ImageryResult.location := {| lng := num 2; lat := num 1 |};
                      ImageryResult.capturedAt := Some (DateOfString "2021-05");
                      ImageryResult.thumbnailUrl := None;
                      ImageryResult.provider := google;
                      ImageryResult.heading := None;
                      ImageryResult.isPano := Some true |}) /\
  snd (run q []) = ["https://maps.googleapis.com/maps/api/streetview/metadata?location=0%2C0&radius=0&key=key"].
Proof. vm_compute. repeat split; reflexivity. Qed.

(** A click on the expanded control, a point query without coverage, a
    search nearby that finds imagery: [loading] is set while the lookup
    is in flight and reset when it settles; the marker's heading 450 is
    normalized to 90. *)
Example lookup_runs :
  let s0 := {| control := expand example_control; inflight := [] |} in
  let s1 := step s0 (act_mapClick {| lng := num 2; lat := num 1 |}) in
  let s2 := step s1 (act_settle 0 (Fulfilled None)) in
  let s3 := step s2 (act_settle 0 (Fulfilled (Some sample_imagery))) in
  (loading (_state (control s1)) = true /\
   inflight s1 = [ShowStreetView_queryImagery google {| lng := num 2; lat := num 1 |}]) /\
  (loading (_state (control s2)) = true /\
   inflight s2 = [ShowStreetView_findNearestImagery google
                    {| lng := num 2; lat := num 1 |} (num 100)]) /\
  (loading (_state (control s3)) = false /\
   inflight s3 = [] /\
   imagery (_state (control s3)) = Some sample_imagery /\
   option_map marker_heading (_marker (control s3)) = Some (num 90) /\
   events_of (notified (control s3)) = [ev_statechange; ev_statechange]).
Proof. vm_compute. repeat split; reflexivity. Qed.

(* ===================================================================== *)
(** * Part III. More of the code                                          *)
(* ===================================================================== *)

(** ** helpers.ts: [clamp] *)

Lemma Math_max_not_nan (a b : number) :
  is_nan a = false -> is_nan b = false -> is_nan (Math_max a b) = false.
Proof.
  intros Ha Hb.
  destruct a as [sa|sa| |sa ma ea]; try discriminate;
    destruct b as [sb|sb| |sb mb eb]; try discriminate;
    unfold Math_max; try reflexivity;
    match goal with |- context [num_lt ?x ?y] => destruct (num_lt x y) end;
    reflexivity.
Qed.

Lemma Math_min_not_nan (a b : number) :
  is_nan a = false -> is_nan b = false -> is_nan (Math_min a b) = false.
Proof.
  intros Ha Hb.
  destruct a as [sa|sa| |sa ma ea]; try discriminate;
    destruct b as [sb|sb| |sb mb eb]; try discriminate;
    unfold Math_min; try reflexivity;
    match goal with |- context [num_lt ?x ?y] => destruct (num_lt x y) end;
    reflexivity.
Qed.

(** In the order of [<], [Math.max(a, b)] sits where the larger of the
    two does. *)
Lemma Math_max_key (a b : number) :
  is_nan a = false -> is_nan b = false ->
  order_key (Math_max a b)
  = if num_lt a b then order_key b else order_key a.
Proof.
  intros Ha Hb.
  destruct a as [sa|sa| |sa ma ea]; try discriminate;
    destruct b as [sb|sb| |sb mb eb]; try discriminate;
    unfold Math_max; try reflexivity;
    match goal with |- context [num_lt ?x ?y] => destruct (num_lt x y) end;
    reflexivity.
Qed.

Lemma Math_min_key (a b : number) :
  is_nan a = false -> is_nan b = false ->
  order_key (Math_min a b)
  = if num_lt b a then order_key b else order_key a.
Proof.
  intros Ha Hb.
  destruct a as [sa|sa| |sa ma ea]; try discriminate;
    destruct b as [sb|sb| |sb mb eb]; try discriminate;
    unfold Math_min; try reflexivity;
    match goal with |- context [num_lt ?x ?y] => destruct (num_lt x y) end;
    reflexivity.
Qed.

Lemma Math_max_nan (a b : number) :
  is_nan a || is_nan b = true -> Math_max a b = NaN.
Proof.
  destruct a as [sa|sa| |sa ma ea], b as [sb|sb| |sb mb eb];
    try discriminate; reflexivity.
Qed.

Lemma Math_min_nan (a b : number) :
  is_nan a || is_nan b = true -> Math_min a b = NaN.
Proof.
  destruct a as [sa|sa| |sa ma ea], b as [sb|sb| |sb mb eb];
    try discriminate; reflexivity.
Qed.

(** ** helpers.ts: [clamp] *)

Lemma clamp_key (value min max : number) :
  is_nan value = false -> is_nan min = false -> is_nan max = false ->
  is_nan (clamp value min max) = false /\
  order_key (clamp value min max)
  = if num_lt max (Math_max value min) then order_key max
    else if num_lt value min then order_key min else order_key value.
Proof.
  intros Hv Hlo Hhi. unfold clamp.
  pose proof (Math_max_not_nan value min Hv Hlo) as HM.
  split; [apply Math_min_not_nan; assumption|].
  rewrite (Math_min_key _ _ HM Hhi), (Math_max_key _ _ Hv Hlo). reflexivity.
Qed.

(** X1. With a lower bound that does not exceed the upper bound,
    [clamp] returns a number between the two; a value inside the bounds
    is returned as it is, a value below gives the lower and a value above
    the upper bound (equality is [===], which does not tell [-0] from
    [0]). *)
Theorem clamp_within_bounds (value min max : number) :
  is_nan value = false ->
  num_le min max = true ->
  num_le min (clamp value min max) = true /\
  num_le (clamp value min max) max = true /\
  (num_le min value = true -> num_le value max = true ->
   num_eq (clamp value min max) value = true) /\
  (num_lt value min = true -> num_eq (clamp value min max) min = true) /\
  (num_lt max value = true -> num_eq (clamp value min max) max = true).
Proof.
  intros Hv Hle.
  destruct (num_le_not_nan _ _ Hle) as [Hlo Hhi].
  destruct (clamp_key value min max Hv Hlo Hhi) as [Hc Hk].
  pose proof (Math_max_not_nan value min Hv Hlo) as HM.
  pose proof (Math_max_key value min Hv Hlo) as HMk.
  destruct (num_lt max (Math_max value min)) eqn:E1;
    destruct (num_lt value min) eqn:E2;
    repeat split; try intros H1; try intros H2; to_keys;
    rewrite ?Hk in *; rewrite ?HMk in *; key_arith.
Qed.

Lemma clamp_within_bounds_witness :
  num_le (num 0) (clamp (num 15) (num 0) (num 10)) = true /\
  num_le (clamp (num 15) (num 0) (num 10)) (num 10) = true /\
  (num_le (num 0) (num 15) = true -> num_le (num 15) (num 10) = true ->
   num_eq (clamp (num 15) (num 0) (num 10)) (num 15) = true) /\
  (num_lt (num 15) (num 0) = true ->
   num_eq (clamp (num 15) (num 0) (num 10)) (num 0) = true) /\
  (num_lt (num 10) (num 15) = true ->
   num_eq (clamp (num 15) (num 0) (num 10)) (num 10) = true).
Proof. apply (@clamp_within_bounds (num 15) (num 0) (num 10)); reflexivity. Defined.

(** X32. The cases outside the contract of [clamp]: a NaN among the
    arguments gives NaN, and with crossed bounds ([max < min]) the result
    is [max], whatever the value. *)
Theorem clamp_degenerate (value min max : number) :
  (is_nan value || is_nan min || is_nan max = true -> clamp value min max = NaN) /\
  (is_nan value = false -> num_lt max min = true ->
   num_eq (clamp value min max) max = true).
Proof.
  split.
  - intros H. unfold clamp.
    destruct (is_nan max) eqn:Hhi.
    + apply Math_min_nan. rewrite Hhi. apply orb_true_r.
    + rewrite orb_false_r in H. rewrite (Math_max_nan _ _ H). reflexivity.
  - intros Hv Hlt.
    destruct (num_lt_not_nan _ _ Hlt) as [Hhi Hlo].
    destruct (clamp_key value min max Hv Hlo Hhi) as [Hc Hk].
    pose proof (Math_max_not_nan value min Hv Hlo) as HM.
    pose proof (Math_max_key value min Hv Hlo) as HMk.
    destruct (num_lt max (Math_max value min)) eqn:E1;
      destruct (num_lt value min) eqn:E2;
      to_keys; rewrite ?Hk in *; rewrite ?HMk in *; key_arith.
Qed.

(** The values the unit tests of the repository expect. *)
Example clamp_tests :
  clamp (num 5) (num 0) (num 10) = num 5 /\
  clamp (num (-5)) (num 0) (num 10) = num 0 /\
  clamp (num 15) (num 0) (num 10) = num 10 /\
  clamp (num 7) (num 10) (num 0) = num 0.
Proof. repeat split; reflexivity. Qed.

(** ** helpers.ts: [debounce] *)

Section DebounceProperties.
Variable Args : Type.

Lemma clearTimeout_single (id : nat) (args : Args) :
  clearTimeout id [(id, args)] = [].
Proof. unfold clearTimeout. cbn. rewrite Nat.eqb_refl. reflexivity. Qed.

Lemma debounced_call_invariant (args : Args) (d : Debounced Args) :
  debounce_invariant d ->
  debounce_invariant (debounced_call args d) /\
  debounce_timers (debounced_call args d) = [(debounce_next d, args)].
Proof.
  unfold debounce_invariant, debounced_call. intros H.
  destruct (timeoutId d) as [id|]; cbn.
  - destruct H as [a H]. rewrite H, clearTimeout_single.
    split; [exists args|]; reflexivity.
  - rewrite H. split; [exists args|]; reflexivity.
Qed.

Lemma debounced_timeout_invariant (id : nat) (d : Debounced Args) :
  debounce_invariant d -> debounce_invariant (debounced_timeout id d).
Proof.
  unfold debounce_invariant, debounced_timeout. intros H.
  destruct (timeoutId d) as [id'|] eqn:E.
  - destruct H as [a H]. rewrite H. cbn.
    destruct (Nat.eqb id' id) eqn:Eid.
    + reflexivity.
    + rewrite E. exists a. exact H.
  - rewrite H. cbn. rewrite E. exact H.
Qed.

Lemma debounce_run_invariant (events : list (DebounceEvent Args)) :
  forall d, debounce_invariant d -> debounce_invariant (debounce_run events d).
Proof.
  induction events as [|ev events IH]; intros d H; [exact H|].
  cbn. apply IH. destruct ev as [args|id]; cbn.
  - apply debounced_call_invariant. exact H.
  - apply debounced_timeout_invariant. exact H.
Qed.

Lemma debounce_run_app (e1 e2 : list (DebounceEvent Args)) (d : Debounced Args) :
  debounce_run (e1 ++ e2) d = debounce_run e2 (debounce_run e1 d).
Proof. apply fold_left_app. Qed.

(** A run of calls only: [fn] is not called, and the one timer pending
    at the end holds the arguments of the last call. *)
Lemma debounce_burst (calls : list Args) :
  forall (d : Debounced Args) (args : Args),
    debounce_invariant d ->
    let d' := debounce_run (map (@DebouncedCall Args) (calls ++ [args])) d in
    debounce_fn d' = debounce_fn d /\
    exists id, timeoutId d' = Some id /\ debounce_timers d' = [(id, args)].
Proof.
  induction calls as [|a calls IH]; intros d args H; cbn.
  - split; [reflexivity|]. exists (debounce_next d). split; [reflexivity|].
    apply debounced_call_invariant. exact H.
  - destruct (IH (debounced_call a d) args) as [Hfn Hid].
    + apply debounced_call_invariant. exact H.
    + split; [exact Hfn | exact Hid].
Qed.

(** What has been delivered to [fn] is a part of what the function was
    called with, in the same order. *)
Lemma debounce_delivers_calls (events : list (DebounceEvent Args)) :
  forall d : Debounced Args,
    debounce_invariant d ->
    exists delivered,
      debounce_fn (debounce_run events d) = debounce_fn d ++ delivered /\
      sublist delivered (map snd (debounce_timers d) ++ debounce_calls events).
Proof.
  induction events as [|ev events IH]; intros d H.
  - exists []. cbn. rewrite app_nil_r. split; [reflexivity|].
    induction (map snd (debounce_timers d) ++ []) as [|x l IHl]; constructor; exact IHl.
  - cbn [debounce_run fold_left]. destruct ev as [args|id]; cbn [debounce_step debounce_calls].
    + destruct (debounced_call_invariant args d H) as [H' Ht].
      destruct (IH _ H') as (delivered & Hfn & Hsub).
      exists delivered. split; [exact Hfn|].
      rewrite Ht in Hsub. cbn in Hsub.
      clear - Hsub.
      induction (map snd (debounce_timers d)) as [|x l IHl]; cbn.
      * exact Hsub.
      * constructor. exact IHl.
    + pose proof (debounced_timeout_invariant id d H) as H'.
      destruct (IH _ H') as (delivered & Hfn & Hsub).
      unfold debounce_run in Hfn. unfold debounce_invariant in H.
      unfold debounced_timeout in *.
      destruct (timeoutId d) as [id'|] eqn:E.
      * destruct H as [a Ha]. rewrite Ha in *. cbn in *.
        destruct (Nat.eqb id' id) eqn:Eid.
        -- cbn in *. exists (a :: delivered). split.
           ++ rewrite Hfn. rewrite <- app_assoc. reflexivity.
           ++ constructor. exact Hsub.
        -- rewrite Ha in Hsub. exists delivered. split; assumption.
      * rewrite H in *. cbn in *. rewrite H in Hsub. exists delivered. split; assumption.
Qed.
End DebounceProperties.

(** X2. Whatever happened before, after a burst of calls of a debounced
    function [fn] has not been called for any of them and exactly one
    timer is pending; when it fires, [fn] is called once, with the
    arguments of the last call of the burst, and no timer is left. *)
Theorem debounce_last_call_wins :
  forall (Args : Type) (events : list (DebounceEvent Args))
         (calls : list Args) (args : Args),
    let before := debounce_run events (debounce Args) in
    let after := debounce_run (map (@DebouncedCall Args) (calls ++ [args])) before in
    debounce_fn after = debounce_fn before /\
    exists id,
      debounce_timers after = [(id, args)] /\
      debounce_fn (debounced_timeout id after) = debounce_fn before ++ [args] /\
      debounce_timers (debounced_timeout id after) = [] /\
      forall id', debounced_timeout id' (debounced_timeout id after)
                  = debounced_timeout id after.
Proof.
  intros Args events calls args before after.
  assert (Hinv : debounce_invariant before).
  { apply debounce_run_invariant. reflexivity. }
  destruct (debounce_burst calls before args Hinv) as [Hfn (id & Hid & Ht)].
  fold after in Hfn, Hid, Ht.
  split; [exact Hfn|]. exists id.
  split; [exact Ht|].
  assert (Hfire : debounced_timeout id after
                  = {| timeoutId := None; debounce_timers := [];
                       debounce_next := debounce_next after;
                       debounce_fn := debounce_fn after ++ [args] |}).
  { unfold debounced_timeout. rewrite Ht. cbn. rewrite Nat.eqb_refl. reflexivity. }
  rewrite Hfire. cbn. rewrite Hfn. repeat split.
Qed.

(** X33. In every run of a debounced function from its creation, the
    arguments [fn] has been called with are some of the arguments the
    function was called with, in the same order, and at most one timer is
    pending. *)
Theorem debounce_delivers_some_calls :
  forall (Args : Type) (events : list (DebounceEvent Args)),
    let d := debounce_run events (debounce Args) in
    sublist (debounce_fn d) (debounce_calls events) /\
    (List.length (debounce_timers d) <= 1)%nat.
Proof.
  intros Args events d. split.
  - destruct (debounce_delivers_calls events (debounce Args)) as (delivered & Hfn & Hsub).
    + reflexivity.
    + unfold d. rewrite Hfn. exact Hsub.
  - assert (Hinv : debounce_invariant d).
    { apply debounce_run_invariant. reflexivity. }
    unfold debounce_invariant in Hinv.
    destruct (timeoutId d).
    + destruct Hinv as [a Ha]. rewrite Ha. cbn. lia.
    + rewrite Hinv. cbn. lia.
Qed.

(** ** helpers.ts: [throttle] *)

Section ThrottleProperties.
Variable Args : Type.

Lemma throttle_step_invariant (t : Throttled Args) (ev : ThrottleEvent Args) :
  throttle_invariant t -> throttle_invariant (throttle_step t ev).
Proof.
  unfold throttle_invariant. intros H.
  destruct ev as [args|]; cbn.
  - unfold throttled_call. destruct (inThrottle t) eqn:E; cbn.
    + rewrite E. exact H.
    + rewrite H. reflexivity.
  - unfold throttled_timeout. rewrite H. destruct (inThrottle t) eqn:E; cbn.
    + reflexivity.
    + rewrite E. exact H.
Qed.

Lemma throttle_run_invariant (events : list (ThrottleEvent Args)) :
  forall t, throttle_invariant t -> throttle_invariant (throttle_run events t).
Proof.
  induction events as [|ev events IH]; intros t H; [exact H|].
  cbn. apply IH. apply throttle_step_invariant. exact H.
Qed.

Lemma throttle_run_delivers (events : list (ThrottleEvent Args)) :
  forall t,
    exists delivered,
      throttle_fn (throttle_run events t) = throttle_fn t ++ delivered /\
      sublist delivered (throttle_calls events).
Proof.
  induction events as [|ev events IH]; intros t.
  - exists []. cbn. rewrite app_nil_r. split; constructor.
  - cbn [throttle_run fold_left].
    destruct (IH (throttle_step t ev)) as (delivered & Hfn & Hsub).
    unfold throttle_run in *.
    destruct ev as [args|]; cbn [throttle_step throttle_calls] in *.
    + unfold throttled_call in *. destruct (inThrottle t) eqn:E; cbn [negb] in *.
      * exists delivered. split; [exact Hfn|]. constructor. exact Hsub.
      * cbn in Hfn. exists (args :: delivered). split.
        -- rewrite Hfn, <- app_assoc. reflexivity.
        -- constructor. exact Hsub.
    + unfold throttled_timeout in *.
      destruct (throttle_timers t); exists delivered; split; assumption.
Qed.

Lemma throttle_run_counts (events : list (ThrottleEvent Args)) :
  forall t,
    throttle_invariant t ->
    (List.length (throttle_fn (throttle_run events t)) + (if inThrottle t then 1 else 0)
     <= List.length (throttle_fn t) + List.length (filter (@is_timeout Args) events)
        + (if inThrottle (throttle_run events t) then 1 else 0))%nat.
Proof.
  induction events as [|ev events IH]; intros t H.
  - cbn. lia.
  - cbn [throttle_run fold_left].
    pose proof (IH _ (@throttle_step_invariant t ev H)) as Hcount.
    unfold throttle_run in *.
    destruct ev as [args|]; cbn [throttle_step filter is_timeout] in *.
    + unfold throttled_call in *. destruct (inThrottle t) eqn:E; cbn [negb] in *.
      * rewrite E in Hcount. exact Hcount.
      * cbn in Hcount. rewrite length_app in Hcount. cbn in Hcount. lia.
    + unfold throttled_timeout in *. unfold throttle_invariant in H.
      rewrite H in *. destruct (inThrottle t) eqn:E; cbn in *.
      * lia.
      * rewrite E in Hcount. lia.
Qed.
End ThrottleProperties.

(** X3. In every run of a throttled function from its creation: the
    first call reaches [fn]; [fn] has been called at most once more than
    timers have fired, so that two calls of [fn] are always separated by
    the expiry of a timer; the arguments [fn] was called with are some of
    the arguments of the calls, in order; and at most one timer is
    pending. *)
Theorem throttle_limits_calls :
  forall (Args : Type) (events : list (ThrottleEvent Args)),
    let t := throttle_run events (throttle Args) in
    (List.length (throttle_fn t)
     <= S (List.length (filter (@is_timeout Args) events)))%nat /\
    sublist (throttle_fn t) (throttle_calls events) /\
    (throttle_timers t <= 1)%nat /\
    (forall args rest,
        throttle_calls events = args :: rest ->
        exists rest', throttle_fn t = args :: rest').
Proof.
  intros Args events t.
  assert (Hinit : throttle_invariant (throttle Args)) by reflexivity.
  pose proof (@throttle_run_counts Args events (throttle Args) Hinit) as Hcount.
  destruct (throttle_run_delivers events (throttle Args)) as (delivered & Hfn & Hsub).
  fold t in Hcount, Hfn. cbn in Hcount, Hfn.
  split; [destruct (inThrottle t); lia|].
  split; [rewrite Hfn; exact Hsub|].
  split.
  { pose proof (@throttle_run_invariant Args events (throttle Args) Hinit) as Hinv. fold t in Hinv.
    unfold throttle_invariant in Hinv. rewrite Hinv. destruct (inThrottle t); lia. }
  intros args rest Hcalls. unfold t.
  assert (Hgen : forall (evs : list (ThrottleEvent Args)) (rest0 : list Args)
                        (t0 : Throttled Args),
             throttle_calls evs = args :: rest0 ->
             inThrottle t0 = false -> throttle_fn t0 = [] ->
             exists rest', throttle_fn (throttle_run evs t0) = args :: rest').
  { clear. induction evs as [|ev evs IH]; [discriminate|].
    intros rest0 t0 Hcalls H0 Hnil. destruct ev as [a|]; cbn in Hcalls.
    - injection Hcalls as Ha Hr. subst a.
      cbn [throttle_run fold_left throttle_step].
      destruct (throttle_run_delivers evs (throttled_call args t0))
        as (delivered & Hfn & _).
      unfold throttle_run in Hfn. rewrite Hfn.
      unfold throttled_call. rewrite H0. cbn. rewrite Hnil.
      exists delivered. reflexivity.
    - cbn [throttle_run fold_left throttle_step].
      apply (IH rest0); [exact Hcalls| |].
      + unfold throttled_timeout. destruct (throttle_timers t0); [exact H0|reflexivity].
      + unfold throttled_timeout. destruct (throttle_timers t0); [exact Hnil|exact Hnil]. }
  apply (Hgen events rest); [exact Hcalls|reflexivity|reflexivity].
Qed.

(** ** api.ts: the query that [buildUrl] writes *)

Lemma searchParams_set_fresh (l : list (string * string)) (name value : string) :
  ~ In name (map fst l) -> searchParams_set l name value = l ++ [(name, value)].
Proof.
  induction l as [|[k v] l IH]; intros Hnot; cbn; [reflexivity|].
  destruct (String.eqb k name) eqn:E.
  - apply String.eqb_eq in E. exfalso. apply Hnot. left. exact E.
  - rewrite IH; [reflexivity|]. intros H. apply Hnot. right. exact H.
Qed.

Lemma fold_set_param_fresh (Number_toString : number -> string)
      (params : list (string * ParamValue)) :
  forall l : list (string * string),
    NoDup (map fst params) ->
    (forall k, In k (map fst params) -> ~ In k (map fst l)) ->
    fold_left (set_param Number_toString) params l
    = l ++ set_params Number_toString params.
Proof.
  unfold set_params.
  induction params as [|[k v] params IH]; intros l Hnd Hfresh; cbn.
  - rewrite app_nil_r. reflexivity.
  - inversion Hnd as [|? ? Hk Hnd']; subst.
    destruct (is_set v) eqn:Hset; cbn.
    + rewrite searchParams_set_fresh by (apply Hfresh; left; reflexivity).
      rewrite IH.
      * rewrite <- app_assoc. reflexivity.
      * exact Hnd'.
      * intros k' Hin. rewrite map_app, in_app_iff. cbn.
        intros [H|[H|[]]].
        -- apply (Hfresh k'); [right; exact Hin | exact H].
        -- subst k'. apply Hk. exact Hin.
    + apply IH; [exact Hnd'|].
      intros k' Hin. apply Hfresh. right. exact Hin.
Qed.

(** X10. When the parameter names are distinct and none of them is in
    the query of the base URL already, [buildUrl] appends the parameters
    that have a value to the pairs of that query, in the order of the
    record, as text, and writes the query anew in urlencoded form; the
    path before the query and the fragment after it stay.  With no
    parameter that has a value the URL is the base URL as the parser
    left it, its query as it was written. *)
Theorem buildUrl_appends_in_order :
  forall (Number_toString : number -> string) (baseUrl : URL)
         (params : list (string * ParamValue)),
    distinct_keys (map fst params) = true ->
    (forall k, In k (map fst params) -> ~ In k (map fst (searchParams baseUrl))) ->
    (any_set params = true ->
     buildUrl Number_toString baseUrl params
     = (origin_and_path baseUrl ++ "?"
        ++ urlencoded_serialize (searchParams baseUrl ++ set_params Number_toString params)
        ++ fragment baseUrl)%string) /\
    (any_set params = false ->
     buildUrl Number_toString baseUrl params = URL_toString baseUrl).
Proof.
  intros Number_toString baseUrl params Hkeys Hfresh.
  apply distinct_keys_NoDup in Hkeys.
  destruct (buildUrl_result Number_toString baseUrl params) as [Hset Hnone].
  rewrite (fold_set_param_fresh Number_toString params _ Hkeys Hfresh) in Hset.
  split; assumption.
Qed.

Lemma buildUrl_appends_in_order_witness :
  (any_set [("page", PNumber (num 2)); ("lang", PString ""); ("sort", PString "new")]
   = true ->
   buildUrl (fun _ => "2") example_search
     [("page", PNumber (num 2)); ("lang", PString ""); ("sort", PString "new")]
   = (origin_and_path example_search ++ "?"
      ++ urlencoded_serialize
           (searchParams example_search
            ++ set_params (fun _ => "2")
                 [("page", PNumber (num 2)); ("lang", PString "");
                  ("sort", PString "new")])
      ++ fragment example_search)%string) /\
  (any_set [("page", PNumber (num 2)); ("lang", PString ""); ("sort", PString "new")]
   = false ->
   buildUrl (fun _ => "2") example_search
     [("page", PNumber (num 2)); ("lang", PString ""); ("sort", PString "new")]
   = URL_toString example_search).
Proof.
  apply (@buildUrl_appends_in_order (fun _ => "2") example_search
           [("page", PNumber (num 2)); ("lang", PString ""); ("sort", PString "new")]).
  - reflexivity.
  - intros k Hin Hq. cbn in Hin, Hq.
    destruct Hq as [Hq|[]]. subst k.
    destruct Hin as [H|[H|[H|[]]]]; discriminate.
Defined.

(** With a parameter set the query is written anew ([+] for the space);
    with none it stays as written ([%20]). *)
Example buildUrl_appends_runs :
  buildUrl (fun _ => "2") example_search
    [("page", PNumber (num 2)); ("lang", PString ""); ("sort", PString "new")]
  = "https://example.com/search?q=street+view&page=2&sort=new#top" /\
  buildUrl (fun _ => "2") example_search [("lang", PString ""); ("page", PNull)]
  = "https://example.com/search?q=street%20view#top".
Proof. split; reflexivity. Qed.

(** ** StreetViewControl.ts: more about the control *)

Ltac control_run :=
  cbv beta iota zeta delta
    [step started suspended control inflight
     showStreetView searchNearest resume setProvider handleMapClick
     onAdd onRemove on off getCurrentProvider toLngLat configured
     same_setup shows_loading panel_shown
     ViewerOps.clearContent ViewerOps.showInitialState ViewerOps.showLoading
     ViewerOps.displayImagery
     MarkerOps.setLngLat MarkerOps.addTo MarkerOps.remove MarkerOps.setHeading
     NoDataOps.set_mode NoDataOps.showSearching NoDataOps.showNotFound
     NoDataOps.showError
     _loadingEl _initialEl _currentProvider rendered
     panel_expanded panel_positioned
     expand collapse toggle updatePanelPosition handleHeadingChange
     clearStreetView showStreetView_found showStreetView_none
     showStreetView_catch searchNearest_found showNoData
     emit notify getState with_state with_viewer with_marker with_panel
     with_container with_tabs set_noDataMessage set_eventHandlers broadcast
     set_collapsed set_activeProvider set_location set_imagery set_heading
     set_loading set_error
     _map _container _button _options _panel _tabs _viewer _noDataMessage
     _marker _googleProvider _mapillaryProvider _state _eventHandlers notified
     collapsed activeProvider location imagery heading pitch loading error
     ProviderType_eqb
     option_map fst snd negb andb orb same_data_state].

Ltac control_run_cases :=
  control_run;
  repeat match goal with
         | |- context [match ?x with _ => _ end] =>
             is_var x; destruct x; control_run
         | |- context [match ImageryResult.heading ?img with _ => _ end] =>
             destruct (ImageryResult.heading img); control_run
         | |- context [match showMarker ?o with _ => _ end] =>
             destruct (showMarker o); control_run
         | |- context [match clickToView ?o with _ => _ end] =>
             destruct (clickToView o); control_run
         | |- context [match new_LngLat ?a ?b with _ => _ end] =>
             destruct (new_LngLat a b); control_run
         end.

(** *** What no operation changes *)

Lemma resume_setup (t : Task) (answer : Settled (option ImageryResult))
      (c : StreetViewControl) :
  same_setup c (fst (resume t answer c)).
Proof.
  destruct t as [p l|p l r|p l]; destruct answer as [[img|]|e]; destruct_control c;
    control_run_cases; repeat split; reflexivity.
Qed.

Lemma step_setup (s : System) (a : Action) :
  same_setup (control s) (control (step s a)).
Proof.
  destruct a as [ | |ev h|ev h|l|l| |p| | | |h| |i answer];
    try (destruct s as [c ts]; destruct_control c;
         control_run_cases; repeat split; reflexivity).
  unfold step. destruct (nth_error (inflight s) i) as [t|].
  - apply resume_setup.
  - repeat split; reflexivity.
Qed.

(** *** A control without credentials *)

Lemma idle_step (s : System) (a : Action) :
  _googleProvider (control s) = None ->
  _mapillaryProvider (control s) = None ->
  inflight s = [] ->
  loading (_state (control s)) = false ->
  imagery (_state (control s)) = None ->
  location (_state (control s)) = None ->
  error (_state (control s)) = None ->
  inflight (step s a) = [] /\
  loading (_state (control (step s a))) = false /\
  imagery (_state (control (step s a))) = None /\
  location (_state (control (step s a))) = None /\
  error (_state (control (step s a))) = None.
Proof.
  destruct s as [c ts]. destruct_control c.
  cbn [control inflight _googleProvider _mapillaryProvider _state
       loading imagery location error].
  intros -> -> -> -> -> -> ->.
  destruct a as [ | |ev h|ev h|l|l| |p| | | |h| |i answer];
    try (control_run_cases; repeat split; reflexivity).
  destruct i; control_run; repeat split; reflexivity.
Qed.

(** X19. A control whose options give no credential has no provider
    instance, and without one it never looks anything up: in every state
    it can reach no lookup is in flight, [loading] is not set, and
    [imagery], [location] and [error] are null. *)
Theorem no_credentials_no_lookup (s : System) :
  reachable s ->
  _googleProvider (control s) = None ->
  _mapillaryProvider (control s) = None ->
  inflight s = [] /\
  loading (_state (control s)) = false /\
  imagery (_state (control s)) = None /\
  location (_state (control s)) = None /\
  error (_state (control s)) = None.
Proof.
  induction 1 as [options|s a _ IH]; intros Hg Hm.
  - repeat split; reflexivity.
  - destruct (step_setup s a) as (Eg & Em & _).
    rewrite Eg in Hg. rewrite Em in Hm.
    destruct (IH Hg Hm) as (H1 & H2 & H3 & H4 & H5).
    apply idle_step; assumption.
Qed.

Lemma no_credentials_no_lookup_witness :
  let s := step (step (step (initial bare_options) act_onAdd) act_expand)
                (act_mapClick {| lng := num 2; lat := num 1 |}) in
  inflight s = [] /\
  loading (_state (control s)) = false /\
  imagery (_state (control s)) = None /\
  location (_state (control s)) = None /\
  error (_state (control s)) = None.
Proof.
  apply (@no_credentials_no_lookup
           (step (step (step (initial bare_options) act_onAdd) act_expand)
                 (act_mapClick {| lng := num 2; lat := num 1 |}))).
  - repeat apply reachable_step. apply reachable_initial.
  - reflexivity.
  - reflexivity.
Defined.

(** *** How a lookup settles *)

(** X20. When a lookup of [showStreetView] settles for good, [loading]
    is reset and [location], [activeProvider], [heading], [pitch] and
    [collapsed] are those of the control as it then is, whatever the
    location and provider the lookup was started with.  Imagery found
    replaces [imagery]; a lookup that finds nothing or fails leaves the
    imagery of an earlier lookup in the state, and a failure records its
    message in [error]. *)
Theorem lookup_settles (t : Task) (answer : Settled (option ImageryResult))
        (c : StreetViewControl) :
  is_lookup t = true ->
  snd (resume t answer c) = None ->
  let s := _state c in
  let s' := _state (fst (resume t answer c)) in
  loading s' = false /\
  location s' = location s /\
  activeProvider s' = activeProvider s /\
  heading s' = heading s /\
  pitch s' = pitch s /\
  collapsed s' = collapsed s /\
  match answer with
  | Fulfilled (Some img) => imagery s' = Some img /\ error s' = error s
  | Fulfilled None => imagery s' = imagery s /\ error s' = error s
  | Rejected e =>
      imagery s' = imagery s /\ error s' = Some (error_message_or "Unknown error" e)
  end.
Proof.
  destruct t as [p l|p l r|p l]; destruct answer as [[img|]|e];
    try discriminate; intros _ Hnone; try discriminate Hnone;
    destruct_control c; control_run_cases; repeat split; reflexivity.
Qed.

Lemma lookup_settles_witness :
  let t := ShowStreetView_findNearestImagery mapillary
             {| lng := num 0; lat := num 0 |} (num 100) in
  let answer := Rejected (ThrownValue "timeout") in
  let s := _state example_located in
  let s' := _state (fst (resume t answer example_located)) in
  loading s' = false /\
  location s' = location s /\
  activeProvider s' = activeProvider s /\
  heading s' = heading s /\
  pitch s' = pitch s /\
  collapsed s' = collapsed s /\
  imagery s' = imagery s /\ error s' = Some (error_message_or "Unknown error" (ThrownValue "timeout")).
Proof.
  apply (@lookup_settles
           (ShowStreetView_findNearestImagery mapillary
              {| lng := num 0; lat := num 0 |} (num 100))
           (Rejected (ThrownValue "timeout")) example_located); reflexivity.
Defined.

(** X21. [clearStreetView] does not end a lookup: called while the
    lookup of [showStreetView] is in flight (started at a location that
    [new LngLat] accepts, with an instance of the active provider), it
    leaves [loading] set and the lookup suspended; when the lookup then
    finds imagery, the imagery is stored and displayed although
    [location] is null. *)
Theorem clearStreetView_keeps_lookup (lngLat : LngLatLike) (location0 : LngLat)
        (c : StreetViewControl) :
  toLngLat lngLat = Normal location0 ->
  configured c (activeProvider (_state c)) = true ->
  let started := showStreetView lngLat c in
  let cleared := clearStreetView (fst started) in
  exists t,
    snd started = Some t /\ is_lookup t = true /\
    loading (_state cleared) = true /\
    location (_state cleared) = None /\
    forall img,
      let settled := fst (resume t (Fulfilled (Some img)) cleared) in
      imagery (_state settled) = Some img /\
      location (_state settled) = None /\
      loading (_state settled) = false /\
      option_map rendered (_viewer settled) = option_map (fun _ => Some img) (_viewer c).
Proof.
  intros Hl Hc. cbv zeta.
  exists (ShowStreetView_queryImagery (activeProvider (_state c)) location0).
  unfold showStreetView. rewrite Hl, getCurrentProvider_configured, Hc. clear Hc Hl.
  destruct_control c.
  split; [reflexivity|]. split; [reflexivity|].
  split; [control_run_cases; reflexivity|].
  split; [control_run_cases; reflexivity|].
  intros img. control_run_cases; repeat split; reflexivity.
Qed.

Lemma clearStreetView_keeps_lookup_witness :
  let c := expand example_control in
  let started := showStreetView (LngLatArray (num 2) (num 1)) c in
  let cleared := clearStreetView (fst started) in
  exists t,
    snd started = Some t /\ is_lookup t = true /\
    loading (_state cleared) = true /\
    location (_state cleared) = None /\
    forall img,
      let settled := fst (resume t (Fulfilled (Some img)) cleared) in
      imagery (_state settled) = Some img /\
      location (_state settled) = None /\
      loading (_state settled) = false /\
      option_map rendered (_viewer settled) = option_map (fun _ => Some img) (_viewer c).
Proof.
  apply (@clearStreetView_keeps_lookup (LngLatArray (num 2) (num 1))
           {| lng := num 2; lat := num 1 |} (expand example_control)).
  - reflexivity.
  - reflexivity.
Defined.

(** *** A control that starts expanded *)

(** X22. With the option [collapsed: false], [onAdd] calls [expand],
    which returns at once because the state is not collapsed: the control
    is on the map with [collapsed] false, the panel hidden and the
    container not active, and no handler was called.  [expand] does
    nothing, and a first [toggle] only sets [collapsed]; the panel is
    shown by an [expand] after a [collapse]. *)
Theorem onAdd_expanded_hides_panel (options : StreetViewControlOptions) :
  opt_collapsed options = false ->
  let c := onAdd (new_StreetViewControl options) in
  collapsed (_state c) = false /\
  panel_shown c = Some false /\
  _container c = Some false /\
  notified c = [] /\
  expand c = c /\
  (collapsed (_state (toggle c)) = true /\ panel_shown (toggle c) = Some false) /\
  panel_shown (expand (collapse c)) = Some true.
Proof.
  destruct options as [oc dp gk mt mr cv sm]. cbn [opt_collapsed]. intros ->.
  destruct sm; repeat split; reflexivity.
Qed.

Lemma onAdd_expanded_hides_panel_witness :
  let c := onAdd (new_StreetViewControl expanded_options) in
  collapsed (_state c) = false /\
  panel_shown c = Some false /\
  _container c = Some false /\
  notified c = [] /\
  expand c = c /\
  (collapsed (_state (toggle c)) = true /\ panel_shown (toggle c) = Some false) /\
  panel_shown (expand (collapse c)) = Some true.
Proof. apply (@onAdd_expanded_hides_panel expanded_options). reflexivity. Defined.

(** *** After the control is removed *)

(** X23. [onRemove] drops every subscription and every component and
    keeps the state.  A lookup that settles afterwards still writes the
    state (imagery found is stored) but calls no handler and creates no
    component. *)
Theorem onRemove_silences (c : StreetViewControl) :
  (forall ev err, broadcast ev err (onRemove c) = []) /\
  _state (onRemove c) = _state c /\
  forall t answer,
    let c' := fst (resume t answer (onRemove c)) in
    notified c' = notified c /\
    (forall ev err, broadcast ev err c' = []) /\
    _viewer c' = None /\ _noDataMessage c' = None /\
    _marker c' = None /\ _panel c' = None /\ _tabs c' = None /\
    (forall img, answer = Fulfilled (Some img) -> imagery (_state c') = Some img).
Proof.
  destruct_control c.
  split; [reflexivity|]. split; [reflexivity|].
  intros t answer.
  destruct t as [p l|p l r|p l]; destruct answer as [[img|]|e];
    control_run_cases; rewrite ?app_nil_r;
    repeat split; try reflexivity; try discriminate;
    intros img' H; injection H as <-; reflexivity.
Qed.

(** *** Subscriptions *)

Lemma StreetViewEvent_eqb_eq (a b : StreetViewEvent) :
  StreetViewEvent_eqb a b = true <-> a = b.
Proof. destruct a, b; cbn; split; intros H; try reflexivity; discriminate. Qed.

Lemma StreetViewEvent_eqb_refl (a : StreetViewEvent) : StreetViewEvent_eqb a a = true.
Proof. destruct a; reflexivity. Qed.

Lemma on_handlers (event ev : StreetViewEvent) (handler : Handler) (c : StreetViewControl) :
  _eventHandlers (on event handler c) ev
  = if StreetViewEvent_eqb ev event
    then (if existsb (Nat.eqb handler) (_eventHandlers c ev)
          then _eventHandlers c ev
          else _eventHandlers c ev ++ [handler])
    else _eventHandlers c ev.
Proof. reflexivity. Qed.

Lemma off_handlers (event ev : StreetViewEvent) (handler : Handler) (c : StreetViewControl) :
  _eventHandlers (off event handler c) ev
  = if StreetViewEvent_eqb ev event
    then filter (fun h => negb (Nat.eqb handler h)) (_eventHandlers c ev)
    else _eventHandlers c ev.
Proof. reflexivity. Qed.

Lemma existsb_eqb_In (h : Handler) (l : list Handler) :
  existsb (Nat.eqb h) l = true <-> In h l.
Proof.
  rewrite existsb_exists. split.
  - intros (x & Hin & E). apply Nat.eqb_eq in E. subst. exact Hin.
  - intros Hin. exists h. split; [exact Hin | apply Nat.eqb_refl].
Qed.

(** X24. A subscription is an element of a set.  After [on(event, h)],
    [h] is subscribed to [event], and a second [on] changes nothing;
    after [off(event, h)] it is not subscribed; and neither call touches
    the subscription of another handler or to another event. *)
Theorem on_off_subscription (event : StreetViewEvent) (h : Handler)
        (c : StreetViewControl) :
  In h (_eventHandlers (on event h c) event) /\
  (forall ev, _eventHandlers (on event h (on event h c)) ev
              = _eventHandlers (on event h c) ev) /\
  ~ In h (_eventHandlers (off event h c) event) /\
  (forall ev h',
      ev <> event \/ h' <> h ->
      (In h' (_eventHandlers (on event h c) ev) <-> In h' (_eventHandlers c ev)) /\
      (In h' (_eventHandlers (off event h c) ev) <-> In h' (_eventHandlers c ev))) /\
  _state (on event h c) = _state c /\ _state (off event h c) = _state c /\
  notified (on event h c) = notified c /\ notified (off event h c) = notified c.
Proof.
  split; [|split; [|split; [|split]]].
  - rewrite on_handlers, StreetViewEvent_eqb_refl.
    destruct (existsb (Nat.eqb h) (_eventHandlers c event)) eqn:E.
    + apply existsb_eqb_In. exact E.
    + apply in_or_app. right. left. reflexivity.
  - intros ev. rewrite (on_handlers event ev h (on event h c)).
    rewrite !on_handlers.
    destruct (StreetViewEvent_eqb ev event) eqn:Eev; [|reflexivity].
    destruct (existsb (Nat.eqb h) (_eventHandlers c ev)) eqn:E.
    + rewrite E. reflexivity.
    + rewrite existsb_app. cbn. rewrite Nat.eqb_refl, orb_true_r. reflexivity.
  - rewrite off_handlers, StreetViewEvent_eqb_refl.
    intros Hin. apply filter_In in Hin. destruct Hin as [_ Hne].
    rewrite Nat.eqb_refl in Hne. discriminate.
  - intros ev h' Hother. rewrite on_handlers, off_handlers.
    destruct (StreetViewEvent_eqb ev event) eqn:Eev; [|split; reflexivity].
    apply StreetViewEvent_eqb_eq in Eev.
    assert (Hh : h' <> h) by (destruct Hother as [H|H]; [contradiction | exact H]).
    split.
    + destruct (existsb (Nat.eqb h) (_eventHandlers c ev)); [reflexivity|].
      rewrite in_app_iff. cbn. split; [|tauto].
      intros [H|[H|[]]]; [exact H|]. exfalso. apply Hh. symmetry. exact H.
    + rewrite filter_In. split; [tauto|].
      intros Hin. split; [exact Hin|].
      apply negb_true_iff. apply Nat.eqb_neq. intros E. apply Hh. symmetry. exact E.
  - repeat split; reflexivity.
Qed.

Lemma resume_handlers (t : Task) (answer : Settled (option ImageryResult))
      (c : StreetViewControl) :
  _eventHandlers (fst (resume t answer c)) = _eventHandlers c.
Proof.
  destruct t as [p l|p l r|p l]; destruct answer as [[img|]|e]; destruct_control c;
    control_run_cases; reflexivity.
Qed.

Lemma step_handlers (s : System) (a : Action) :
  (forall ev, NoDup (_eventHandlers (control s) ev)) ->
  forall ev, NoDup (_eventHandlers (control (step s a)) ev).
Proof.
  intros Hinv ev.
  destruct a as [ | |event h|event h|l|l| |p| | | |h| |i answer];
    try (replace (_eventHandlers (control (step s _)))
           with (_eventHandlers (control s));
         [apply Hinv
         |destruct s as [c ts]; destruct_control c; control_run_cases; reflexivity]).
  - constructor.
  - cbn [step control]. rewrite on_handlers.
    destruct (StreetViewEvent_eqb ev event); [|apply Hinv].
    destruct (existsb (Nat.eqb h) (_eventHandlers (control s) ev)) eqn:E; [apply Hinv|].
    apply NoDup_app; [apply Hinv|repeat constructor; intros []|].
    intros x Hx [Hh|[]]. subst x.
    apply existsb_eqb_In in Hx. congruence.
  - cbn [step control]. rewrite off_handlers.
    destruct (StreetViewEvent_eqb ev event); [|apply Hinv].
    apply NoDup_filter. apply Hinv.
  - unfold step. destruct (nth_error (inflight s) i) as [t|]; cbn [control].
    + rewrite resume_handlers. apply Hinv.
    + apply Hinv.
Qed.

(** X25. In every state the control can reach, an [emit] calls each
    subscribed handler once: no handler is called twice for one
    notification, however often it was subscribed. *)
Theorem handlers_called_once (s : System) (ev : StreetViewEvent) (err : option JSError) :
  reachable s ->
  NoDup (called_handlers (broadcast ev err (control s))).
Proof.
  intros Hr.
  assert (Hinv : forall ev, NoDup (_eventHandlers (control s) ev)).
  { induction Hr as [options|s a _ IH].
    - intros ev'. constructor.
    - apply step_handlers. exact IH. }
  unfold called_handlers, broadcast. rewrite map_map. cbn [fst].
  rewrite map_id. apply Hinv.
Qed.

Lemma handlers_called_once_witness :
  NoDup (called_handlers
           (broadcast ev_load None
              (control (step (step (initial example_options) (act_on ev_load 7%nat))
                             (act_on ev_load 7%nat))))).
Proof.
  apply (@handlers_called_once
           (step (step (initial example_options) (act_on ev_load 7%nat))
                 (act_on ev_load 7%nat)) ev_load None).
  repeat apply reachable_step. apply reachable_initial.
Defined.

Example handlers_called_once_runs :
  called_handlers
    (broadcast ev_load None
       (control (step (step (initial example_options) (act_on ev_load 7%nat))
                      (act_on ev_load 7%nat)))) = [7%nat].
Proof. reflexivity. Qed.

(** *** The loading element of the viewer *)

Lemma existsb_lookup_removed (ts : list Task) (i : nat) (t : Task) :
  nth_error ts i = Some t ->
  existsb is_lookup ts
  = is_lookup t || existsb is_lookup (firstn i ts ++ skipn (S i) ts).
Proof.
  intros H. rewrite (nth_error_firstn_skipn _ _ H) at 1.
  rewrite !existsb_app. cbn [existsb].
  destruct (existsb is_lookup (firstn i ts)), (is_lookup t); reflexivity.
Qed.

Lemma settle_spinner (c : StreetViewControl) (t : Task)
      (answer : Settled (option ImageryResult)) :
  (shows_loading (fst (resume t answer c)) = true ->
   (exists t', snd (resume t answer c) = Some t' /\ is_lookup t' = true) \/
   (shows_loading c = true /\ is_lookup t = false)).
Proof.
  destruct t as [p l|p l r|p l]; destruct answer as [[img|]|e]; destruct_control c;
    control_run_cases; intros H; try discriminate H;
    try (left; eexists; split; reflexivity);
    right; split; reflexivity.
Qed.

Lemma step_spinner (s : System) (a : Action) :
  (shows_loading (control s) = true -> lookup_in_flight s = true) ->
  shows_loading (control (step s a)) = true -> lookup_in_flight (step s a) = true.
Proof.
  unfold lookup_in_flight.
  destruct a as [ | |ev h|ev h|l|l| |p| | | |h| |i answer];
    try (destruct s as [c ts]; destruct_control c; control_run_cases;
         intros Hinv H; try discriminate H;
         rewrite ?existsb_app; cbn [existsb is_lookup];
         rewrite ?orb_true_r, ?orb_false_r;
         try reflexivity; apply Hinv; exact H).
  intros Hinv. unfold step.
  destruct (nth_error (inflight s) i) as [t|] eqn:Hnth; [|exact Hinv].
  cbn [control inflight]. intros H.
  rewrite !existsb_app.
  destruct (settle_spinner _ _ _ H) as [(t' & -> & Ht')|[Hc Ht]].
  - cbn. rewrite Ht'. cbn. apply orb_true_r.
  - specialize (Hinv Hc). rewrite (@existsb_lookup_removed _ _ _ Hnth), Ht in Hinv.
    cbn [orb] in Hinv. rewrite existsb_app in Hinv.
    destruct (existsb is_lookup (firstn i (inflight s))); [reflexivity|].
    cbn [orb] in *. rewrite Hinv. apply orb_true_r.
Qed.

(** X26. The viewer shows its loading element only while a lookup of
    [showStreetView] is in flight: in every state the control can reach,
    a viewer with the loading element means a lookup that has not
    settled.  The element is put up when a lookup starts or goes on to
    the search nearby, and everything that ends a lookup, shows the
    initial prompt or rebuilds the viewer takes it down. *)
Theorem spinner_only_while_in_flight (s : System) :
  reachable s ->
  shows_loading (control s) = true ->
  lookup_in_flight s = true.
Proof.
  induction 1 as [options|s a _ IH].
  - discriminate.
  - apply step_spinner. exact IH.
Qed.

Lemma spinner_only_while_in_flight_witness :
  lookup_in_flight
    (step (step (step (initial example_options) act_onAdd) act_expand)
          (act_mapClick {| lng := num 2; lat := num 1 |})) = true.
Proof.
  apply (@spinner_only_while_in_flight
           (step (step (step (initial example_options) act_onAdd) act_expand)
                 (act_mapClick {| lng := num 2; lat := num 1 |}))).
  - repeat apply reachable_step. apply reachable_initial.
  - reflexivity.
Defined.

(** The flag and the element can disagree: when one of two lookups has
    found imagery and the other goes on to the search nearby, the
    element is up while [loading] is false. *)
Example spinner_without_loading :
  let s0 := {| control := expand example_control; inflight := [] |} in
  let s1 := step s0 (act_showStreetView (LngLatArray (num 2) (num 1))) in
  let s2 := step s1 (act_showStreetView (LngLatArray (num 3) (num 1))) in
  let s3 := step s2 (act_settle 0 (Fulfilled (Some sample_imagery))) in
  let s4 := step s3 (act_settle 0 (Fulfilled None)) in
  shows_loading (control s4) = true /\
  loading (_state (control s4)) = false /\
  lookup_in_flight s4 = true.
Proof. vm_compute. repeat split; reflexivity. Qed.

(** *** Clicks on the map *)

(** X34. A click on the map is ignored while the control is not on a
    map, [clickToView] is off or the panel is collapsed: nothing
    changes.  Otherwise it is [showStreetView] at the clicked point: with
    an instance of the active provider the point is stored in
    [location], [loading] is set and the point query is in flight. *)
Theorem map_click (s : System) (lngLat : LngLat) :
  let c := control s in
  let s' := step s (act_mapClick lngLat) in
  (_map c = false \/ clickToView (_options c) = false \/ collapsed (_state c) = true ->
   s' = s) /\
  (_map c = true -> clickToView (_options c) = true -> collapsed (_state c) = false ->
   configured c (activeProvider (_state c)) = true ->
   inflight s' = inflight s ++ [ShowStreetView_queryImagery
                                  (activeProvider (_state c)) lngLat] /\
   location (_state (control s')) = Some lngLat /\
   loading (_state (control s')) = true /\
   error (_state (control s')) = None /\
   imagery (_state (control s')) = imagery (_state c)).
Proof.
  destruct s as [c ts]. cbv zeta. cbn [control inflight]. split.
  - intros H. unfold step. cbn [control inflight].
    destruct (_map c) eqn:Em; [|reflexivity].
    destruct (clickToView (_options c)) eqn:Ek; [|reflexivity].
    destruct H as [H|[H|H]]; try discriminate.
    cbn [andb]. unfold handleMapClick. rewrite H. unfold started.
    cbn [fst snd suspended]. rewrite app_nil_r. reflexivity.
  - intros Em Ek Ec Hc. unfold step. cbn [control inflight].
    rewrite Em, Ek. cbn [andb]. unfold handleMapClick. rewrite Ec.
    destruct (@showStreetView_configured (LngLatInstance lngLat) lngLat c eq_refl Hc)
      as (Ht & Hs & _).
    unfold started. cbn [control inflight]. rewrite Ht, Hs.
    repeat split; reflexivity.
Qed.

(** *** [toggle] *)

(** [toggle] flips [collapsed] and leaves the panel shown exactly
    when the control is not collapsed; two toggles in a row give back the
    state, and each of them notified the subscribers of [statechange]
    last. *)
Theorem toggle_twice (c : StreetViewControl) :
  collapsed (_state (toggle c)) = negb (collapsed (_state c)) /\
  panel_shown (toggle c)
  = option_map (fun _ => collapsed (_state c)) (_panel c) /\
  _state (toggle (toggle c)) = _state c /\
  exists calls,
    notified (toggle c) = notified c ++ calls ++ broadcast ev_statechange None (toggle c).
Proof.
  assert (Hlast : exists calls,
             notified (toggle c)
             = notified c ++ calls ++ broadcast ev_statechange None (toggle c)).
  { unfold toggle. destruct (collapsed (_state c)) eqn:E.
    - exists (broadcast ev_expand None (expand c)).
      rewrite expand_notified, E. reflexivity.
    - exists (broadcast ev_collapse None (collapse c)).
      rewrite collapse_notified, E. reflexivity. }
  split; [|split; [|split; [|exact Hlast]]]; clear Hlast; destruct_control c.
  - control_run_cases; reflexivity.
  - control_run_cases; reflexivity.
  - control_run_cases; reflexivity.
Qed.

(** ** Providers without a credential *)

Lemma findNearestImagery_loop_silent (E R : Type)
      (q : LngLatLike -> number -> Async E R (option ImageryResult))
      (lngLat : LngLatLike) (maxRadius : number) :
  (forall l r, q l r = Return None) ->
  forall (radii : list number) (answers : list R),
    run (findNearestImagery_loop q lngLat maxRadius radii) answers = (Resolved None, []).
Proof.
  intros Hq. induction radii as [|radius radii IH]; intros answers; cbn.
  - reflexivity.
  - destruct (num_gt radius maxRadius); [reflexivity|].
    rewrite Hq. cbn. apply IH.
Qed.

(** X11. A provider created with an empty credential never touches the
    network: its point query and its search nearby resolve with null
    without making a request, whatever the target and the radius. *)
Theorem unconfigured_provider_is_silent :
  forall (Number_toString : number -> string) (M : Math)
         (bbox_param : LngLat -> number -> string)
         (lngLat : LngLatLike) (radius maxRadius : number),
    GoogleStreetViewProvider.isConfigured "" = false /\
    MapillaryProvider.isConfigured "" = false /\
    (forall answers,
        run (GoogleStreetViewProvider.queryImagery Number_toString "" lngLat radius) answers
        = (Resolved None, []) /\
        run (GoogleStreetViewProvider.findNearestImagery
               Number_toString "" lngLat maxRadius) answers
        = (Resolved None, [])) /\
    (forall answers,
        run (MapillaryProvider.queryImagery
               Number_toString M bbox_param "" lngLat radius) answers
        = (Resolved None, []) /\
        run (MapillaryProvider.findNearestImagery
               Number_toString M bbox_param "" lngLat maxRadius) answers
        = (Resolved None, [])).
Proof.
  intros. split; [reflexivity|]. split; [reflexivity|].
  split; intros answers; (split; [reflexivity|]).
  - unfold GoogleStreetViewProvider.findNearestImagery.
    apply findNearestImagery_loop_silent. reflexivity.
  - unfold MapillaryProvider.findNearestImagery.
    apply findNearestImagery_loop_silent. reflexivity.
Qed.

(** ** Google: the panorama of an OK response *)

(** X12. For a location that [new LngLat] accepts and a response with an
    OK status code and a parsed body, the Google point query reports
    imagery exactly when the body has the status OK, a non-empty panorama
    id and a location whose coordinates [new LngLat] accepts; the imagery
    is the panorama with that id at the location of the body (not at the
    queried point), and the radius plays no part in reading it.  In every
    other case, a location of the body that [new LngLat] refuses
    included, the query resolves with null. *)
Theorem google_queryImagery_found :
  forall (Number_toString : number -> string) (key : string)
         (lngLat : LngLatLike) (point : LngLat) (radius : number) (status0 : number)
         (m : GoogleStreetViewProvider.GoogleStreetViewMetadata)
         (rest : list (FetchOutcome (option GoogleStreetViewProvider.GoogleStreetViewMetadata))),
    GoogleStreetViewProvider.isConfigured key = true ->
    toLngLat lngLat = Normal point ->
    let result :=
      fst (run (GoogleStreetViewProvider.queryImagery Number_toString key lngLat radius)
               (FetchResponse true status0 (Fulfilled (Some m)) :: rest)) in
    (forall img,
        result = Resolved (Some img) <->
        GoogleStreetViewProvider.status m = "OK" /\
        exists loc pano location0,
          GoogleStreetViewProvider.location m = Some loc /\
          GoogleStreetViewProvider.pano_id m = Some pano /\
          pano <> "" /\
          new_LngLat (lng loc) (lat loc) = Normal location0 /\
          img = google_panorama pano location0 (GoogleStreetViewProvider.date m)) /\
    (result = Resolved None \/ exists img, result = Resolved (Some img)).
Proof.
  intros Number_toString key lngLat point radius status0 m rest Hc Hl. cbv zeta.
  unfold GoogleStreetViewProvider.queryImagery. rewrite Hc, Hl. cbn [negb].
  unfold GoogleStreetViewProvider.query_at.
  set (url := buildUrl _ _ _). clearbody url. cbn -[new_LngLat].
  destruct m as [st dt loc pano]. cbn -[new_LngLat].
  destruct loc as [[lng0 lat0]|]; cbn -[new_LngLat].
  2:{ split; [|left; reflexivity].
      intros img. split; [discriminate|].
      intros (_ & loc & pano' & location0 & H & _). discriminate. }
  destruct pano as [pano|]; cbn -[new_LngLat].
  2:{ split; [|left; reflexivity].
      intros img. split; [discriminate|].
      intros (_ & loc & pano' & location0 & _ & H & _). discriminate. }
  destruct (String.eqb st "OK") eqn:Est; cbn -[new_LngLat].
  2:{ split; [|left; reflexivity].
      intros img. split; [discriminate|].
      intros (H & _). apply String.eqb_neq in Est. contradiction. }
  destruct (String.eqb pano "") eqn:Ep; cbn -[new_LngLat].
  { split; [|left; reflexivity].
    intros img. split; [discriminate|].
    intros (_ & loc & pano' & location0 & _ & H & Hne & _). injection H as <-.
    apply String.eqb_eq in Ep. contradiction. }
  apply String.eqb_eq in Est. apply String.eqb_neq in Ep.
  destruct (new_LngLat lng0 lat0) as [location0|e] eqn:En; cbn.
  2:{ split; [|left; reflexivity].
      intros img. split; [discriminate|].
      intros (_ & loc & pano' & location0 & H & _ & _ & Hn & _).
      injection H as <-. cbn [lng lat] in Hn. congruence. }
  assert (E : (if GoogleStreetViewProvider.truthy_string dt
               then option_map DateOfString dt else None)
              = match dt with
                | Some d => if String.eqb d "" then None else Some (DateOfString d)
                | None => None
                end).
  { destruct dt as [d|]; cbn; [|reflexivity]. destruct (String.eqb d ""); reflexivity. }
  split; [|right; eexists; reflexivity].
  intros img. unfold google_panorama. rewrite <- E. split.
  - intros H. injection H as <-. split; [exact Est|].
    exists {| lng := lng0; lat := lat0 |}, pano, location0.
    repeat split; [exact Ep | exact En].
  - intros (_ & loc & pano' & location1 & Hloc & Hp & _ & Hn & ->).
    injection Hloc as <-. injection Hp as <-. cbn [lng lat] in Hn.
    rewrite En in Hn. injection Hn as <-. reflexivity.
Qed.

Lemma google_queryImagery_found_witness :
  let m := {| GoogleStreetViewProvider.status := "OK";
              GoogleStreetViewProvider.date := Some "2021-05";
              GoogleStreetViewProvider.location := Some {| lng := num 2; lat := num 1 |};
              GoogleStreetViewProvider.pano_id := Some "pano-1" |} in
  let result :=
    fst (run (GoogleStreetViewProvider.queryImagery (fun _ => "0") "key"
                (LngLatArray (num 0) (num 0)) (num 50))
             [FetchResponse true (num 200) (Fulfilled (Some m))]) in
  (forall img,
      result = Resolved (Some img) <->
      GoogleStreetViewProvider.status m = "OK" /\
      exists loc pano location0,
        GoogleStreetViewProvider.location m = Some loc /\
        GoogleStreetViewProvider.pano_id m = Some pano /\
        pano <> "" /\
        new_LngLat (lng loc) (lat loc) = Normal location0 /\
        img = google_panorama pano location0 (GoogleStreetViewProvider.date m)) /\
  (result = Resolved None \/ exists img, result = Resolved (Some img)).
Proof.
  apply (@google_queryImagery_found (fun _ => "0") "key"
           (LngLatArray (num 0) (num 0)) {| lng := num 0; lat := num 0 |}
           (num 50) (num 200)
           {| GoogleStreetViewProvider.status := "OK";
              GoogleStreetViewProvider.date := Some "2021-05";
              GoogleStreetViewProvider.location := Some {| lng := num 2; lat := num 1 |};
              GoogleStreetViewProvider.pano_id := Some "pano-1" |} []).
  - reflexivity.
  - reflexivity.
Defined.

(** A body whose latitude is out of range: [new LngLat] throws inside the
    [try] and the query resolves with null. *)
Example google_queryImagery_refused_location :
  fst (run (GoogleStreetViewProvider.queryImagery (fun _ => "0") "key"
              (LngLatArray (num 0) (num 0)) (num 50))
           [FetchResponse true (num 200)
              (Fulfilled (Some {| GoogleStreetViewProvider.status := "OK";
                                  GoogleStreetViewProvider.date := None;
                                  GoogleStreetViewProvider.location :=
                                    Some {| lng := num 0; lat := num 100 |};
                                  GoogleStreetViewProvider.pano_id := Some "pano-1" |}))])
  = Resolved None.
Proof. reflexivity. Qed.

(** ** Mapillary: the closest image of an OK response *)

Lemma imageryResults_refused (images : list MapillaryProvider.MapillaryImage) :
  (exists image, In image images /\ image_refused image) ->
  exists e, MapillaryProvider.imageryResults images = Throws e.
Proof.
  induction images as [|img images IH]; intros (image & Hin & Href); [destruct Hin|].
  cbn [MapillaryProvider.imageryResults].
  destruct (MapillaryProvider.computed_geometry img) as [[lng0 lat0]|] eqn:Eg.
  - unfold MapillaryProvider.mapillaryToImagery.
    destruct (new_LngLat lng0 lat0) as [l|e] eqn:En; [|exists e; reflexivity].
    destruct Hin as [->|Hin].
    + destruct Href as (c & e & Hc & He). rewrite Eg in Hc. injection Hc as <-.
      cbn [fst snd] in He. congruence.
    + destruct IH as [e He]; [exists image; split; assumption|].
      rewrite He. exists e. reflexivity.
  - destruct Hin as [->|Hin].
    + destruct Href as (c & e & Hc & _). rewrite Eg in Hc. discriminate.
    + apply IH. exists image. split; assumption.
Qed.

Lemma imageryResults_In (images : list MapillaryProvider.MapillaryImage)
      (results : list ImageryResult) :
  MapillaryProvider.imageryResults images = Normal results ->
  forall x,
    In x results <->
    exists image location0,
      In image images /\ image_at image location0 /\
      x = MapillaryProvider.imagery_at image location0.
Proof.
  revert results.
  induction images as [|img images IH]; intros results; cbn [MapillaryProvider.imageryResults].
  - intros H. injection H as <-. intros x.
    split; [intros [] | intros (image & l & [] & _)].
  - destruct (MapillaryProvider.computed_geometry img) as [[lng0 lat0]|] eqn:Eg.
    + unfold MapillaryProvider.mapillaryToImagery.
      destruct (new_LngLat lng0 lat0) as [l|e] eqn:En; [|discriminate].
      destruct (MapillaryProvider.imageryResults images) as [rs|e]; [|discriminate].
      intros H. injection H as <-. intros x. cbn [In]. rewrite (IH rs eq_refl x).
      split.
      * intros [H|(image & l' & Hin & Hat & Hx)].
        -- exists img, l. split; [left; reflexivity|]. split; [|symmetry; exact H].
           exists (lng0, lat0). split; [exact Eg | exact En].
        -- exists image, l'. split; [right; exact Hin|]. split; assumption.
      * intros (image & l' & [Hin|Hin] & Hat & Hx).
        -- subst image. destruct Hat as (c & Hc & Hn). rewrite Eg in Hc.
           injection Hc as <-. cbn [fst snd] in Hn. rewrite En in Hn.
           injection Hn as <-. left. symmetry. exact Hx.
        -- right. exists image, l'. split; [exact Hin|]. split; assumption.
    + intros H x. rewrite (IH results H x). split.
      * intros (image & l' & Hin & Hat & Hx).
        exists image, l'. split; [right; exact Hin|]. split; assumption.
      * intros (image & l' & [Hin|Hin] & Hat & Hx).
        -- subst image. destruct Hat as (c & Hc & _). rewrite Eg in Hc. discriminate.
        -- exists image, l'. split; [exact Hin|]. split; assumption.
Qed.

(** Without a refused image the [map] runs to its end. *)
Lemma imageryResults_accepted (images : list MapillaryProvider.MapillaryImage) :
  (forall image, In image images -> ~ image_refused image) ->
  exists results, MapillaryProvider.imageryResults images = Normal results.
Proof.
  induction images as [|img images IH]; intros Hok; cbn [MapillaryProvider.imageryResults].
  - exists []. reflexivity.
  - destruct IH as [rs Hrs]; [intros image Hin; apply Hok; right; exact Hin|].
    rewrite Hrs.
    destruct (MapillaryProvider.computed_geometry img) as [[lng0 lat0]|] eqn:Eg.
    + unfold MapillaryProvider.mapillaryToImagery.
      destruct (new_LngLat lng0 lat0) as [l|e] eqn:En.
      * eexists. reflexivity.
      * exfalso. apply (Hok img (or_introl eq_refl)).
        exists (lng0, lat0), e. split; [exact Eg | exact En].
    + exists rs. reflexivity.
Qed.

(** Between instances of [LngLat] the distance is computed. *)
Lemma findClosestPoint_instances (M : Math) (point : LngLat) (results : list ImageryResult) :
  exists o,
    findClosestPoint ImageryResult.location (calculateDistance M) num_lt
      (LngLatInstance point) results = Normal o.
Proof.
  destruct (findClosestPoint ImageryResult.location (calculateDistance M) num_lt
              (LngLatInstance point) results) as [o|e] eqn:E; [exists o; reflexivity|].
  destruct (findClosestPoint_spec ImageryResult.location (calculateDistance M) num_lt
              num_lt_irrefl num_lt_trans (LngLatInstance point) results) as (_ & _ & Hthrows).
  destruct (Hthrows e E) as (q & _ & Hq). discriminate.
Qed.

Lemma mapillary_read_images Number_toString M bbox_param key lngLat point radius
      status0 images rest :
  MapillaryProvider.isConfigured key = true ->
  toLngLat lngLat = Normal point ->
  fst (run (MapillaryProvider.queryImagery Number_toString M bbox_param key lngLat radius)
           (FetchResponse true status0
              (Fulfilled (Some {| MapillaryProvider.data := Some images |})) :: rest))
  = match MapillaryProvider.imageryResults images with
    | Throws _ => Resolved None
    | Normal results =>
        match findClosestPoint ImageryResult.location (calculateDistance M) num_lt
                (LngLatInstance point) results with
        | Throws _ => Resolved None
        | Normal o => Resolved o
        end
    end.
Proof.
  intros Hc Hl. unfold MapillaryProvider.queryImagery. rewrite Hc, Hl. cbn [negb].
  unfold MapillaryProvider.query_at.
  set (url := buildUrl _ _ _). clearbody url.
  cbn -[MapillaryProvider.imageryResults findClosestPoint].
  destruct images as [|img images]; [reflexivity|].
  destruct (MapillaryProvider.imageryResults (img :: images)) as [results|e];
    cbn -[findClosestPoint]; [|reflexivity].
  destruct (findClosestPoint _ _ _ _ results) as [o|e]; reflexivity.
Qed.

(** X13. For a location that [new LngLat] accepts and a response with an
    OK status code and a list of images: when an image has coordinates
    that [new LngLat] refuses, the Mapillary point query resolves with
    null.  Otherwise it resolves with null exactly when no image has a
    geometry, and else with the imagery of an image of the list that has
    one, and no image with a geometry is strictly closer to the queried
    point, by the haversine distance as computed in binary64. *)
Theorem mapillary_queryImagery_closest :
  forall (Number_toString : number -> string) (M : Math)
         (bbox_param : LngLat -> number -> string)
         (key : string) (lngLat : LngLatLike) (point : LngLat)
         (radius : number) (status0 : number)
         (images : list MapillaryProvider.MapillaryImage)
         (rest : list (FetchOutcome (option MapillaryProvider.MapillaryImageResponse))),
    MapillaryProvider.isConfigured key = true ->
    toLngLat lngLat = Normal point ->
    let result :=
      fst (run (MapillaryProvider.queryImagery
                  Number_toString M bbox_param key lngLat radius)
               (FetchResponse true status0
                  (Fulfilled (Some {| MapillaryProvider.data := Some images |})) :: rest)) in
    ((exists image, In image images /\ image_refused image) -> result = Resolved None) /\
    ((forall image, In image images -> ~ image_refused image) ->
     (result = Resolved None <->
      forall image, In image images -> MapillaryProvider.computed_geometry image = None) /\
     (forall img,
         result = Resolved (Some img) ->
         (exists image location0,
             In image images /\ image_at image location0 /\
             img = MapillaryProvider.imagery_at image location0) /\
         forall image location0,
           In image images -> image_at image location0 ->
           num_lt (haversine M point location0)
                  (haversine M point (ImageryResult.location img)) = false)) /\
    (result = Resolved None \/ exists img, result = Resolved (Some img)).
Proof.
  intros Number_toString M bbox_param key lngLat point radius status0 images rest Hc Hl.
  cbv zeta.
  rewrite (@mapillary_read_images Number_toString M bbox_param key lngLat point radius
             status0 images rest Hc Hl).
  split; [|split].
  - intros Href. destruct (@imageryResults_refused images Href) as [e ->]. reflexivity.
  - intros Hok. destruct (@imageryResults_accepted images Hok) as [results Hres].
    rewrite Hres.
    pose proof (@imageryResults_In images results Hres) as Hin.
    destruct (findClosestPoint_instances M point results) as [o Ho]. rewrite Ho.
    destruct (findClosestPoint_spec ImageryResult.location (calculateDistance M) num_lt
                num_lt_irrefl num_lt_trans (LngLatInstance point) results)
      as (Hnone & Hsome & _).
    split.
    + split.
      * intros H. injection H as ->. apply Hnone in Ho. subst results.
        intros image Himage.
        destruct (MapillaryProvider.computed_geometry image) as [[lng0 lat0]|] eqn:Eg;
          [|reflexivity].
        exfalso.
        destruct (new_LngLat lng0 lat0) as [l|e] eqn:En.
        -- apply (proj2 (Hin (MapillaryProvider.imagery_at image l))).
           exists image, l. split; [exact Himage|]. split; [|reflexivity].
           exists (lng0, lat0). split; [exact Eg | exact En].
        -- apply (Hok image Himage). exists (lng0, lat0), e.
           split; [exact Eg | exact En].
      * intros Hall. f_equal.
        destruct o as [x|]; [|reflexivity]. exfalso.
        destruct (Hsome x Ho) as [Hx _]. apply Hin in Hx.
        destruct Hx as (image & l & Himage & (c & Hg & _) & _).
        rewrite (Hall image Himage) in Hg. discriminate.
    + intros img H. injection H as ->.
      destruct (Hsome img Ho) as (Himg & dr & Hdr & Hmin).
      split; [apply Hin; exact Himg|].
      intros image location0 Himage Hat.
      assert (Hx : In (MapillaryProvider.imagery_at image location0) results).
      { apply Hin. exists image, location0. split; [exact Himage|].
        split; [exact Hat | reflexivity]. }
      destruct (Hmin _ Hx) as (dq & Hdq & Hlt).
      rewrite calculateDistance_instance in Hdr, Hdq. cbn [toLngLat] in Hdr, Hdq.
      injection Hdr as <-. injection Hdq as <-. exact Hlt.
  - destruct (MapillaryProvider.imageryResults images) as [results|e];
      [|left; reflexivity].
    destruct (findClosestPoint _ _ _ _ results) as [[img|]|e].
    + right. exists img. reflexivity.
    + left. reflexivity.
    + left. reflexivity.
Qed.

Lemma mapillary_queryImagery_closest_witness :
  let images := [sample_image "no-geometry" None;
                 sample_image "image-1" (Some (num 2, num 1))] in
  let point := {| lng := num 0; lat := num 0 |} in
  let result :=
    fst (run (MapillaryProvider.queryImagery
                (fun _ => "0") crude_Math (fun _ _ => "0,0,0,0") "token"
                (LngLatArray (num 0) (num 0)) (num 50))
             [FetchResponse true (num 200)
                (Fulfilled (Some {| MapillaryProvider.data := Some images |}))]) in
  ((exists image, In image images /\ image_refused image) -> result = Resolved None) /\
  ((forall image, In image images -> ~ image_refused image) ->
   (result = Resolved None <->
    forall image, In image images -> MapillaryProvider.computed_geometry image = None) /\
   (forall img,
       result = Resolved (Some img) ->
       (exists image location0,
           In image images /\ image_at image location0 /\
           img = MapillaryProvider.imagery_at image location0) /\
       forall image location0,
         In image images -> image_at image location0 ->
         num_lt (haversine crude_Math point location0)
                (haversine crude_Math point (ImageryResult.location img)) = false)) /\
  (result = Resolved None \/ exists img, result = Resolved (Some img)).
Proof.
  apply (@mapillary_queryImagery_closest
           (fun _ => "0") crude_Math (fun _ _ => "0,0,0,0") "token"
           (LngLatArray (num 0) (num 0)) {| lng := num 0; lat := num 0 |}
           (num 50) (num 200)
           [sample_image "no-geometry" None;
            sample_image "image-1" (Some (num 2, num 1))] []).
  - reflexivity.
  - reflexivity.
Defined.

Example mapillary_queryImagery_runs :
  fst (run (MapillaryProvider.queryImagery
              (fun _ => "0") crude_Math (fun _ _ => "0,0,0,0") "token"
              (LngLatArray (num 0) (num 0)) (num 50))
           [FetchResponse true (num 200)
              (Fulfilled (Some {| MapillaryProvider.data :=
                                    Some [sample_image "no-geometry" None;
                                          sample_image "image-1" (Some (num 2, num 1))] |}))])
  = Resolved (Some (MapillaryProvider.imagery_at
                      (sample_image "image-1" (Some (num 2, num 1)))
                      {| lng := num 2; lat := num 1 |})).
Proof. vm_compute. reflexivity. Qed.

(** One image with a latitude out of range and the whole answer is
    lost: [new LngLat] throws inside the [try]. *)
Example mapillary_queryImagery_refused_image :
  fst (run (MapillaryProvider.queryImagery
              (fun _ => "0") crude_Math (fun _ _ => "0,0,0,0") "token"
              (LngLatArray (num 0) (num 0)) (num 50))
           [FetchResponse true (num 200)
              (Fulfilled (Some {| MapillaryProvider.data :=
                                    Some [sample_image "image-1" (Some (num 2, num 1));
                                          sample_image "image-2" (Some (num 0, num 100))] |}))])
  = Resolved None.
Proof. vm_compute. reflexivity. Qed.

(** ** GoogleStreetViewProvider.ts: the embed URL *)

Lemma not_zero_false (x : number) :
  not_zero x = false <-> exists s, x = S754_zero s.
Proof.
  unfold not_zero. change (num 0) with (S754_zero false).
  destruct x as [s|s| |s m e]; cbn; split.
  - intros _. exists s. reflexivity.
  - reflexivity.
  - destruct s; discriminate.
  - intros [s' H]. discriminate.
  - discriminate.
  - intros [s' H]. discriminate.
  - destruct s; discriminate.
  - intros [s' H]. discriminate.
Qed.

Lemma comma_joined_not_empty (a b : string) :
  negb (String.eqb (a ++ "," ++ b) "") = true.
Proof. destruct a; reflexivity. Qed.

Section EmbedUrl.
Variable Number_toString : number -> string.
Variable _apiKey : string.

(** The pairs of the embed URL. *)
Lemma embed_pairs (point : LngLat) (heading pitch : number) :
  fold_left (set_param Number_toString)
            (GoogleRender.embed_params Number_toString _apiKey point heading pitch) []
  = (if String.eqb _apiKey "" then [] else [("key", _apiKey)])
    ++ [("location", (Number_toString (lat point) ++ ","
                      ++ Number_toString (lng point))%string)]
    ++ (if not_zero heading then [("heading", Number_toString heading)] else [])
    ++ (if not_zero pitch then [("pitch", Number_toString pitch)] else []).
Proof.
  unfold GoogleRender.embed_params.
  destruct (not_zero heading), (not_zero pitch);
    cbn [app fold_left set_param is_set];
    rewrite comma_joined_not_empty;
    destruct (String.eqb _apiKey ""); cbn; reflexivity.
Qed.

Lemma embed_params_set (point : LngLat) (heading pitch : number) :
  any_set (GoogleRender.embed_params Number_toString _apiKey point heading pitch) = true.
Proof.
  unfold GoogleRender.embed_params, any_set.
  cbn [app existsb snd is_set]. rewrite comma_joined_not_empty. apply orb_true_r.
Qed.

(** X15. For a location that [new LngLat] accepts, the embed URL is the
    embed endpoint followed by the key (left out when it is empty), the
    location as [lat,lng], the heading and the pitch, in this order and
    in urlencoded form; heading and pitch are left out exactly when they
    are [0] or [-0], so that a NaN is written out.  For a location that
    [new LngLat] refuses, [generateEmbedUrl] throws what [new LngLat]
    throws. *)
Theorem generateEmbedUrl_query (location : LngLatLike) (heading pitch : number) :
  (forall point,
      toLngLat location = Normal point ->
      GoogleRender.generateEmbedUrl Number_toString _apiKey location heading pitch
      = Normal
          ("https://www.google.com/maps/embed/v1/streetview?"
           ++ urlencoded_serialize
                ((if String.eqb _apiKey "" then [] else [("key", _apiKey)])
                 ++ [("location", (Number_toString (lat point) ++ ","
                                   ++ Number_toString (lng point))%string)]
                 ++ (if not_zero heading then [("heading", Number_toString heading)]
                     else [])
                 ++ (if not_zero pitch then [("pitch", Number_toString pitch)]
                     else [])))%string) /\
  (forall e,
      toLngLat location = Throws e ->
      GoogleRender.generateEmbedUrl Number_toString _apiKey location heading pitch
      = Throws e) /\
  (not_zero heading = false <-> exists s, heading = S754_zero s) /\
  (not_zero pitch = false <-> exists s, pitch = S754_zero s).
Proof.
  split; [|split; [|split; apply not_zero_false]].
  - intros point Hl. unfold GoogleRender.generateEmbedUrl. rewrite Hl. f_equal.
    destruct (buildUrl_result Number_toString GOOGLE_API_EMBED_URL
                (GoogleRender.embed_params Number_toString _apiKey point heading pitch))
      as [Hset _].
    rewrite (Hset (embed_params_set point heading pitch)).
    cbn [GOOGLE_API_EMBED_URL origin_and_path searchParams fragment hash].
    rewrite embed_pairs, append_nil_r. reflexivity.
  - intros e Hl. unfold GoogleRender.generateEmbedUrl. rewrite Hl. reflexivity.
Qed.

Lemma call_keeps_iframe_in_step (p : GoogleRender.t) (c : GoogleRender.Call) :
  GoogleRender.iframe_in_step Number_toString _apiKey p ->
  GoogleRender.iframe_in_step Number_toString _apiKey
    (GoogleRender.call Number_toString _apiKey p c).
Proof.
  unfold GoogleRender.iframe_in_step, GoogleRender.generateEmbedUrl.
  destruct p as [b ct fr img h pt]. intros H.
  destruct c as [imagery| |heading|pitch|cb|cb]; cbn in *;
    try exact H; try exact I.
  - exists imagery. split; reflexivity.
  - destruct fr as [src|]; [|exact I].
    destruct H as (imagery & -> & _). cbn. exists imagery. split; reflexivity.
  - destruct fr as [src|]; [|exact I].
    destruct H as (imagery & -> & _). cbn. exists imagery. split; reflexivity.
Qed.

Lemma calls_keep_iframe_in_step (cs : list GoogleRender.Call) :
  forall p,
    GoogleRender.iframe_in_step Number_toString _apiKey p ->
    GoogleRender.iframe_in_step Number_toString _apiKey
      (GoogleRender.calls Number_toString _apiKey cs p).
Proof.
  induction cs as [|c cs IH]; intros p H; [exact H|].
  cbn. apply IH. apply call_keeps_iframe_in_step. exact H.
Qed.

Lemma calls_app (cs1 cs2 : list GoogleRender.Call) (p : GoogleRender.t) :
  GoogleRender.calls Number_toString _apiKey (cs1 ++ cs2) p
  = GoogleRender.calls Number_toString _apiKey cs2
      (GoogleRender.calls Number_toString _apiKey cs1 p).
Proof. apply fold_left_app. Qed.

Lemma call_heading (p : GoogleRender.t) (c : GoogleRender.Call) :
  GoogleRender._heading (GoogleRender.call Number_toString _apiKey p c)
  = match c with
    | GoogleRender.call_setHeading heading => heading
    | _ => GoogleRender._heading p
    end.
Proof.
  destruct p as [b ct fr img h pt].
  destruct c as [imagery| |heading|pitch|cb|cb]; cbn; try reflexivity.
  - destruct fr, img; reflexivity.
  - destruct fr, img; reflexivity.
Qed.

(** X16. Whatever calls a Google provider object has received since it
    was created, its iframe, when it has one, shows the embed URL of the
    current imagery with the current heading and pitch: [render],
    [setHeading] and [setPitch] keep the two in step.  The heading set
    last stays through [destroy] and [render], so that the next imagery
    is shown with the heading of the one before. *)
Theorem iframe_shows_current_view (cs : list GoogleRender.Call) :
  let p := GoogleRender.calls Number_toString _apiKey cs GoogleRender.new in
  GoogleRender.iframe_in_step Number_toString _apiKey p /\
  forall heading imagery,
    let p' := GoogleRender.render Number_toString _apiKey imagery
                (GoogleRender.destroy
                   (GoogleRender.setHeading Number_toString _apiKey heading p)) in
    GoogleRender.getViewState p' = (heading, GoogleRender._pitch p) /\
    option_map (fun src : string => Normal src) (GoogleRender._iframe p')
    = Some (GoogleRender.generateEmbedUrl Number_toString _apiKey
              (LngLatInstance (ImageryResult.location imagery))
              heading (GoogleRender._pitch p)).
Proof.
  cbv zeta. split.
  - apply calls_keep_iframe_in_step. exact I.
  - intros heading imagery.
    destruct (GoogleRender.calls Number_toString _apiKey cs GoogleRender.new)
      as [b ct fr img h pt].
    destruct fr, img; split; reflexivity.
Qed.
End EmbedUrl.

(** The URLs of the unit tests of the repository, with the platform's
    printing of the numbers given. *)
Example generateEmbedUrl_tests :
  let print (x : number) :=
    if num_eq x (num 90) then "90" else if num_eq x (num 10) then "10" else "0" in
  GoogleRender.generateEmbedUrl print "test-api-key" (LngLatObject (num 0) (num 0))
                                (num 90) (num 10)
  = Normal "https://www.google.com/maps/embed/v1/streetview?key=test-api-key&location=0%2C0&heading=90&pitch=10"
  /\
  GoogleRender.generateEmbedUrl print "test-api-key" (LngLatObject (num 0) (num 0))
                                (num 0) (S754_zero true)
  = Normal "https://www.google.com/maps/embed/v1/streetview?key=test-api-key&location=0%2C0"
  /\
  GoogleRender.generateEmbedUrl print "test-api-key" (LngLatArray (num 0) (num 100))
                                (num 0) (num 0)
  = Throws InvalidLatitude.
Proof. repeat split; reflexivity. Qed.

(** ** BaseProvider.ts: the heading callbacks *)

Lemma existsb_callback_In (cb : BaseProvider.HeadingCallback)
      (l : list BaseProvider.HeadingCallback) :
  existsb (Nat.eqb cb) l = true <-> In cb l.
Proof.
  rewrite existsb_exists. split.
  - intros (x & Hin & E). apply Nat.eqb_eq in E. subst. exact Hin.
  - intros Hin. exists cb. split; [exact Hin | apply Nat.eqb_refl].
Qed.

(** X35. The heading callbacks of a provider are a set: a callback
    registered once or several times is called once by
    [emitHeadingChange], with the heading, after the callbacks registered
    before it; a callback that was unregistered is not called; and the
    heading emitted last is kept in [_currentHeading]. *)
Theorem heading_callbacks (b : BaseProvider.t) (callback : BaseProvider.HeadingCallback)
        (heading : number) :
  NoDup (BaseProvider._headingCallbacks b) ->
  let registered :=
    BaseProvider.onHeadingChange callback (BaseProvider.onHeadingChange callback b) in
  let removed := BaseProvider.offHeadingChange callback registered in
  NoDup (BaseProvider._headingCallbacks registered) /\
  count_occ Nat.eq_dec (BaseProvider._headingCallbacks registered) callback = 1%nat /\
  BaseProvider.heading_calls (BaseProvider.emitHeadingChange heading registered)
  = BaseProvider.heading_calls b
    ++ map (fun cb => (cb, heading)) (BaseProvider._headingCallbacks registered) /\
  BaseProvider._currentHeading (BaseProvider.emitHeadingChange heading registered)
  = heading /\
  ~ In callback (BaseProvider._headingCallbacks removed) /\
  (forall cb, cb <> callback ->
              (In cb (BaseProvider._headingCallbacks removed)
               <-> In cb (BaseProvider._headingCallbacks b))).
Proof.
  intros Hnd. cbv zeta.
  assert (Hreg : BaseProvider._headingCallbacks
                   (BaseProvider.onHeadingChange callback
                      (BaseProvider.onHeadingChange callback b))
                 = if existsb (Nat.eqb callback) (BaseProvider._headingCallbacks b)
                   then BaseProvider._headingCallbacks b
                   else BaseProvider._headingCallbacks b ++ [callback]).
  { cbn. destruct (existsb (Nat.eqb callback) (BaseProvider._headingCallbacks b)) eqn:E.
    - rewrite E. reflexivity.
    - rewrite existsb_app. cbn. rewrite Nat.eqb_refl, orb_true_r. reflexivity. }
  assert (Hnd' : NoDup (BaseProvider._headingCallbacks
                          (BaseProvider.onHeadingChange callback
                             (BaseProvider.onHeadingChange callback b)))).
  { rewrite Hreg.
    destruct (existsb (Nat.eqb callback) (BaseProvider._headingCallbacks b)) eqn:E;
      [exact Hnd|].
    apply NoDup_app; [exact Hnd | repeat constructor; intros [] |].
    intros x Hx [Hh|[]]. subst x. apply existsb_callback_In in Hx. congruence. }
  assert (Hin : In callback (BaseProvider._headingCallbacks
                               (BaseProvider.onHeadingChange callback
                                  (BaseProvider.onHeadingChange callback b)))).
  { rewrite Hreg.
    destruct (existsb (Nat.eqb callback) (BaseProvider._headingCallbacks b)) eqn:E.
    - apply existsb_callback_In. exact E.
    - apply in_or_app. right. left. reflexivity. }
  split; [exact Hnd'|]. split.
  { apply NoDup_count_occ' with (decA := Nat.eq_dec) in Hin; [exact Hin | exact Hnd']. }
  split; [reflexivity|]. split; [reflexivity|]. split.
  - cbn [BaseProvider.offHeadingChange BaseProvider._headingCallbacks].
    intros H. apply filter_In in H. destruct H as [_ H].
    rewrite Nat.eqb_refl in H. discriminate.
  - intros cb Hne.
    change (BaseProvider._headingCallbacks
              (BaseProvider.offHeadingChange callback
                 (BaseProvider.onHeadingChange callback
                    (BaseProvider.onHeadingChange callback b))))
      with (filter (fun cb => negb (Nat.eqb callback cb))
              (BaseProvider._headingCallbacks
                 (BaseProvider.onHeadingChange callback
                    (BaseProvider.onHeadingChange callback b)))).
    rewrite filter_In, Hreg.
    assert (Hneq : negb (Nat.eqb callback cb) = true).
    { apply negb_true_iff. apply Nat.eqb_neq. intros E. apply Hne. symmetry. exact E. }
    destruct (existsb (Nat.eqb callback) (BaseProvider._headingCallbacks b)).
    + tauto.
    + rewrite in_app_iff. cbn. split.
      * intros [[H|[H|[]]] _]; [exact H|]. exfalso. apply Hne. symmetry. exact H.
      * intros H. split; [left; exact H | exact Hneq].
Qed.

Lemma heading_callbacks_witness :
  let b := BaseProvider.onHeadingChange 3%nat BaseProvider.new in
  let registered := BaseProvider.onHeadingChange 5%nat (BaseProvider.onHeadingChange 5%nat b) in
  let removed := BaseProvider.offHeadingChange 5%nat registered in
  NoDup (BaseProvider._headingCallbacks registered) /\
  count_occ Nat.eq_dec (BaseProvider._headingCallbacks registered) 5%nat = 1%nat /\
  BaseProvider.heading_calls (BaseProvider.emitHeadingChange (num 90) registered)
  = BaseProvider.heading_calls b
    ++ map (fun cb => (cb, num 90)) (BaseProvider._headingCallbacks registered) /\
  BaseProvider._currentHeading (BaseProvider.emitHeadingChange (num 90) registered)
  = num 90 /\
  ~ In 5%nat (BaseProvider._headingCallbacks removed) /\
  (forall cb, cb <> 5%nat ->
              (In cb (BaseProvider._headingCallbacks removed)
               <-> In cb (BaseProvider._headingCallbacks b))).
Proof.
  apply (@heading_callbacks (BaseProvider.onHeadingChange 3%nat BaseProvider.new)
           5%nat (num 90)).
  repeat constructor. intros [].
Defined.

(** ** Viewer.ts: what the viewer hears of the heading *)

Section ViewerHeading.
Variable Number_toString : number -> string.
Variable _apiKey : string.

Let displayImagery := ViewerComponent.displayImagery Number_toString _apiKey.

Lemma google_render_callbacks (imagery : ImageryResult) (p : GoogleRender.t) :
  BaseProvider._headingCallbacks
    (GoogleRender.base (GoogleRender.render Number_toString _apiKey imagery p))
  = BaseProvider._headingCallbacks (GoogleRender.base p).
Proof. reflexivity. Qed.

Lemma google_setHeading_calls (heading : number) (p : GoogleRender.t)
      (callback : BaseProvider.HeadingCallback) :
  In callback (BaseProvider._headingCallbacks (GoogleRender.base p)) ->
  In (callback, heading)
     (BaseProvider.heading_calls
        (GoogleRender.base (GoogleRender.setHeading Number_toString _apiKey heading p))).
Proof.
  intros H. destruct p as [b ct fr img h pt].
  destruct fr, img; cbn in *; apply in_or_app; right; apply in_map_iff;
    exists callback; (split; [reflexivity | exact H]).
Qed.

(** X17. [displayImagery] registers the viewer's heading callback with
    the provider and then calls [render].  [render] of the Mapillary
    provider starts with [destroy], which clears the callbacks: after
    [displayImagery] with Mapillary no callback is registered, the
    initial heading of the imagery reaches nobody, and a bearing event of
    the MapillaryJS viewer changes [_currentHeading] and calls nobody, so
    that the viewer hears nothing.  [render] of the Google provider keeps
    the callbacks: the viewer's callback is registered, and [setHeading]
    calls it with the heading. *)
Theorem displayImagery_heading_callback (w : ViewerComponent.t) (imagery : ImageryResult) :
  (let w' := displayImagery mapillary imagery w in
   let p := ViewerComponent.mapillaryProvider w' in
   BaseProvider._headingCallbacks (MapillaryRender.base p) = [] /\
   MapillaryRender._viewer p = Some (ImageryResult.id imagery) /\
   ViewerComponent.heard w' = ViewerComponent.heard w /\
   forall bearing,
     let p' := MapillaryRender.on_bearing bearing p in
     MapillaryRender.getViewState p' = Some bearing /\
     BaseProvider.heading_calls (MapillaryRender.base p')
     = BaseProvider.heading_calls (MapillaryRender.base (ViewerComponent.mapillaryProvider w))) /\
  (let w' := displayImagery google imagery w in
   let p := ViewerComponent.googleProvider w' in
   In ViewerComponent._headingCallback
      (BaseProvider._headingCallbacks (GoogleRender.base p)) /\
   ViewerComponent.heard w' = ViewerComponent.heard w /\
   forall heading,
     let p' := GoogleRender.setHeading Number_toString _apiKey heading p in
     In (ViewerComponent._headingCallback, heading)
        (BaseProvider.heading_calls (GoogleRender.base p'))).
Proof.
  destruct w as [v [gb gc gf gi gh gp] [mb mc mv mvc]].
  destruct v as [le ie cp rd]. unfold displayImagery. split.
  - cbv zeta. unfold ViewerComponent.displayImagery, ViewerComponent.clearContent.
    cbn [_currentProvider ViewerComponent.viewer].
    unfold ViewerComponent.heard.
    destruct imagery as [iid iloc icap ithumb iprov [ihead|] ipano];
      destruct cp as [[|]|]; cbn;
      rewrite ?app_nil_r; repeat split; reflexivity.
  - cbv zeta. unfold ViewerComponent.displayImagery, ViewerComponent.clearContent.
    cbn [_currentProvider ViewerComponent.viewer].
    assert (Hon : forall b,
               In ViewerComponent._headingCallback
                  (BaseProvider._headingCallbacks
                     (BaseProvider.onHeadingChange ViewerComponent._headingCallback b))).
    { intros b. cbn [BaseProvider.onHeadingChange BaseProvider._headingCallbacks].
      destruct (existsb (Nat.eqb ViewerComponent._headingCallback)
                  (BaseProvider._headingCallbacks b)) eqn:E.
      - apply existsb_callback_In. exact E.
      - apply in_or_app. right. left. reflexivity. }
    unfold ViewerComponent.heard.
    destruct cp as [[|]|]; cbn [ViewerComponent.googleProvider
                                  ViewerComponent.mapillaryProvider
                                  ViewerComponent.viewer];
      (split; [rewrite google_render_callbacks; apply Hon|]);
      (split; [reflexivity|]);
      intros heading; apply google_setHeading_calls;
      rewrite google_render_callbacks; apply Hon.
Qed.
End ViewerHeading.

(** A Mapillary image with the heading 90 is displayed, and the user
    turns the view to 180: the viewer's callback is never called. *)
Example displayImagery_mapillary_runs :
  let w0 := {| ViewerComponent.viewer :=
                 ViewerOps.showInitialState
                   {| _loadingEl := None; _initialEl := false;
                      _currentProvider := None; rendered := None |};
               ViewerComponent.googleProvider := GoogleRender.new;
               ViewerComponent.mapillaryProvider := MapillaryRender.new |} in
  let w1 := ViewerComponent.displayImagery (fun _ => "0") "key"
              mapillary sample_mapillary_imagery w0 in
  let p := MapillaryRender.on_bearing (num 180) (ViewerComponent.mapillaryProvider w1) in
  BaseProvider.heading_calls (MapillaryRender.base p) = [] /\
  MapillaryRender.getViewState p = Some (num 180) /\
  MapillaryRender._container p = false.
Proof. repeat split; reflexivity. Qed.

(** ** ProviderTabs.ts *)

Lemma ProviderType_eqb_refl (p : ProviderType) : ProviderType_eqb p p = true.
Proof. destruct p; reflexivity. Qed.

Ltac tabs_compute :=
  cbv beta iota zeta delta
    [ProviderTabs.setActive ProviderTabs.update ProviderTabs.click
     ProviderTabs.get ProviderTabs.with_buttons
     ProviderTabs.highlighted ProviderTabs.enabled ProviderTabs.clickable
     ProviderTabs.getActive ProviderTabs.all_or_none
     ProviderTabs._providers ProviderTabs._activeProvider
     ProviderTabs._disabledProviders ProviderTabs._tabs ProviderTabs.buttons
     ProviderTabs.single_provider ProviderTabs.selected
     ProviderTabs.set_class ProviderTabs.set_disabled
     ProviderTabs.tab_active ProviderTabs.disabled
     ProviderType_eqb negb option_map] in *.

(** The two buttons and the keys of the map, by cases. *)
Ltac tabs_cases bs keys :=
  let Eg := fresh "Eg" in let Em := fresh "Em" in
  let Kg := fresh "Kg" in let Km := fresh "Km" in
  let ga := fresh "ga" in let gd := fresh "gd" in
  let ma := fresh "ma" in let md := fresh "md" in
  tabs_compute;
  destruct (bs google) as [ga gd] eqn:Eg;
  destruct (bs mapillary) as [ma md] eqn:Em;
  destruct (keys google) eqn:Kg;
  destruct (keys mapillary) eqn:Km;
  tabs_compute;
  destruct gd; destruct md;
  repeat (progress (tabs_compute; rewrite ?Eg, ?Em, ?Kg, ?Km)).

Lemma setActive_keeps_highlight (provider : ProviderType) (s : ProviderTabs.t) :
  ProviderTabs.only_active_highlighted s ->
  ProviderTabs.only_active_highlighted (ProviderTabs.setActive provider s).
Proof.
  unfold ProviderTabs.only_active_highlighted.
  destruct s as [ps a ds bs keys sp sel]. intros H q.
  pose proof (H google) as Hg. pose proof (H mapillary) as Hm. clear H.
  destruct a, provider, q; tabs_cases bs keys;
    intros E; try reflexivity; try discriminate E;
    try (apply Hg; exact E); try (apply Hm; exact E);
    try (symmetry; apply Hg; exact E); try (symmetry; apply Hm; exact E).
Qed.

Lemma call_keeps_highlight (s : ProviderTabs.t) (c : ProviderTabs.Call) :
  ProviderTabs.only_active_highlighted s ->
  ProviderTabs.only_active_highlighted (ProviderTabs.call s c).
Proof.
  intros H. destruct c as [p|p|p en|ps|]; cbn [ProviderTabs.call].
  - apply setActive_keeps_highlight. exact H.
  - unfold ProviderTabs.click.
    destruct (negb (ProviderTabs.disabled (ProviderTabs.buttons s p))); [|exact H].
    apply (setActive_keeps_highlight p) in H.
    exact H.
  - unfold ProviderTabs.setEnabled.
    destruct (ProviderTabs.get s p) as [tab|] eqn:Et; [|exact H].
    unfold ProviderTabs.only_active_highlighted, ProviderTabs.highlighted,
      ProviderTabs.get in *.
    cbn. intros q. specialize (H q). unfold ProviderTabs.update.
    destruct (ProviderTabs._tabs s q); [|exact H].
    destruct (ProviderType_eqb q p); [|exact H].
    destruct (ProviderTabs.buttons s q) as [qa qd]; cbn in *; exact H.
  - unfold ProviderTabs.only_active_highlighted, ProviderTabs.highlighted,
      ProviderTabs.get in *.
    cbn. intros q. specialize (H q).
    destruct (ProviderTabs._tabs s q); [|exact H].
    destruct (ProviderTabs.buttons s q) as [qa qd]; cbn in *; exact H.
  - unfold ProviderTabs.only_active_highlighted, ProviderTabs.highlighted,
      ProviderTabs.get.
    cbn. discriminate.
Qed.

Lemma call_keeps_all_or_none (s : ProviderTabs.t) (c : ProviderTabs.Call) :
  ProviderTabs.all_or_none s -> ProviderTabs.all_or_none (ProviderTabs.call s c).
Proof.
  destruct s as [ps a ds bs keys sp sel].
  destruct c as [p|p|p en|ps'|]; cbn [ProviderTabs.call]; intros H.
  - destruct a, p; tabs_cases bs keys; try reflexivity; discriminate H.
  - destruct a, p; tabs_cases bs keys; try reflexivity; discriminate H.
  - unfold ProviderTabs.setEnabled.
    destruct (ProviderTabs.get _ p); exact H.
  - exact H.
  - reflexivity.
Qed.

(** X27. Whatever calls and clicks the tabs have received since they
    were created, [destroy] included, a tab of the [Map] that carries the
    [active] class is the tab of [getActive()]: never two tabs are
    highlighted.  A click on a button that is disabled changes nothing
    and selects nothing; a click on a button that is not disabled calls
    [onSelect] with its provider, once.  While the button is in the
    [Map], that provider is the active one afterwards; its tab is
    highlighted, and the tab that was active is not, when it was not the
    active one before, and no button changes when it was.  After
    [destroy] the listener still calls [onSelect], and neither the
    active provider nor a button changes. *)
Theorem tabs_highlight_the_active_one :
  forall (providers : list ProviderType) (activeProvider : ProviderType)
         (disabledProviders : list ProviderType) (cs : list ProviderTabs.Call),
    let s := ProviderTabs.calls cs
               (ProviderTabs.new providers activeProvider disabledProviders) in
    ProviderTabs.only_active_highlighted s /\
    forall provider,
      (ProviderTabs.clickable s provider = false -> ProviderTabs.click provider s = s) /\
      (ProviderTabs.clickable s provider = true ->
       let s' := ProviderTabs.click provider s in
       ProviderTabs.selected s' = ProviderTabs.selected s ++ [provider] /\
       (ProviderTabs.enabled s provider = true ->
        ProviderTabs.getActive s' = provider /\
        (provider <> ProviderTabs.getActive s ->
         ProviderTabs.highlighted s' provider = true /\
         ProviderTabs.highlighted s' (ProviderTabs.getActive s) = false) /\
        (provider = ProviderTabs.getActive s ->
         ProviderTabs.buttons s' = ProviderTabs.buttons s)) /\
       (ProviderTabs.enabled s provider = false ->
        ProviderTabs.getActive s' = ProviderTabs.getActive s /\
        ProviderTabs.buttons s' = ProviderTabs.buttons s /\
        forall q, ProviderTabs._tabs s' q = false)).
Proof.
  intros providers activeProvider disabledProviders cs. cbv zeta.
  set (s0 := ProviderTabs.new providers activeProvider disabledProviders).
  assert (H0 : ProviderTabs.only_active_highlighted s0).
  { unfold ProviderTabs.only_active_highlighted, ProviderTabs.highlighted. cbn.
    intros p E. apply ProviderType_eqb_eq. exact E. }
  assert (K0 : ProviderTabs.all_or_none s0) by reflexivity.
  assert (H : ProviderTabs.only_active_highlighted (ProviderTabs.calls cs s0) /\
              ProviderTabs.all_or_none (ProviderTabs.calls cs s0)).
  { clearbody s0. revert s0 H0 K0.
    induction cs as [|c cs IH]; intros s0 H0 K0; [split; assumption|].
    cbn. apply IH; [apply call_keeps_highlight | apply call_keeps_all_or_none]; assumption. }
  destruct H as [H K]. split; [exact H|]. clear H.
  intros provider. revert K. generalize (ProviderTabs.calls cs s0). intros s K.
  destruct s as [ps a ds bs keys sp sel]. split.
  - destruct provider; tabs_cases bs keys; intros E; try reflexivity; discriminate E.
  - revert K.
    destruct a, provider; tabs_cases bs keys; intros K E; try discriminate E;
      try discriminate K;
      (split; [reflexivity|]); split; intros E'; try discriminate E';
      repeat split; try reflexivity;
      try (intros Hne; exfalso; apply Hne; reflexivity);
      try (intros Heq; discriminate Heq);
      try (tabs_compute; rewrite ?Eg, ?Em, ?Kg, ?Km; tabs_compute; reflexivity);
      try (exfalso; match goal with Hne : ?x <> ?x |- _ => apply Hne; reflexivity end);
      intros q; destruct q; assumption.
Qed.

(** X28. [setActive] with a provider whose tab is disabled takes the
    [active] class from the tab of the active provider and gives it to
    no tab: [getActive()] is as before, no tab is highlighted, and
    [setActive] with the provider that is still the active one returns at
    once, so that the class does not come back. *)
Theorem setActive_disabled_loses_highlight (s : ProviderTabs.t) (provider : ProviderType) :
  ProviderTabs.only_active_highlighted s ->
  provider <> ProviderTabs.getActive s ->
  ProviderTabs.enabled s provider = false ->
  let s' := ProviderTabs.setActive provider s in
  ProviderTabs.getActive s' = ProviderTabs.getActive s /\
  (forall q, ProviderTabs.highlighted s' q = false) /\
  ProviderTabs.setActive (ProviderTabs.getActive s) s' = s' /\
  ProviderTabs.selected s' = ProviderTabs.selected s.
Proof.
  unfold ProviderTabs.only_active_highlighted.
  destruct s as [ps a ds bs keys sp sel]. intros H Hne Hd.
  pose proof (H google) as Hg. pose proof (H mapillary) as Hm. clear H.
  cbv zeta.
  destruct a, provider; try (exfalso; apply Hne; reflexivity); clear Hne;
    tabs_cases bs keys; try discriminate Hd;
    (split; [reflexivity|]); (split; [|split; reflexivity]);
    intros q; destruct q; tabs_compute; rewrite ?Eg, ?Em, ?Kg, ?Km; tabs_compute;
    try reflexivity;
    try (destruct ga; [discriminate (Hg eq_refl) | reflexivity]);
    try (destruct ma; [discriminate (Hm eq_refl) | reflexivity]).
Qed.

Lemma setActive_disabled_loses_highlight_witness :
  let s := ProviderTabs.new [google] google [] in
  let s' := ProviderTabs.setActive mapillary s in
  ProviderTabs.getActive s' = ProviderTabs.getActive s /\
  (forall q, ProviderTabs.highlighted s' q = false) /\
  ProviderTabs.setActive (ProviderTabs.getActive s) s' = s' /\
  ProviderTabs.selected s' = ProviderTabs.selected s.
Proof.
  apply (@setActive_disabled_loses_highlight (ProviderTabs.new [google] google []) mapillary).
  - intros p E. destruct p; [reflexivity | discriminate E].
  - discriminate.
  - reflexivity.
Defined.

(** After [destroy] a click on a button that is not disabled still
    reaches [onSelect]. *)
Example click_after_destroy :
  let s := ProviderTabs.destroy (ProviderTabs.new [google; mapillary] google []) in
  ProviderTabs.selected (ProviderTabs.click mapillary s) = [mapillary] /\
  ProviderTabs.getActive (ProviderTabs.click mapillary s) = google.
Proof. split; reflexivity. Qed.

(** ** Panel.ts: resizing *)

(** [Math.max(lower, Math.min(upper, x))], as the panel constrains a
    size: the lower bound wins over the upper one. *)
Lemma constrained_size (lower upper x : number) :
  is_nan lower = false -> is_nan upper = false -> is_nan x = false ->
  let size := Math_max lower (Math_min upper x) in
  num_le lower size = true /\
  (num_le lower upper = true -> num_le size upper = true) /\
  (num_lt upper lower = true -> num_eq size lower = true) /\
  (num_le lower x = true -> num_le x upper = true -> num_eq size x = true).
Proof.
  intros Hl Hu Hx. cbv zeta.
  pose proof (Math_min_not_nan upper x Hu Hx) as Hm.
  pose proof (Math_min_key upper x Hu Hx) as Hmk.
  pose proof (Math_max_not_nan lower _ Hl Hm) as HM.
  pose proof (Math_max_key lower _ Hl Hm) as HMk.
  destruct (num_lt lower (Math_min upper x)) eqn:E1;
    destruct (num_lt x upper) eqn:E2;
    repeat split; try intros H1; try intros H2; to_keys;
    rewrite ?HMk in *; rewrite ?Hmk in *; key_arith.
Qed.

(** X29. While the panel is resized with the mouse, every move sets a
    width that is at least the minimum width; it is at most the width
    the container allows when that is not below the minimum, and the
    minimum itself when it is; a dragged width between the two is taken
    as it is.  The same holds for the height.  (None of the numbers
    being NaN.) *)
Theorem resize_keeps_size_in_bounds (e : PanelSize.MouseEvent) (p : PanelSize.t) :
  PanelSize._isResizing p = true ->
  is_nan (PanelSize._minWidth p) = false ->
  is_nan (PanelSize._minHeight p) = false ->
  is_nan (PanelSize.maxWidth e) = false ->
  is_nan (PanelSize.maxHeight e) = false ->
  is_nan (PanelSize.dragged_width e p) = false ->
  is_nan (PanelSize.dragged_height e p) = false ->
  let p' := PanelSize.onResizeMove e p in
  (num_le (PanelSize._minWidth p) (PanelSize._width p') = true /\
   (num_le (PanelSize._minWidth p) (PanelSize.maxWidth e) = true ->
    num_le (PanelSize._width p') (PanelSize.maxWidth e) = true) /\
   (num_lt (PanelSize.maxWidth e) (PanelSize._minWidth p) = true ->
    num_eq (PanelSize._width p') (PanelSize._minWidth p) = true) /\
   (num_le (PanelSize._minWidth p) (PanelSize.dragged_width e p) = true ->
    num_le (PanelSize.dragged_width e p) (PanelSize.maxWidth e) = true ->
    num_eq (PanelSize._width p') (PanelSize.dragged_width e p) = true)) /\
  (num_le (PanelSize._minHeight p) (PanelSize._height p') = true /\
   (num_le (PanelSize._minHeight p) (PanelSize.maxHeight e) = true ->
    num_le (PanelSize._height p') (PanelSize.maxHeight e) = true) /\
   (num_lt (PanelSize.maxHeight e) (PanelSize._minHeight p) = true ->
    num_eq (PanelSize._height p') (PanelSize._minHeight p) = true) /\
   (num_le (PanelSize._minHeight p) (PanelSize.dragged_height e p) = true ->
    num_le (PanelSize.dragged_height e p) (PanelSize.maxHeight e) = true ->
    num_eq (PanelSize._height p') (PanelSize.dragged_height e p) = true)).
Proof.
  intros Hr Hmw Hmh Hxw Hxh Hdw Hdh. cbv zeta.
  unfold PanelSize.onResizeMove. rewrite Hr. cbn [negb].
  cbn [PanelSize.setSize PanelSize._width PanelSize._height].
  split.
  - apply (constrained_size _ _ _ Hmw Hxw Hdw).
  - apply (constrained_size _ _ _ Hmh Hxh Hdh).
Qed.

Lemma resize_keeps_size_in_bounds_witness :
  let p := PanelSize.onResizeStart (mouse_at 100 100) example_panel in
  let e := mouse_at 50 2000 in
  let p' := PanelSize.onResizeMove e p in
  (num_le (PanelSize._minWidth p) (PanelSize._width p') = true /\
   (num_le (PanelSize._minWidth p) (PanelSize.maxWidth e) = true ->
    num_le (PanelSize._width p') (PanelSize.maxWidth e) = true) /\
   (num_lt (PanelSize.maxWidth e) (PanelSize._minWidth p) = true ->
    num_eq (PanelSize._width p') (PanelSize._minWidth p) = true) /\
   (num_le (PanelSize._minWidth p) (PanelSize.dragged_width e p) = true ->
    num_le (PanelSize.dragged_width e p) (PanelSize.maxWidth e) = true ->
    num_eq (PanelSize._width p') (PanelSize.dragged_width e p) = true)) /\
  (num_le (PanelSize._minHeight p) (PanelSize._height p') = true /\
   (num_le (PanelSize._minHeight p) (PanelSize.maxHeight e) = true ->
    num_le (PanelSize._height p') (PanelSize.maxHeight e) = true) /\
   (num_lt (PanelSize.maxHeight e) (PanelSize._minHeight p) = true ->
    num_eq (PanelSize._height p') (PanelSize._minHeight p) = true) /\
   (num_le (PanelSize._minHeight p) (PanelSize.dragged_height e p) = true ->
    num_le (PanelSize.dragged_height e p) (PanelSize.maxHeight e) = true ->
    num_eq (PanelSize._height p') (PanelSize.dragged_height e p) = true)).
Proof.
  apply (@resize_keeps_size_in_bounds (mouse_at 50 2000)
           (PanelSize.onResizeStart (mouse_at 100 100) example_panel));
    vm_compute; reflexivity.
Defined.

Lemma moves_outside_drag (moves : list PanelSize.MouseEvent) (p : PanelSize.t) :
  PanelSize._isResizing p = false ->
  fold_left (fun p e => PanelSize.onResizeMove e p) moves p = p.
Proof.
  intros H. induction moves as [|e moves IH]; [reflexivity|].
  cbn. unfold PanelSize.onResizeMove at 2. rewrite H. cbn [negb]. exact IH.
Qed.

Lemma onResizeMove_again (e0 e : PanelSize.MouseEvent) (p : PanelSize.t) :
  PanelSize._isResizing p = true ->
  PanelSize._isResizing (PanelSize.onResizeMove e0 p) = true /\
  PanelSize.onResizeMove e (PanelSize.onResizeMove e0 p) = PanelSize.onResizeMove e p.
Proof.
  destruct p as [w h mw mh pos r sx sy sw sh rs]. cbn [PanelSize._isResizing].
  intros ->. split; reflexivity.
Qed.

Lemma moves_in_drag (moves : list PanelSize.MouseEvent) :
  forall (p : PanelSize.t) (e : PanelSize.MouseEvent),
    PanelSize._isResizing p = true ->
    fold_left (fun p e => PanelSize.onResizeMove e p) (moves ++ [e]) p
    = PanelSize.onResizeMove e p.
Proof.
  induction moves as [|e0 moves IH]; intros p e H; [reflexivity|].
  cbn [app fold_left].
  destruct (onResizeMove_again e0 e p H) as [H' E].
  rewrite IH by exact H'. exact E.
Qed.

(** X30. A resize is a drag.  Mouse moves outside a drag leave the panel
    as it is.  The size at the end of a drag is the size that the last
    position of the mouse gives from the size at its start, whatever the
    way of the mouse in between; the end of the drag reports that size to
    [onResize] once, and a button released outside a drag reports
    nothing. *)
Theorem drag_depends_on_last_move :
  forall (p : PanelSize.t) (down last : PanelSize.MouseEvent)
         (moves : list PanelSize.MouseEvent),
    PanelSize._isResizing p = false ->
    fold_left (fun p e => PanelSize.onResizeMove e p) moves p = p /\
    PanelSize.onResizeEnd p = p /\
    let p' := PanelSize.drag down (moves ++ [last]) p in
    PanelSize.getSize p'
    = PanelSize.getSize (PanelSize.onResizeMove last (PanelSize.onResizeStart down p)) /\
    PanelSize.resized p' = PanelSize.resized p ++ [PanelSize.getSize p'] /\
    PanelSize._isResizing p' = false /\
    PanelSize.drag down [] p
    = {| PanelSize._width := PanelSize._width p;
         PanelSize._height := PanelSize._height p;
         PanelSize._minWidth := PanelSize._minWidth p;
         PanelSize._minHeight := PanelSize._minHeight p;
         PanelSize._position := PanelSize._position p;
         PanelSize._isResizing := false;
         PanelSize._startX := PanelSize.clientX down;
         PanelSize._startY := PanelSize.clientY down;
         PanelSize._startWidth := PanelSize._width p;
         PanelSize._startHeight := PanelSize._height p;
         PanelSize.resized :=
           PanelSize.resized p ++ [(PanelSize._width p, PanelSize._height p)] |}.
Proof.
  intros p down last moves H.
  split; [apply moves_outside_drag; exact H|].
  split; [unfold PanelSize.onResizeEnd; rewrite H; reflexivity|].
  cbv zeta. unfold PanelSize.drag.
  rewrite moves_in_drag by reflexivity.
  repeat split.
Qed.

Lemma drag_depends_on_last_move_witness :
  fold_left (fun p e => PanelSize.onResizeMove e p) [mouse_at 70 90] example_panel
  = example_panel /\
  PanelSize.onResizeEnd example_panel = example_panel /\
  let p' := PanelSize.drag (mouse_at 100 100) ([mouse_at 70 90] ++ [mouse_at 50 120])
              example_panel in
  PanelSize.getSize p'
  = PanelSize.getSize (PanelSize.onResizeMove (mouse_at 50 120)
                         (PanelSize.onResizeStart (mouse_at 100 100) example_panel)) /\
  PanelSize.resized p' = PanelSize.resized example_panel ++ [PanelSize.getSize p'] /\
  PanelSize._isResizing p' = false /\
  PanelSize.drag (mouse_at 100 100) [] example_panel
  = {| PanelSize._width := PanelSize._width example_panel;
       PanelSize._height := PanelSize._height example_panel;
       PanelSize._minWidth := PanelSize._minWidth example_panel;
       PanelSize._minHeight := PanelSize._minHeight example_panel;
       PanelSize._position := PanelSize._position example_panel;
       PanelSize._isResizing := false;
       PanelSize._startX := PanelSize.clientX (mouse_at 100 100);
       PanelSize._startY := PanelSize.clientY (mouse_at 100 100);
       PanelSize._startWidth := PanelSize._width example_panel;
       PanelSize._startHeight := PanelSize._height example_panel;
       PanelSize.resized :=
         PanelSize.resized example_panel
         ++ [(PanelSize._width example_panel, PanelSize._height example_panel)] |}.
Proof.
  apply (@drag_depends_on_last_move example_panel (mouse_at 100 100) (mouse_at 50 120)
           [mouse_at 70 90]).
  reflexivity.
Defined.

(** The panel at the top right, dragged 50 to the left and 20 down:
    450 by 320. *)
Example drag_runs :
  PanelSize.getSize
    (PanelSize.drag (mouse_at 100 100) [mouse_at 70 90; mouse_at 50 120] example_panel)
  = (num 450, num 320) /\
  PanelSize.getSize
    (PanelSize.drag (mouse_at 100 100) [mouse_at 700 (-500)] example_panel)
  = (num 300, num 200) /\
  PanelSize.getSize
    (PanelSize.drag (mouse_at 100 100) [mouse_at (-5000) 5000] example_panel)
  = (num 760, num 520).
Proof. vm_compute. repeat split; reflexivity. Qed.
